(** * The gateway launcher: the configuration wizard (src/metadata.ts), the
      preflight checks (preflight.ts) and the wallet setup (wallet-setup.ts)

    A shallow embedding of [normalizeDomain], [domainLooksValid],
    [formatSummary], [normalizeFrontendHosting], the prompt factories
    [prompts.*], [askAll], [editLoop] and [collectProjectMetadata]; of
    [compareSemver],
    [getCmdVersion], the checks and [runPreflightOrExit]; of [isPoktAddress]
    and [runWalletSetup]; and the properties proved about them.

    Strings are JavaScript strings whose code units lie in U+0000..U+00FF,
    one [ascii] per code unit; [length] is the JavaScript [.length]. *)

From Stdlib Require Import String Ascii List Bool Arith ZArith Lia.
Import ListNotations.

Local Open Scope list_scope.

(* ================================================================== *)
(** * Strings *)

Definition str := list ascii.

(** A string literal as a list of code units. *)
Definition lit (s : string) : str := list_ascii_of_string s.

Definition code (c : ascii) : nat := nat_of_ascii c.

Definition between (lo hi : nat) (c : ascii) : bool :=
  ((lo <=? code c) && (code c <=? hi)).

(** WhiteSpace and LineTerminator code units below U+0100: TAB, LF, VT, FF,
    CR, SP and NBSP.  [String.prototype.trim] strips them and [\s] matches
    them. *)
Definition is_ws (c : ascii) : bool :=
  between 9 13 c || (code c =? 32) || (code c =? 160).

Fixpoint trimStart (s : str) : str :=
  match s with
  | c :: t => if is_ws c then trimStart t else s
  | [] => []
  end.

Definition trimEnd (s : str) : str := rev (trimStart (rev s)).

(** [String.prototype.trim] *)
Definition trim (s : str) : str := trimEnd (trimStart s).

(** The letters with an upper and a lower case form below U+0100 are A-Z and
    U+00C0..U+00DE without the multiplication sign U+00D7. *)
Definition is_upper (c : ascii) : bool :=
  between 65 90 c || (between 192 222 c && negb (code c =? 215)).

Definition is_lower_paired (c : ascii) : bool :=
  between 97 122 c || (between 224 254 c && negb (code c =? 247)).

Definition lower_char (c : ascii) : ascii :=
  if is_upper c then ascii_of_nat (code c + 32) else c.

(** [String.prototype.toLowerCase].  On strings of these code units it
    changes one code unit into one; the code units that it turns into two
    (U+0130) lie outside. *)
Definition toLowerCase (s : str) : str := map lower_char s.

(** Canonicalize of a case-insensitive regular expression (no [u] flag): the
    upper case form when it is a single code unit.  The code units U+00B5,
    U+00DF and U+00FF have no upper case form below U+0100 and none shares
    its canonical form with another code unit of the range, so each is its
    own representative here. *)
Definition canon (c : ascii) : ascii :=
  if is_lower_paired c then ascii_of_nat (code c - 32) else c.

(* ================================================================== *)
(** * Regular expressions

    The fragment of ECMAScript regular expressions that metadata.ts uses,
    with the backtracking matcher of the language definition: alternatives
    left to right, quantifiers greedy, an iteration of a quantifier whose
    minimum is reached must consume input. *)

Inductive regex : Type :=
| Eps
| Chr (c : ascii)                      (* a literal character *)
| Cls (rs : list (ascii * ascii))      (* [...] as a list of ranges *)
| Space                                (* \s *)
| Seq (r1 r2 : regex)
| Alt (r1 r2 : regex)                  (* r1|r2 *)
| Rep (r : regex) (lo : nat) (hi : option nat)   (* r{lo,hi}, greedy *)
| Bol                                  (* ^ *)
| Eol                                  (* $ *)
| NegLook (r : regex).                 (* (?!r) *)

Declare Scope regex_scope.
Delimit Scope regex_scope with re.
Bind Scope regex_scope with regex.
Notation "a ';;' b" := (Seq a b) (at level 61, right associativity) : regex_scope.

Definition Star (r : regex) : regex := Rep r 0 None.
Definition Plus (r : regex) : regex := Rep r 1 None.
Definition Opt (r : regex) : regex := Rep r 0 (Some 1).
Definition Digit : regex := Cls [("0", "9")]%char.

(** A literal word. *)
Fixpoint Word (s : str) : regex :=
  match s with
  | [] => Eps
  | [c] => Chr c
  | c :: t => Seq (Chr c) (Word t)
  end.

(** A position of the matcher: the number of code units before it and the
    input that remains. *)
Definition mstate : Type := nat * str.

Definition remaining (st : mstate) : nat := length (snd st).

Definition char_eq (ic : bool) (c x : ascii) : bool :=
  if ic then Ascii.eqb (canon c) (canon x) else Ascii.eqb c x.

(** The code units [lo..hi]. *)
Definition enum (lo hi : ascii) : list ascii :=
  map ascii_of_nat (seq (code lo) (S (code hi) - code lo)).

Definition in_range (ic : bool) (x : ascii) (r : ascii * ascii) : bool :=
  if ic then existsb (fun c => Ascii.eqb (canon c) (canon x)) (enum (fst r) (snd r))
  else between (code (fst r)) (code (snd r)) x.

Definition in_class (ic : bool) (rs : list (ascii * ascii)) (x : ascii) : bool :=
  existsb (in_range ic x) rs.

(** One character that satisfies [p]. *)
Definition one (p : ascii -> bool) (st : mstate) (k : mstate -> option mstate)
  : option mstate :=
  match snd st with
  | x :: t => if p x then k (S (fst st), t) else None
  | [] => None
  end.

(** RepeatMatcher: [ma] is the matcher of the quantified atom. *)
Fixpoint rep (ma : mstate -> (mstate -> option mstate) -> option mstate)
    (fuel lo : nat) (hi : option nat) (st : mstate)
    (k : mstate -> option mstate) : option mstate :=
  match fuel with
  | 0 => None
  | S fuel' =>
      match hi with
      | Some 0 => k st
      | _ =>
          let again :=
            ma st (fun st' =>
              if ((lo =? 0) && (remaining st' =? remaining st)) then None
              else rep ma fuel' (pred lo) (option_map pred hi) st' k) in
          match lo with
          | 0 => match again with Some e => Some e | None => k st end
          | S _ => again
          end
      end
  end.

(** The matcher in continuation-passing style; [ic] is the [i] flag.  Every
    turn of a quantifier lowers [lo] or consumes input, so the fuel given to
    [rep] is never used up. *)
Fixpoint m (ic : bool) (r : regex) {struct r}
  : mstate -> (mstate -> option mstate) -> option mstate :=
  match r with
  | Eps => fun st k => k st
  | Chr c => one (char_eq ic c)
  | Cls rs => one (in_class ic rs)
  | Space => one is_ws
  | Seq r1 r2 => fun st k => m ic r1 st (fun st' => m ic r2 st' k)
  | Alt r1 r2 => fun st k =>
      match m ic r1 st k with
      | Some e => Some e
      | None => m ic r2 st k
      end
  | Rep r' lo hi => fun st k =>
      rep (m ic r') (S (lo + remaining st)) lo hi st k
  | Bol => fun st k => if (fst st =? 0) then k st else None
  | Eol => fun st k => match snd st with [] => k st | _ :: _ => None end
  | NegLook r' => fun st k =>
      match m ic r' st Some with
      | Some _ => None
      | None => k st
      end
  end.

(** What a successful match is, as a relation between the position before
    and the position after it. *)
Definition step_char (p : ascii -> bool) (st st' : mstate) : Prop :=
  exists x t, snd st = x :: t /\ p x = true /\ st' = (S (fst st), t).

Fixpoint iter (R : mstate -> mstate -> Prop) (n : nat) (st st' : mstate) : Prop :=
  match n with
  | 0 => st' = st
  | S n' => exists mid, R st mid /\ iter R n' mid st'
  end.

(** The numbers of turns that [r{lo,hi}] allows ([lo <= n <= hi] when
    [lo <= hi]). *)
Definition within (n lo : nat) (hi : option nat) : Prop :=
  match hi with
  | Some h => n <= h /\ (lo <= n \/ n = h)
  | None => lo <= n
  end.

Fixpoint den (ic : bool) (r : regex) (st st' : mstate) : Prop :=
  match r with
  | Eps => st' = st
  | Chr c => step_char (char_eq ic c) st st'
  | Cls rs => step_char (in_class ic rs) st st'
  | Space => step_char is_ws st st'
  | Seq r1 r2 => exists mid, den ic r1 st mid /\ den ic r2 mid st'
  | Alt r1 r2 => den ic r1 st st' \/ den ic r2 st st'
  | Rep r' lo hi => exists n, within n lo hi /\ iter (den ic r') n st st'
  | Bol => fst st = 0 /\ st' = st
  | Eol => snd st = [] /\ st' = st
  | NegLook r' => m ic r' st Some = None /\ st' = st
  end.

(** A matcher hands its continuation only positions at or after its own. *)
Definition advances
    (ma : mstate -> (mstate -> option mstate) -> option mstate) : Prop :=
  forall st k1 k2,
    (forall st', remaining st' <= remaining st -> k1 st' = k2 st') ->
    ma st k1 = ma st k2.

(** The leftmost match: the start index and the position after the match. *)
Fixpoint search (ic : bool) (r : regex) (i : nat) (rest : str)
  : option (nat * mstate) :=
  match m ic r (i, rest) Some with
  | Some e => Some (i, e)
  | None =>
      match rest with
      | [] => None
      | _ :: t => search ic r (S i) t
      end
  end.

(** [RegExp.prototype.test] *)
Definition test (ic : bool) (r : regex) (s : str) : bool :=
  match search ic r 0 s with Some _ => true | None => false end.

(** [String.prototype.replace] with a regular expression without the [g]
    flag and a replacement free of [$] patterns. *)
Definition replace (r : regex) (by_ : str) (s : str) : str :=
  match search false r 0 s with
  | Some (i, e) => firstn i s ++ by_ ++ snd e
  | None => s
  end.

(* ================================================================== *)
(** * metadata.ts: the pure helpers *)

Inductive Network := mainnet | testnet.
Inductive DeploymentType := vps | local.
Inductive FrontendHosting := same_vps | vercel | skip.
Inductive Integration := stripe | auth.

(** What a field holds at run time: a value of its type, or the string
    'canceled', which [p.group] puts in the place of the answer of a prompt
    that was dismissed.  The casts [as Network], [as DeploymentType], ... of
    [askAll] check nothing and let the string through. *)
Inductive slot (A : Type) :=
| Value (a : A)
| Canceled.              (* the string 'canceled' *)
Arguments Value {A} a.
Arguments Canceled {A}.

(** The string 'canceled' where a string is expected. *)
Definition canceled : str := lit "canceled".

(** The object [meta].  [projectName] and [domain] are strings whatever
    happened; each of the other fields may hold the string 'canceled'. *)
Record ProjectMetadata := mkMeta {
  projectName : str;
  network : slot Network;
  deploymentType : slot DeploymentType;
  frontendHosting : slot FrontendHosting;
  domain : option str;
  integrations : slot (list Integration);
  createdAtIso : str
}.

(** [/^\s*https?:\/\//] *)
Definition scheme_re : regex :=
  (Bol ;; Star Space ;; Word (lit "http") ;; Opt (Chr "s"%char) ;; Word (lit "://"))%re.

(** [/\/+$/] *)
Definition slashes_re : regex := (Plus (Chr "/"%char) ;; Eol)%re.

(** [t || null] *)
Definition or_null (t : str) : option str :=
  match t with [] => None | _ :: _ => Some t end.

Definition normalizeDomain (input : option str) : option str :=
  match input with
  | None | Some [] => None
  | Some input =>
      let t := toLowerCase (trim input) in
      let t := replace slashes_re [] (replace scheme_re [] t) in
      or_null t
  end.

Definition alnum : regex := Cls [("a", "z"); ("0", "9")]%char.
Definition alnum_hyphen : regex := Cls [("a", "z"); ("0", "9"); ("-", "-")]%char.
Definition alpha : regex := Cls [("a", "z")]%char.

(** [[a-z0-9]([a-z0-9-]{0,61}[a-z0-9])?\.], the group of [re] *)
Definition label_re : regex :=
  (alnum ;; Opt (Rep alnum_hyphen 0 (Some 61) ;; alnum) ;; Chr "."%char)%re.

(** [re = /^(?!-)([a-z0-9]([a-z0-9-]{0,61}[a-z0-9])?\.)+[a-z]{2,}$/i] *)
Definition fqdn_re : regex :=
  (Bol ;; NegLook (Chr "-"%char) ;; Plus label_re ;; Rep alpha 2 None ;; Eol)%re.

(** [/^(localhost|localhost:\d{1,5})$/i] *)
Definition localhostRe : regex :=
  (Bol ;;
   Alt (Word (lit "localhost")) (Word (lit "localhost:") ;; Rep Digit 1 (Some 5)) ;;
   Eol)%re.

Definition domainLooksValid (val : str) : bool :=
  test true fqdn_re val || test true localhostRe val.

(** The copy of [domainLooksValid] further down in metadata.ts (its lines
    303-308), kept for comparison. *)
Module Earlier.

(** [/^(?!-)([a-z0-9-]{1,63}\.)+[a-z]{2,}$/i] *)
Definition fqdn_re : regex :=
  (Bol ;; NegLook (Chr "-"%char) ;;
   Plus (Rep alnum_hyphen 1 (Some 63) ;; Chr "."%char) ;;
   Rep alpha 2 None ;; Eol)%re.

(** [/^(localhost|localhost:\d{2,5})$/i] *)
Definition localhostRe : regex :=
  (Bol ;;
   Alt (Word (lit "localhost")) (Word (lit "localhost:") ;; Rep Digit 2 (Some 5)) ;;
   Eol)%re.

Definition domainLooksValid (val : str) : bool :=
  test true fqdn_re val || test true localhostRe val.

End Earlier.

Definition normalizeFrontendHosting (meta : ProjectMetadata) : ProjectMetadata :=
  match deploymentType meta, frontendHosting meta with
  | Value local, Value same_vps =>
      mkMeta (projectName meta) (network meta) (deploymentType meta) (Value vercel)
             (domain meta) (integrations meta) (createdAtIso meta)
  | _, _ => meta
  end.

(** ** [formatSummary]

    The text after the label of a row is a string or the em dash U+2014,
    which is no code unit of [str]: [Dash].  The rows are joined by line
    feeds in the source and kept apart here. *)
Inductive Shown :=
| Str (s : str)
| Dash.

Definition Network_string (n : Network) : str :=
  match n with mainnet => lit "mainnet" | testnet => lit "testnet" end.

Definition Integration_string (g : Integration) : str :=
  match g with stripe => lit "stripe" | auth => lit "auth" end.

(** [Array.prototype.join] *)
Fixpoint join (sep : str) (l : list str) : str :=
  match l with
  | [] => []
  | [s] => s
  | s :: t => s ++ sep ++ join sep t
  end.

(** [None] when the function throws: the string 'canceled' has a length of
    8 and no [join], so [meta.integrations.join(", ")] is a TypeError. *)
Definition formatSummary (meta : ProjectMetadata) : option (list (str * Shown)) :=
  match integrations meta with
  | Canceled => None
  | Value ig =>
      Some
        [(lit "Project name:        ", Str (projectName meta));
         (lit "Network:             ",
          Str match network meta with
               | Value n => Network_string n
               | Canceled => canceled
               end);
         (lit "Deployment type:     ",
          Str match deploymentType meta with
               | Value vps => lit "Hosted VPS"
               | _ => lit "Local only"
               end);
         (lit "Frontend hosting:    ",
          Str match frontendHosting meta with
               | Value same_vps => lit "Same VPS"
               | Value vercel => lit "Vercel"
               | _ => lit "Skip"
               end);
         (lit "Domain:              ",
          match domain meta with
          | Some (c :: t) => Str (c :: t)
          | _ => Dash
          end);
         (lit "Integrations:        ",
          match ig with
          | [] => Dash
          | _ :: _ => Str (join (lit ", ") (map Integration_string ig))
          end)]
  end.

(* ================================================================== *)
(** * The prompt library

    What the wizard uses of @clack/prompts.  The operator is a list of
    inputs, each addressed to the prompt that is open when it arrives. *)

Inductive Input :=
| Esc                      (* dismiss the open prompt *)
| Line (v : str)           (* text: Enter with [v] in the field *)
| Choose (k : nat)         (* select: [k] times down, then Enter *)
| Check (ks : list nat).   (* multiselect: Space on these options in turn, then Enter *)

(** What a prompt makes of one input.  [Dismissed] is the cancel symbol that
    [isCancel] recognises; after [Rejected] and [Ignored] the prompt is
    still open. *)
Inductive Reply (A : Type) :=
| Answer (a : A)
| Dismissed
| Rejected (message : str)
| Ignored.
Arguments Answer {A} a.
Arguments Dismissed {A}.
Arguments Rejected {A} message.
Arguments Ignored {A}.

Record Text := mkText {
  t_initialValue : str;
  validate : str -> option str
}.

Record Select (A : Type) := mkSelect {
  options : list A;
  initialValue : A
}.
Arguments mkSelect {A}.
Arguments options {A}.
Arguments initialValue {A}.

Record MultiSelect (A : Type) := mkMultiSelect {
  ms_options : list A;
  initialValues : list A
}.
Arguments mkMultiSelect {A}.
Arguments ms_options {A}.
Arguments initialValues {A}.

(** [p.text]: the value is returned once [validate] returns nothing. *)
Definition text (t : Text) (i : Input) : Reply str :=
  match i with
  | Esc => Dismissed
  | Line v =>
      match validate t v with
      | Some message => Rejected message
      | None => Answer v
      end
  | _ => Ignored
  end.

Class Eqb (A : Type) := eqb : A -> A -> bool.

(** [Array.prototype.findIndex], [None] for -1. *)
Fixpoint findIndex {A} (p : A -> bool) (l : list A) : option nat :=
  match l with
  | [] => None
  | x :: t => if p x then Some 0 else option_map S (findIndex p t)
  end.

(** [a ?? b] *)
Definition nullish {A} (a : option A) (b : A) : A :=
  match a with Some x => x | None => b end.

(** The cursor starts on the initial value, or on the first option when the
    initial value is not among the options. *)
Definition cursor_of {A} `{Eqb A} (a : A) (l : list A) : nat :=
  nullish (findIndex (fun x => eqb x a) l) 0.

(** The option under the cursor after [k] moves down; the cursor wraps
    around. *)
Definition highlighted {A} `{Eqb A} (s : Select A) (k : nat) : A :=
  nth ((cursor_of (initialValue s) (options s) + k) mod length (options s))
      (options s) (initialValue s).

(** [p.select] *)
Definition select {A} `{Eqb A} (s : Select A) (i : Input) : Reply A :=
  match i with
  | Esc => Dismissed
  | Choose k => Answer (highlighted s k)
  | _ => Ignored
  end.

(** Space on an option adds it at the end of the value, or removes it. *)
Definition toggle {A} `{Eqb A} (value : list A) (a : A) : list A :=
  if existsb (fun y => eqb y a) value
  then filter (fun y => negb (eqb y a)) value
  else value ++ [a].

Fixpoint toggles {A} `{Eqb A} (opts : list A) (value : list A) (ks : list nat)
  : list A :=
  match ks with
  | [] => value
  | k :: ks' =>
      match nth_error opts k with
      | Some a => toggles opts (toggle value a) ks'
      | None => toggles opts value ks'
      end
  end.

(** [p.multiselect] with [required: false] *)
Definition multiselect {A} `{Eqb A} (s : MultiSelect A) (i : Input)
  : Reply (list A) :=
  match i with
  | Esc => Dismissed
  | Check ks => Answer (toggles (ms_options s) (initialValues s) ks)
  | _ => Ignored
  end.

#[export] Instance Network_eqb : Eqb Network :=
  fun a b => match a, b with mainnet, mainnet | testnet, testnet => true | _, _ => false end.
#[export] Instance DeploymentType_eqb : Eqb DeploymentType :=
  fun a b => match a, b with vps, vps | local, local => true | _, _ => false end.
#[export] Instance FrontendHosting_eqb : Eqb FrontendHosting :=
  fun a b => match a, b with
             | same_vps, same_vps | vercel, vercel | skip, skip => true
             | _, _ => false end.
#[export] Instance Integration_eqb : Eqb Integration :=
  fun a b => match a, b with stripe, stripe | auth, auth => true | _, _ => false end.

(** [===] on what a field holds: the string 'canceled' is none of the values
    of the options. *)
#[export] Instance slot_eqb {A} `{Eqb A} : Eqb (slot A) :=
  fun a b => match a, b with
             | Value x, Value y => eqb x y
             | Canceled, Canceled => true
             | _, _ => false end.

(* ================================================================== *)
(** * metadata.ts: the prompt factories

    The options of a selection are values of the type of the field; the
    initial value is whatever the caller passes, which in [editLoop] is what
    the field holds. *)

Definition msg_name_empty : str := lit "Please enter a project name.".
Definition msg_name_long : str := lit "Keep it under 64 characters.".
Definition msg_domain : str :=
  lit "Please enter a valid domain (e.g., api.example.com) or leave blank.".

Definition validate_projectName (v : str) : option str :=
  match trim v with
  | [] => Some msg_name_empty
  | _ :: _ => if 64 <? length v then Some msg_name_long else None
  end.

Definition validate_domain (v : str) : option str :=
  match normalizeDomain (Some v) with
  | None => None
  | Some t => if domainLooksValid t then None else Some msg_domain
  end.

Definition prompts_projectName (initial : option str) : Text :=
  mkText (nullish initial []) validate_projectName.

Definition prompts_network (initial : option (slot Network))
  : Select (slot Network) :=
  mkSelect [Value mainnet; Value testnet] (nullish initial (Value testnet)).

Definition prompts_deploymentType (initial : option (slot DeploymentType))
  : Select (slot DeploymentType) :=
  mkSelect [Value vps; Value local] (nullish initial (Value vps)).

(** [deploymentType === "local"] is false of the string 'canceled'. *)
Definition prompts_frontendHosting (d : slot DeploymentType)
    (initial : option (slot FrontendHosting)) : Select (slot FrontendHosting) :=
  mkSelect
    match d with
    | Value local => [Value vercel; Value skip]
    | _ => [Value same_vps; Value vercel; Value skip]
    end
    (nullish initial
       match d with Value local => Value vercel | _ => Value same_vps end).

(** The argument is [None] for [undefined], [Some None] for [null]. *)
Definition prompts_domain (initial : option (option str)) : Text :=
  mkText (nullish (nullish initial None) []) validate_domain.

(** The argument is an array here.  [editLoop] passes [meta.integrations];
    see [edit_field] for the string 'canceled' in its place. *)
Definition prompts_integrations (initial : option (list Integration))
  : MultiSelect Integration :=
  mkMultiSelect [stripe; auth] (nullish initial []).

(* ================================================================== *)
(** * [p.group]

    @clack/prompts is not part of the repository.  Its [group] asks the
    prompts in the order of the keys, each with the results so far.  What it
    does when a prompt is dismissed is a parameter of the development.  The
    library, when an [onCancel] callback was given, stores the string
    'canceled' under the key, calls the callback and goes on with the next
    key, and it resolves to the results object in every case: [GoOn].  The
    callback of [askAll] is [() => p.cancel("Setup cancelled.")], which
    prints a line and returns.  [askAll] tests [isCancel(result)], which
    provides for a group that resolves to the cancel symbol as soon as a
    prompt is dismissed: [GiveUp]. *)

Inductive OnDismiss := GoOn | GiveUp.

(** The results object of the group. *)
Record Results := mkResults {
  r_projectName : str;
  r_network : slot Network;
  r_deploymentType : slot DeploymentType;
  r_frontendHosting : slot FrontendHosting;
  r_domain : str;
  r_integrations : slot (list Integration)
}.

(** The prompt of the group that is open, with the results of the keys
    before it. *)
Inductive Pass :=
| AtProjectName
| AtNetwork (n : str)
| AtDeploymentType (n : str) (nw : slot Network)
| AtFrontendHosting (n : str) (nw : slot Network) (d : slot DeploymentType)
| AtDomain (n : str) (nw : slot Network) (d : slot DeploymentType)
    (f : slot FrontendHosting)
| AtIntegrations (n : str) (nw : slot Network) (d : slot DeploymentType)
    (f : slot FrontendHosting) (dm : str).

(** What an awaited library call resolves to. *)
Inductive Awaited (A : Type) :=
| Got (a : A)
| CancelSymbol.
Arguments Got {A} a.
Arguments CancelSymbol {A}.

(** What the group does with the reply of the open prompt: [stored a] is
    the answer [a] as a value of the key, [dropped] the string 'canceled'
    as one. *)
Definition ask {A B} (od : OnDismiss) (here : Pass) (r : Reply A)
    (stored : A -> B) (dropped : B)
    (next : B -> Pass + Awaited Results) : Pass + Awaited Results :=
  match r with
  | Answer a => next (stored a)
  | Dismissed =>
      match od with
      | GoOn => next dropped
      | GiveUp => inr CancelSymbol
      end
  | Rejected _ | Ignored => inl here
  end.

(** One input to the group of [askAll]: the next prompt, or what the group
    resolves to. *)
Definition group (od : OnDismiss) (p : Pass) (i : Input)
  : Pass + Awaited Results :=
  match p with
  | AtProjectName =>
      ask od p (text (prompts_projectName None) i) (fun v => v) canceled
        (fun n => inl (AtNetwork n))
  | AtNetwork n =>
      ask od p (select (prompts_network None) i) (fun v => v) Canceled
        (fun nw => inl (AtDeploymentType n nw))
  | AtDeploymentType n nw =>
      ask od p (select (prompts_deploymentType None) i) (fun v => v) Canceled
        (fun d => inl (AtFrontendHosting n nw d))
  | AtFrontendHosting n nw d =>
      ask od p (select (prompts_frontendHosting d None) i) (fun v => v) Canceled
        (fun f => inl (AtDomain n nw d f))
  | AtDomain n nw d f =>
      ask od p (text (prompts_domain None) i) (fun v => v) canceled
        (fun dm => inl (AtIntegrations n nw d f dm))
  | AtIntegrations n nw d f dm =>
      ask od p (multiselect (prompts_integrations None) i) Value Canceled
        (fun ig => inr (Got (mkResults n nw d f dm ig)))
  end.

(* ================================================================== *)
(** * [askAll], [editLoop], [collectProjectMetadata] *)

(** [askAll] after the group: null, or the object made of the results,
    whatever they hold; [now] is [new Date().toISOString()]. *)
Definition askAll_end (now : str) (result : Awaited Results)
  : option ProjectMetadata :=
  match result with
  | CancelSymbol => None
  | Got r =>
      Some (normalizeFrontendHosting
              (mkMeta (trim (r_projectName r)) (r_network r) (r_deploymentType r)
                 (r_frontendHosting r) (normalizeDomain (Some (r_domain r)))
                 (r_integrations r) now))
  end.

Inductive Choice := c_confirm | c_edit | c_start_over | c_cancel.

Inductive Field :=
| f_projectName | f_network | f_deploymentType | f_frontendHosting
| f_domain | f_integrations.

#[export] Instance Choice_eqb : Eqb Choice :=
  fun a b => match a, b with
             | c_confirm, c_confirm | c_edit, c_edit
             | c_start_over, c_start_over | c_cancel, c_cancel => true
             | _, _ => false end.
#[export] Instance Field_eqb : Eqb Field :=
  fun a b => match a, b with
             | f_projectName, f_projectName | f_network, f_network
             | f_deploymentType, f_deploymentType
             | f_frontendHosting, f_frontendHosting
             | f_domain, f_domain | f_integrations, f_integrations => true
             | _, _ => false end.

(** "What would you like to do?" *)
Definition review_prompt : Select Choice :=
  mkSelect [c_confirm; c_edit; c_start_over; c_cancel] c_confirm.

(** "Pick a field to edit"; no initial value is given. *)
Definition field_prompt : Select Field :=
  mkSelect [f_projectName; f_network; f_deploymentType; f_frontendHosting;
            f_domain; f_integrations] f_projectName.

(** The return values of [editLoop]. *)
Inductive Verdict := confirm | start_over | cancel.

(** The three awaits of the body of the loop of [editLoop], each with the
    object [meta] as it is at that point. *)
Inductive EditPoint :=
| Review (meta : ProjectMetadata)
| PickField (meta : ProjectMetadata)
| EditField (field : Field) (meta : ProjectMetadata).

Definition meta_of (e : EditPoint) : ProjectMetadata :=
  match e with
  | Review meta | PickField meta | EditField _ meta => meta
  end.

(** How [editLoop] goes on after an input: to its next await, to a return,
    or out by the TypeError of [formatSummary(meta)].  [Unreached] stands
    for the integrations re-prompt of an object whose integrations are the
    string 'canceled': [formatSummary] throws on such an object before the
    loop awaits anything, so no run gets there
    (lemma [collect_never_unreached]). *)
Inductive Looped :=
| Awaits (e : EditPoint)
| Ends (v : Verdict) (meta : ProjectMetadata)
| Throws (meta : ProjectMetadata)
| Unreached.

(** The head of the loop: [p.note(formatSummary(meta), ...)], then the
    review prompt opens. *)
Definition loop_head (meta : ProjectMetadata) : Looped :=
  match formatSummary meta with
  | Some _ => Awaits (Review meta)
  | None => Throws meta
  end.

Definition set_projectName (meta : ProjectMetadata) (v : str) :=
  mkMeta v (network meta) (deploymentType meta) (frontendHosting meta)
         (domain meta) (integrations meta) (createdAtIso meta).
Definition set_network (meta : ProjectMetadata) (v : slot Network) :=
  mkMeta (projectName meta) v (deploymentType meta) (frontendHosting meta)
         (domain meta) (integrations meta) (createdAtIso meta).
Definition set_deploymentType (meta : ProjectMetadata) (v : slot DeploymentType) :=
  mkMeta (projectName meta) (network meta) v (frontendHosting meta)
         (domain meta) (integrations meta) (createdAtIso meta).
Definition set_frontendHosting (meta : ProjectMetadata) (v : slot FrontendHosting) :=
  mkMeta (projectName meta) (network meta) (deploymentType meta) v
         (domain meta) (integrations meta) (createdAtIso meta).
Definition set_domain (meta : ProjectMetadata) (v : option str) :=
  mkMeta (projectName meta) (network meta) (deploymentType meta)
         (frontendHosting meta) v (integrations meta) (createdAtIso meta).
Definition set_integrations (meta : ProjectMetadata) (v : slot (list Integration)) :=
  mkMeta (projectName meta) (network meta) (deploymentType meta)
         (frontendHosting meta) (domain meta) v (createdAtIso meta).

(** [if (!isCancel(v)) ...] and the end of the body of the loop: the
    assignment when the prompt was answered, then the head of the loop; the
    prompt stays open after a rejected or an ignored input. *)
Definition assign {A} (here : EditPoint) (meta : ProjectMetadata)
    (r : Reply A) (store : A -> ProjectMetadata) : Looped :=
  match r with
  | Answer v => loop_head (store v)
  | Dismissed => loop_head meta
  | Rejected _ | Ignored => Awaits here
  end.

(** The branch of [editLoop] for one field. *)
Definition edit_field (field : Field) (meta : ProjectMetadata) (i : Input)
  : Looped :=
  let here := EditField field meta in
  match field with
  | f_projectName =>
      assign here meta (text (prompts_projectName (Some (projectName meta))) i)
        (fun v => set_projectName meta (trim v))
  | f_network =>
      assign here meta (select (prompts_network (Some (network meta))) i)
        (fun v => set_network meta v)
  | f_deploymentType =>
      assign here meta
        (select (prompts_deploymentType (Some (deploymentType meta))) i)
        (fun v => normalizeFrontendHosting (set_deploymentType meta v))
  | f_frontendHosting =>
      assign here meta
        (select
           (prompts_frontendHosting (deploymentType meta)
              (Some match deploymentType meta, frontendHosting meta with
                    | Value local, Value same_vps => Value vercel
                    | _, _ => frontendHosting meta
                    end)) i)
        (fun v => set_frontendHosting meta v)
  | f_domain =>
      assign here meta (text (prompts_domain (Some (domain meta))) i)
        (fun v => set_domain meta (normalizeDomain (Some v)))
  | f_integrations =>
      match integrations meta with
      | Value ig =>
          assign here meta
            (multiselect (prompts_integrations (Some ig)) i)
            (fun v => set_integrations meta (Value v))
      | Canceled => Unreached
      end
  end.

(** One input to [editLoop]. *)
Definition editLoop (e : EditPoint) (i : Input) : Looped :=
  match e with
  | Review meta =>
      match select review_prompt i with
      | Dismissed => Ends cancel meta
      | Answer c_confirm => Ends confirm meta
      | Answer c_start_over => Ends start_over meta
      | Answer c_cancel => Ends cancel meta
      | Answer c_edit => Awaits (PickField meta)
      | Rejected _ | Ignored => Awaits e
      end
  | PickField meta =>
      match select field_prompt i with
      | Dismissed => loop_head meta
      | Answer field => Awaits (EditField field meta)
      | Rejected _ | Ignored => Awaits e
      end
  | EditField field meta => edit_field field meta i
  end.

(** The states of [collectProjectMetadata]; [reads] counts the evaluations
    of the clock so far.  [Threw meta]: the function ended by the TypeError
    that [formatSummary(meta)] raised. *)
Inductive State :=
| InAskAll (reads : nat) (p : Pass)
| InEditLoop (reads : nat) (e : EditPoint)
| Returned (r : option ProjectMetadata)
| Threw (meta : ProjectMetadata)
| OffTheMap.

Definition start (reads : nat) : State := InAskAll reads AtProjectName.

(** [collectProjectMetadata] after a step of [editLoop]. *)
Definition follow (reads : nat) (l : Looped) : State :=
  match l with
  | Awaits e => InEditLoop reads e
  | Ends confirm meta => Returned (Some meta)
  | Ends cancel _ => Returned None
  | Ends start_over _ => start reads
  | Throws meta => Threw meta
  | Unreached => OffTheMap
  end.

Section Wizard.

(** What the group does when a prompt is dismissed. *)
Variable od : OnDismiss.

(** [clock n] is what [new Date().toISOString()] yields the [n]-th time it
    is evaluated, counted from 0. *)
Variable clock : nat -> str.

Definition step (s : State) (i : Input) : State :=
  match s with
  | InAskAll reads p =>
      match group od p i with
      | inl p' => InAskAll reads p'
      | inr result =>
          match askAll_end (clock reads) result with
          | None => Returned None
          | Some meta => follow (S reads) (loop_head meta)
          end
      end
  | InEditLoop reads e => follow reads (editLoop e i)
  | Returned _ | Threw _ | OffTheMap => s
  end.

Definition run (s : State) (ins : list Input) : State := fold_left step ins s.

Definition collectProjectMetadata (ins : list Input) : State :=
  run (start 0) ins.

End Wizard.

(** The configuration that a state shows or hands over: the one rendered by
    [p.note(formatSummary(meta), "Review configuration")] at the head of the
    loop of [editLoop], and the one [collectProjectMetadata] returns. *)
Definition exposed (s : State) : option ProjectMetadata :=
  match s with
  | InEditLoop _ (Review meta) => Some meta
  | Returned (Some meta) => Some meta
  | _ => None
  end.

(** The object [meta] of a state: in the loop, also while a field is picked
    or edited; returned; or the one on which [formatSummary] threw. *)
Definition held (s : State) : option ProjectMetadata :=
  match s with
  | InEditLoop _ e => Some (meta_of e)
  | Returned r => r
  | Threw meta => Some meta
  | _ => None
  end.

(* ================================================================== *)
(** * The specification's wording, to compare the code with *)

Definition is_letter (c : ascii) : bool := between 65 90 c || between 97 122 c.
Definition is_digit (c : ascii) : bool := between 48 57 c.
Definition is_hyphen (c : ascii) : bool := Ascii.eqb c "-".
Definition is_label_char (c : ascii) : bool :=
  is_letter c || is_digit c || is_hyphen c.

(** "each alphanumeric possibly hyphenated but not hyphen-leading" *)
Definition spec_label (l : str) : Prop :=
  l <> [] /\ forallb is_label_char l = true /\ hd_error l <> Some "-"%char.

(** "top label letters length >= 2" *)
Definition spec_top_label (l : str) : Prop :=
  2 <= length l /\ forallb is_letter l = true.

Definition dotted (labels : list str) : str :=
  concat (map (fun l => l ++ ["."%char]) labels).

(** "dot-separated labels" ending in the top label *)
Definition spec_fqdn (s : str) : Prop :=
  exists labels top,
    labels <> [] /\ Forall spec_label labels /\ spec_top_label top /\
    s = dotted labels ++ top.

(** "the literal pattern localhost optionally followed by : and 1-5 digits",
    case-insensitively *)
Definition spec_localhost (s : str) : Prop :=
  toLowerCase s = lit "localhost" \/
  exists ds, 1 <= length ds <= 5 /\ forallb is_digit ds = true /\
             toLowerCase s = lit "localhost:" ++ ds.

Definition spec_domain (s : str) : Prop := spec_fqdn s \/ spec_localhost s.

(** [Some rest] when [s] is [p ++ rest]. *)
Fixpoint strip_prefix (p s : str) : option str :=
  match p, s with
  | [], _ => Some s
  | c :: p', x :: s' => if Ascii.eqb c x then strip_prefix p' s' else None
  | _ :: _, [] => None
  end.

(** "stripping a leading http:// / https://" *)
Definition spec_strip_scheme (t : str) : str :=
  match strip_prefix (lit "http://") t with
  | Some rest => rest
  | None => nullish (strip_prefix (lit "https://") t) t
  end.

Fixpoint drop_slashes (s : str) : str :=
  match s with
  | c :: t => if Ascii.eqb c "/" then drop_slashes t else s
  | [] => []
  end.

(** "and trailing slashes" *)
Definition spec_strip_trailing_slashes (t : str) : str :=
  rev (drop_slashes (rev t)).

(** The normalized domain in the specification's words: trimmed, lower-cased,
    scheme and trailing slashes stripped, null if blank. *)
Definition spec_normalizeDomain (v : str) : option str :=
  or_null (spec_strip_trailing_slashes (spec_strip_scheme (toLowerCase (trim v)))).

(** What [replace] does with [slashes_re], front to back: the string up to
    its final run of slashes. *)
Definition slash : ascii -> bool := Ascii.eqb "/".

Fixpoint before_final_slashes (t : str) : str :=
  match t with
  | [] => []
  | c :: t' => if forallb slash t then [] else c :: before_final_slashes t'
  end.


(** The hosting rule I2. *)
Definition hosting_consistent (meta : ProjectMetadata) : Prop :=
  deploymentType meta = Value local -> frontendHosting meta <> Value same_vps.

(** The name rule P1. *)
Definition name_ok (meta : ProjectMetadata) : Prop :=
  trim (projectName meta) = projectName meta /\
  1 <= length (projectName meta) <= 64.

(** The domain rule P3. *)
Definition domain_ok (meta : ProjectMetadata) : Prop :=
  match domain meta with
  | None => True
  | Some t => spec_domain t
  end.

(** [meta.integrations] is an array. *)
Definition is_array (meta : ProjectMetadata) : Prop :=
  exists ig, integrations meta = Value ig.

(** What the domain key of a pass holds: a string its prompt let through,
    or the string 'canceled' of a group that goes on. *)
Definition answered_domain (od : OnDismiss) (dm : str) : Prop :=
  validate_domain dm = None \/ od = GoOn /\ dm = canceled.

(** The strings under the keys of a pass: the name passes its validator,
    also when it is the string 'canceled'. *)
Definition pass_ok (od : OnDismiss) (p : Pass) : Prop :=
  match p with
  | AtProjectName => True
  | AtNetwork n | AtDeploymentType n _ | AtFrontendHosting n _ _
  | AtDomain n _ _ _ => validate_projectName n = None
  | AtIntegrations n _ _ _ dm =>
      validate_projectName n = None /\ answered_domain od dm
  end.

(** [Pp] of the open pass, [Pm] of the object [meta].  In the loop and when
    it is returned, [meta.integrations] is an array; it is the string
    'canceled' when [formatSummary] threw. *)
Definition holds (Pp : Pass -> Prop) (Pm : ProjectMetadata -> Prop)
    (s : State) : Prop :=
  match s with
  | InAskAll _ p => Pp p
  | InEditLoop _ e => is_array (meta_of e) /\ Pm (meta_of e)
  | Returned (Some meta) => is_array meta /\ Pm meta
  | Returned None => True
  | Threw meta => integrations meta = Canceled /\ Pm meta
  | OffTheMap => False
  end.

(** The object [meta] carries the reading of the clock made at the end of
    the last pass. *)
Definition stamped (clock : nat -> str) (s : State) : Prop :=
  match s with
  | InEditLoop reads e =>
      0 < reads /\ createdAtIso (meta_of e) = clock (pred reads)
  | Returned (Some meta) | Threw meta => exists n, createdAtIso meta = clock n
  | _ => True
  end.

(** The object that a step of [editLoop] leaves. *)
Definition object_of (l : Looped) : option ProjectMetadata :=
  match l with
  | Awaits e => Some (meta_of e)
  | Ends _ meta | Throws meta => Some meta
  | Unreached => None
  end.

(** A sample clock. *)
Definition sample_clock (n : nat) : str :=
  lit "2025-01-01T00:00:0" ++ lit (String (ascii_of_nat (48 + n mod 10)) ".000Z").

(** The inputs of the scenarios of the specification. *)
Definition scenario_A : list Input :=
  [Line (lit "My Gw"); Choose 0; Choose 0; Choose 0;
   Line (lit "HTTPS://API.Example.com/"); Check []; Choose 0].

Definition scenario_B : list Input :=
  [Line (lit "gw"); Choose 0; Choose 0; Choose 0; Line []; Check [];
   Choose 1; Choose 2; Choose 1].

Definition scenario_E_second_pass : list Input :=
  [Line (lit "new"); Choose 0; Choose 0; Choose 0; Line []; Check []; Choose 0].

(** The domain rule but for the string 'canceled' of a group that goes
    on. *)
Definition domain_ok_but (od : OnDismiss) (meta : ProjectMetadata) : Prop :=
  match domain meta with
  | None => True
  | Some t => spec_domain t \/ od = GoOn /\ t = canceled
  end.


(* ================================================================== *)
(** * The edit loop: accepting what a re-prompt offers *)

(** The input that takes the re-prompt of a field as it opens: Enter on the
    prefilled text, Enter on the option the cursor starts on, Enter without
    toggling an option. *)
Definition accept_initial (field : Field) (meta : ProjectMetadata) : Input :=
  match field with
  | f_projectName =>
      Line (t_initialValue (prompts_projectName (Some (projectName meta))))
  | f_domain => Line (t_initialValue (prompts_domain (Some (domain meta))))
  | f_integrations => Check []
  | f_network | f_deploymentType | f_frontendHosting => Choose 0
  end.

(** A stored domain is one the validator lets through and
    [normalizeDomain] leaves as it is, or the string 'canceled' of a group
    that goes on. *)
Definition domain_settled (od : OnDismiss) (meta : ProjectMetadata) : Prop :=
  match domain meta with
  | None => True
  | Some d =>
      normalizeDomain (Some d) = Some d /\ domainLooksValid d = true \/
      od = GoOn /\ d = canceled
  end.

(** The field holds the string 'canceled'.  As a project name the string is
    a name like any other. *)
Definition holds_canceled (field : Field) (meta : ProjectMetadata) : Prop :=
  match field with
  | f_projectName => False
  | f_network => network meta = Canceled
  | f_deploymentType => deploymentType meta = Canceled
  | f_frontendHosting => frontendHosting meta = Canceled
  | f_domain => domain meta = Some canceled
  | f_integrations => integrations meta = Canceled
  end.

(** The integrations of an object are free of repetition when they are an
    array. *)
Definition distinct (meta : ProjectMetadata) : Prop :=
  forall ig, integrations meta = Value ig -> NoDup ig.

(** The characters of a lower-cased string that [domainLooksValid]
    accepts. *)
Definition host_char (c : ascii) : bool :=
  is_label_char c || Ascii.eqb c "." || Ascii.eqb c ":".

(** The answers of a pass to the deployment type and to the frontend
    hosting fit the hosting rule. *)
Definition slots_consistent (d : slot DeploymentType) (f : slot FrontendHosting)
  : Prop :=
  d = Value local -> f <> Value same_vps.

Definition pass_consistent (p : Pass) : Prop :=
  match p with
  | AtDomain _ _ d f | AtIntegrations _ _ d f _ => slots_consistent d f
  | _ => True
  end.

(* ================================================================== *)
(** * preflight.ts: versions

    The Number values of the language are not modelled: [num] stands for
    them, [Number] for the conversion of a string, [zero] for the literal
    [0], [lt] and [gt] for [<] and [>] on them. *)

(** [String.prototype.split] with a separator of one code unit. *)
Fixpoint split (sep : ascii) (s : str) : list str :=
  match s with
  | [] => [[]]
  | c :: t =>
      if Ascii.eqb c sep then [] :: split sep t
      else
        match split sep t with
        | seg :: segs => (c :: seg) :: segs
        | [] => [[c]]
        end
  end.

Definition MIN_NODE : str := lit "18.0.0".

Section Semver.

Variable num : Type.
Variable Number : str -> num.
Variable zero : num.
Variable lt gt : num -> num -> bool.

(** The loop of [compareSemver] from index [i] on, with [turns] turns to
    go; [pa[i] ?? 0] is [zero] past the end of [pa]. *)
Fixpoint compare_loop (pa pb : list num) (turns i : nat) : Z :=
  match turns with
  | 0 => 0%Z
  | S turns' =>
      let x := nullish (nth_error pa i) zero in
      let y := nullish (nth_error pb i) zero in
      if gt x y then 1%Z
      else if lt x y then (-1)%Z
      else compare_loop pa pb turns' (S i)
  end.

Definition compareSemver (a b : str) : Z :=
  let pa := map Number (split "." a) in
  let pb := map Number (split "." b) in
  compare_loop pa pb (Nat.max (length pa) (length pb)) 0.

End Semver.

(** The decimal value of a string of digits. *)
Definition digit_value (c : ascii) : N := N.of_nat (code c - 48).

Fixpoint value_from (acc : N) (s : str) : N :=
  match s with
  | [] => acc
  | c :: t => value_from (10 * acc + digit_value c) t
  end.

Definition value (s : str) : N := value_from 0 s.

(** A segment of a version that is a number in decimal digits, small enough
    to be a Number value exactly; the empty segment is the number 0. *)
Definition numeric (s : str) : bool :=
  forallb is_digit s && (value s <? 2 ^ 53)%N.

(** The natural numbers that are Number values exactly. *)
Definition small (x : N) : Prop := (x < 2 ^ 53)%N.

(** A version all of whose segments are such numbers. *)
Definition numeric_version (v : str) : bool := forallb numeric (split "." v).

Definition values (v : str) : list N := map value (split "." v).

(** The order of versions read as lists of numbers, a missing segment
    counting as 0. *)
Fixpoint version_order (xs ys : list N) : comparison :=
  match xs with
  | [] => if forallb (N.eqb 0) ys then Eq else Lt
  | x :: xs' =>
      match ys with
      | [] => if forallb (N.eqb 0) xs then Eq else Gt
      | y :: ys' =>
          match (x ?= y)%N with
          | Eq => version_order xs' ys'
          | c => c
          end
      end
  end.

Definition sign (c : comparison) : Z :=
  match c with Eq => 0%Z | Lt => (-1)%Z | Gt => 1%Z end.

(** A model of the Number values that suffices for the versions above:
    the natural numbers and NaN. *)
Definition sample_Number (s : str) : option N :=
  match s with
  | [] => Some 0%N
  | _ :: _ => if forallb is_digit s then Some (value s) else None
  end.

Definition sample_lt (x y : option N) : bool :=
  match x, y with
  | Some a, Some b => (a <? b)%N
  | _, _ => false
  end.

Definition sample_gt (x y : option N) : bool := sample_lt y x.

(* ================================================================== *)
(** * preflight.ts: the checks *)

(** [/\d+(?:\.\d+){0,3}/] *)
Definition version_re : regex :=
  (Plus Digit ;; Rep (Chr "."%char ;; Plus Digit) 0 (Some 3))%re.

(** [s.match(r)?.[0]] for an expression without the [g] flag: the text of
    the leftmost match, [None] for undefined. *)
Definition match0 (ic : bool) (r : regex) (s : str) : option str :=
  match search ic r 0 s with
  | Some (i, e) => Some (firstn (fst e - i) (skipn i s))
  | None => None
  end.

(** The body of the [try] of [getCmdVersion] once the command has run:
    [stdout] is what [execFileSync(...).toString()] is. *)
Definition version_of (stdout : str) : str :=
  let out := trim stdout in
  nullish (match0 false version_re out) out.

(** [reason] is one of five texts; [DaemonUnreachable] stands for the one
    of [checkDocker] after a failed [docker info], which has a character
    above U+00FF. *)
Inductive Reason :=
| Detected (current min : str)   (* Detected ${current}, requires >= ${MIN_NODE} *)
| NotFound                       (* Not found *)
| CliNotFound                    (* CLI not found *)
| DaemonUnreachable
| NotInPath.                     (* Not found in PATH *)

(** [CheckResult], without the texts [hint] and [helpUrl] that only the
    outro prints. *)
Inductive CheckResult :=
| Ok (name : str) (version : str) (required : bool)
| Fail (name : str) (reason : Reason) (required : bool).

Definition ok (r : CheckResult) : bool :=
  match r with Ok _ _ _ => true | Fail _ _ _ => false end.

Definition required (r : CheckResult) : bool :=
  match r with Ok _ _ b | Fail _ _ b => b end.

Definition name (r : CheckResult) : str :=
  match r with Ok n _ _ | Fail n _ _ => n end.

(** How [runPreflightOrExit] ends. *)
Inductive Ending :=
| Returns
| Exits (code : Z).       (* process.exit(code) *)

Section Preflight.

Variable num : Type.
Variable Number : str -> num.
Variable zero : num.
Variable lt gt : num -> num -> bool.

(** [process.versions.node] *)
Variable current : str.

(** The child processes are numbered in the order in which they are
    started.  [execFileSync n cmd args] is what the [n]-th yields when it
    runs [cmd] with [args]: its standard output, or [None] when the call
    throws.  [spawnSync n cmd args] is the [status] of the result, [None]
    for null. *)
Variable execFileSync : nat -> str -> list str -> option str.
Variable spawnSync : nat -> str -> list str -> option Z.

(** The loop of [getCmdVersion] over [tryArgs]; [n] child processes were
    started before.  The result comes with the number started by then. *)
Fixpoint try_flags (cmd : str) (tryArgs : list (list str)) (n : nat)
  : option str * nat :=
  match tryArgs with
  | [] => (None, n)
  | a :: rest =>
      match execFileSync n cmd a with
      | Some stdout => (Some (version_of stdout), S n)
      | None => try_flags cmd rest (S n)
      end
  end.

Definition getCmdVersion (cmd : str) (args : option (list str)) (n : nat)
  : option str * nat :=
  let args := nullish args [lit "--version"] in
  try_flags cmd [args; [lit "-v"]; [lit "version"]] n.

Definition checkNode (required : bool) : CheckResult :=
  if (compareSemver num Number zero lt gt current MIN_NODE <? 0)%Z
  then Fail (lit "Node.js") (Detected current MIN_NODE) required
  else Ok (lit "Node.js") current required.

(** [v ? ... : ...] for [v : string | null]: null and the empty string are
    falsy. *)
Definition checkGit (required : bool) (n : nat) : CheckResult * nat :=
  let (v, n) := getCmdVersion (lit "git") None n in
  (match v with
   | Some (c :: t) => Ok (lit "Git") (c :: t) required
   | Some [] | None => Fail (lit "Git") NotFound required
   end, n).

Definition checkDocker (required : bool) (n : nat) : CheckResult * nat :=
  let (v, n) := getCmdVersion (lit "docker") (Some [lit "--version"]) n in
  match v with
  | Some (c :: t) =>
      match spawnSync n (lit "docker") [lit "info"] with
      | Some 0%Z => (Ok (lit "Docker") (c :: t) required, S n)
      | _ => (Fail (lit "Docker") DaemonUnreachable required, S n)
      end
  | Some [] | None => (Fail (lit "Docker") CliNotFound required, n)
  end.

Definition checkPocketd (required : bool) (n : nat) : CheckResult * nat :=
  let (v, n) :=
    match getCmdVersion (lit "pocketd") (Some [lit "--version"]) n with
    | (Some v, n) => (Some v, n)
    | (None, n) => getCmdVersion (lit "pocketd") (Some [lit "version"]) n
    end in
  (match v with
   | Some (c :: t) => Ok (lit "pocketd") (c :: t) required
   | Some [] | None => Fail (lit "pocketd") NotInPath required
   end, n).

(** The array [results] of [runPreflightOrExit]. *)
Definition preflight_results : list CheckResult :=
  let node := checkNode true in
  let (git, n) := checkGit true 0 in
  let (docker, n) := checkDocker false n in
  let (pd, _) := checkPocketd true n in
  [node; git; docker; pd].

(** [cont] is what the awaited [p.confirm] resolves to when it is asked. *)
Definition runPreflightOrExit (cont : Awaited bool) : Ending :=
  let failures := filter (fun r => negb (ok r)) preflight_results in
  if length failures =? 0 then Returns
  else if existsb required failures then Exits 1
  else
    match cont with
    | CancelSymbol | Got false => Exits 1
    | Got true => Returns
    end.

End Preflight.

(* ================================================================== *)
(** * What [getCmdVersion] takes from the output, in plain terms *)

(** The longest prefix of [t] whose characters satisfy [p], and the rest. *)
Fixpoint span (p : ascii -> bool) (t : str) : str * str :=
  match t with
  | c :: t' =>
      if p c then let (w, r) := span p t' in (c :: w, r) else ([], t)
  | [] => ([], [])
  end.

(** At most [n] groups of a dot and digits at the head of [t], and the
    rest. *)
Fixpoint dotted_groups (n : nat) (t : str) : str * str :=
  match n with
  | 0 => ([], t)
  | S n' =>
      match t with
      | c :: t1 =>
          if Ascii.eqb c "." then
            match span is_digit t1 with
            | ([], _) => ([], t)
            | (d, r) => let (g, r') := dotted_groups n' r in (c :: d ++ g, r')
            end
          else ([], t)
      | [] => ([], t)
      end
  end.

(** The first number of [t] with the groups of a dot and digits that follow
    it, three at most. *)
Fixpoint first_version (t : str) : option str :=
  match t with
  | [] => None
  | c :: t' =>
      if is_digit c then
        let (d, r) := span is_digit t in
        let (g, _) := dotted_groups 3 r in
        Some (d ++ g)
      else first_version t'
  end.

(** A string of digits that is not empty. *)
Definition digits (s : str) : Prop := s <> [] /\ forallb is_digit s = true.

(* ================================================================== *)
(** * wallet-setup.ts: the addresses *)

Definition lower_alnum : regex := Cls [("0", "9"); ("a", "z")]%char.

(** [/^pokt1[0-9a-z]{20,90}$/] *)
Definition pokt_re : regex :=
  (Bol ;; Word (lit "pokt1") ;; Rep lower_alnum 20 (Some 90) ;; Eol)%re.

Definition isPoktAddress (val : str) : bool :=
  let v := trim val in
  test false pokt_re v.

Definition is_lower_alnum (c : ascii) : bool :=
  is_digit c || between 97 122 c.

(** [a === b] on strings. *)
Fixpoint str_eqb (a b : str) : bool :=
  match a, b with
  | [], [] => true
  | x :: a', y :: b' => Ascii.eqb x y && str_eqb a' b'
  | _, _ => false
  end.

Definition msg_paste : str := lit "Please paste the address from pocketd.".

(** In the source this text has the character U+2026 after pokt1, which is
    outside the code units of [str]; it is left out here. *)
Definition msg_not_pokt : str := lit "That doesn't look like a valid pokt1 address.".

Definition msg_same : str :=
  lit "Application and Gateway addresses must be different.".

(** [validate] of the prompt of the gateway address. *)
Definition validate_gatewayAddress (v : str) : option str :=
  match trim v with
  | [] => Some msg_paste
  | _ :: _ => if isPoktAddress v then None else Some msg_not_pokt
  end.

(** [validate] of the prompt of the application address, after
    [gatewayAddress] was answered. *)
Definition validate_applicationAddress (gatewayAddress v : str) : option str :=
  match trim v with
  | [] => Some msg_paste
  | _ :: _ =>
      if isPoktAddress v then
        if str_eqb (trim v) (trim gatewayAddress) then Some msg_same
        else None
      else Some msg_not_pokt
  end.

(* ================================================================== *)
(** * wallet-setup.ts: [runWalletSetup] *)

(** [p.confirm]: a cursor key turns the value over, Enter answers with it;
    [Choose k] is [k] cursor keys, then Enter. *)
Definition confirmPrompt (initialValue : bool) (i : Input) : Reply bool :=
  match i with
  | Esc => Dismissed
  | Choose k => Answer (if Nat.even k then initialValue else negb initialValue)
  | _ => Ignored
  end.

Inductive SnippetKind := heredoc | printf.

#[export] Instance SnippetKind_eqb : Eqb SnippetKind :=
  fun a b => match a, b with heredoc, heredoc | printf, printf => true | _, _ => false end.

(** [/fish/i.test(process.env.SHELL || "")]; [None] is undefined. *)
Definition looksLikeFishShell (SHELL : option str) : bool :=
  let sh := match SHELL with Some (c :: t) => c :: t | _ => [] end in
  test true (Word (lit "fish")) sh.

Definition msg_gateway_name : str :=
  lit "Please enter an account name (e.g., my-gateway)".
Definition msg_application_name : str :=
  lit "Please enter an account name (e.g., my-app)".

Definition validate_accountName (message v : str) : option str :=
  match trim v with
  | [] => Some message
  | _ :: _ => None
  end.

Definition prompt_gatewayName : Text :=
  mkText (lit "my-gateway") (validate_accountName msg_gateway_name).

Definition prompt_gatewayAddress : Text := mkText [] validate_gatewayAddress.

Definition prompt_applicationName : Text :=
  mkText (lit "my-app") (validate_accountName msg_application_name).

Definition prompt_applicationAddress (gatewayAddress : str) : Text :=
  mkText [] (validate_applicationAddress gatewayAddress).

Definition prompt_snippet (isFish : bool) : Select SnippetKind :=
  mkSelect [heredoc; printf] (if isFish then printf else heredoc).

Record Account := mkAccount {
  acc_name : str;
  acc_address : str
}.

(** [WalletSetupResult] of types.ts. *)
Record WalletSetupResult := mkWalletSetupResult {
  ws_network : Network;
  ws_gateway : Account;
  ws_application : Account;
  exportPath : str;
  funded : bool;
  fundedAtIso : str
}.

(** The four answers of the text prompts, as they were typed. *)
Record Wallets := mkWallets {
  gatewayName : str;
  gatewayAddress : str;
  applicationName : str;
  applicationAddress : str
}.

(** The questions after the text prompts, in the order of the source. *)
Inductive Question :=
| q_copyConfirm       (* Copy both addresses to clipboard for safekeeping? *)
| q_funded            (* Have you funded BOTH addresses via the faucet? (testnet) *)
| q_copyBalCmds       (* Copy both balance commands to clipboard? *)
| q_sawNonZero        (* Did BOTH balances show > 0? *)
| q_choice            (* how to create the staking config files *)
| q_copyCfg           (* Copy BOTH config-file commands to clipboard? *)
| q_madeFiles         (* Did you create BOTH config files in /tmp? *)
| q_copyStakeGw       (* Copy Gateway staking command to clipboard? *)
| q_gwStaked          (* Did the Gateway stake transaction succeed? *)
| q_copyStakeApp      (* Copy Application staking command to clipboard? *)
| q_appStaked         (* Did the Application stake transaction succeed? *)
| q_copyDelegate      (* Copy delegation command to clipboard? *)
| q_proceed.          (* Did the delegation transaction succeed? *)

(** How [runWalletSetup] ends: with null, with the payload, or with the
    exception of [writeSecureJson]. *)
Inductive WalletEnd :=
| WNull
| WPayload (payload : WalletSetupResult)
| WThrown.

(** The awaits of [runWalletSetup]. *)
Inductive WalletState :=
| AtGatewayName
| AtGatewayAddress (gatewayName : str)
| AtApplicationName (gatewayName gatewayAddress : str)
| AtApplicationAddress (gatewayName gatewayAddress applicationName : str)
| Asking (q : Question) (w : Wallets)
| WEnded (r : WalletEnd).

(** [if (p.isCancel(x) || !x) { ...; return null; }] *)
Definition gate (here : WalletState) (r : Reply bool) (next : WalletState)
  : WalletState :=
  match r with
  | Answer true => next
  | Answer false | Dismissed => WEnded WNull
  | Rejected _ | Ignored => here
  end.

(** [if (!p.isCancel(x) && x) { ... copyToClipboard ... }]: what is copied
    and noted leaves no trace in the result. *)
Definition offer (here : WalletState) (r : Reply bool) (next : WalletState)
  : WalletState :=
  match r with
  | Answer _ | Dismissed => next
  | Rejected _ | Ignored => here
  end.

(** [if (p.isCancel(x)) { ...; return null; }] *)
Definition answered {A} (here : WalletState) (r : Reply A)
    (next : A -> WalletState) : WalletState :=
  match r with
  | Answer a => next a
  | Dismissed => WEnded WNull
  | Rejected _ | Ignored => here
  end.

Section WalletSetup.

Variable network : Network.

(** [process.env.SHELL] *)
Variable SHELL : option str.

(** [new Date().toISOString()] where the payload is built. *)
Variable now : str.

(** Whether [writeSecureJson] resolves; it rejects when the file cannot be
    written. *)
Variable written : bool.

Definition payload_of (w : Wallets) : WalletSetupResult :=
  mkWalletSetupResult network
    (mkAccount (gatewayName w) (trim (gatewayAddress w)))
    (mkAccount (applicationName w) (trim (applicationAddress w)))
    (lit ".tmp/keys.json") true now.

(** After the last question: the payload is built and exported. *)
Definition finish (w : Wallets) : WalletState :=
  if written then WEnded (WPayload (payload_of w)) else WEnded WThrown.

Definition walletStep (s : WalletState) (i : Input) : WalletState :=
  match s with
  | AtGatewayName =>
      answered s (text prompt_gatewayName i) (fun v => AtGatewayAddress v)
  | AtGatewayAddress gn =>
      answered s (text prompt_gatewayAddress i)
        (fun v => AtApplicationName gn v)
  | AtApplicationName gn ga =>
      answered s (text prompt_applicationName i)
        (fun v => AtApplicationAddress gn ga v)
  | AtApplicationAddress gn ga an =>
      answered s (text (prompt_applicationAddress ga) i)
        (fun v => Asking q_copyConfirm (mkWallets gn ga an v))
  | Asking q w =>
      match q with
      | q_copyConfirm => offer s (confirmPrompt false i) (Asking q_funded w)
      | q_funded => gate s (confirmPrompt true i) (Asking q_copyBalCmds w)
      | q_copyBalCmds => offer s (confirmPrompt false i) (Asking q_sawNonZero w)
      | q_sawNonZero => gate s (confirmPrompt true i) (Asking q_choice w)
      | q_choice =>
          answered s (select (prompt_snippet (looksLikeFishShell SHELL)) i)
            (fun _ => Asking q_copyCfg w)
      | q_copyCfg => offer s (confirmPrompt true i) (Asking q_madeFiles w)
      | q_madeFiles => gate s (confirmPrompt true i) (Asking q_copyStakeGw w)
      | q_copyStakeGw => offer s (confirmPrompt true i) (Asking q_gwStaked w)
      | q_gwStaked => gate s (confirmPrompt true i) (Asking q_copyStakeApp w)
      | q_copyStakeApp => offer s (confirmPrompt true i) (Asking q_appStaked w)
      | q_appStaked => gate s (confirmPrompt true i) (Asking q_copyDelegate w)
      | q_copyDelegate => offer s (confirmPrompt true i) (Asking q_proceed w)
      | q_proceed => gate s (confirmPrompt true i) (finish w)
      end
  | WEnded _ => s
  end.

Definition runWalletSetup (ins : list Input) : WalletState :=
  fold_left walletStep ins AtGatewayName.

End WalletSetup.

(** The six questions that must be answered with yes. *)
Definition must_be_yes (q : Question) : bool :=
  match q with
  | q_funded | q_sawNonZero | q_madeFiles | q_gwStaked | q_appStaked
  | q_proceed => true
  | _ => false
  end.

(** The place of a question in the source. *)
Definition place (q : Question) : nat :=
  match q with
  | q_copyConfirm => 0 | q_funded => 1 | q_copyBalCmds => 2 | q_sawNonZero => 3
  | q_choice => 4 | q_copyCfg => 5 | q_madeFiles => 6 | q_copyStakeGw => 7
  | q_gwStaked => 8 | q_copyStakeApp => 9 | q_appStaked => 10
  | q_copyDelegate => 11 | q_proceed => 12
  end.

(** The question [q] lies behind the state [s]. *)
Definition behind (q : Question) (s : WalletState) : Prop :=
  match s with
  | Asking q' _ => place q < place q'
  | WEnded (WPayload _) | WEnded WThrown => True
  | _ => False
  end.

(** The answers typed so far are ones their prompts let through. *)
Definition wallets_ok (w : Wallets) : Prop :=
  trim (gatewayName w) <> [] /\ trim (applicationName w) <> [] /\
  isPoktAddress (gatewayAddress w) = true /\
  isPoktAddress (applicationAddress w) = true /\
  trim (applicationAddress w) <> trim (gatewayAddress w).

Definition wallet_state_ok (network : Network) (now : str) (s : WalletState)
  : Prop :=
  match s with
  | AtGatewayName => True
  | AtGatewayAddress gn => trim gn <> []
  | AtApplicationName gn ga => trim gn <> [] /\ isPoktAddress ga = true
  | AtApplicationAddress gn ga an =>
      trim gn <> [] /\ isPoktAddress ga = true /\ trim an <> []
  | Asking _ w => wallets_ok w
  | WEnded (WPayload p) => exists w, wallets_ok w /\ p = payload_of network now w
  | WEnded _ => True
  end.

(* ================================================================== *)
(** * The expressions on which the matcher is complete *)

(** An expression that takes at least one character wherever it matches. *)
Fixpoint consuming (r : regex) : bool :=
  match r with
  | Chr _ | Cls _ | Space => true
  | Seq r1 r2 => consuming r1 || consuming r2
  | Alt r1 r2 => consuming r1 && consuming r2
  | Rep r' lo hi =>
      (0 <? lo) && consuming r' &&
      match hi with Some h => lo <=? h | None => true end
  | Eps | Bol | Eol | NegLook _ => false
  end.

(** An expression whose quantifiers all have such a body. *)
Fixpoint tame (r : regex) : bool :=
  match r with
  | Seq r1 r2 | Alt r1 r2 => tame r1 && tame r2
  | Rep r' _ _ => tame r' && consuming r'
  | Eps | Chr _ | Cls _ | Space | Bol | Eol | NegLook _ => true
  end.

(* ================================================================== *)
(** * What [domainLooksValid] accepts, in plain terms *)

Definition is_alnum (c : ascii) : bool := is_letter c || is_digit c.

(** A label as the expression of [domainLooksValid] has it: one letter or
    digit, or up to 63 letters, digits and hyphens of which the first and
    the last are a letter or digit. *)
Definition strict_label (l : str) : Prop :=
  exists x,
    is_alnum x = true /\
    (l = [x] \/
     exists mid y,
       l = x :: mid ++ [y] /\ forallb is_label_char mid = true /\
       length mid <= 61 /\ is_alnum y = true).

Definition strict_fqdn (s : str) : Prop :=
  exists labels top,
    labels <> [] /\ Forall strict_label labels /\ spec_top_label top /\
    s = dotted labels ++ top.

(* ================================================================== *)
(** * Sample inputs *)

(** A run of the wallet setup in which every question is taken as it is
    offered, the offer to copy the addresses declined. *)
Definition sample_wallet_run : list Input :=
  [Line (lit "my-gateway");
   Line (lit " pokt1qwertyuiopasdfghjklzxcvbnm0123456789 ");
   Line (lit "my-app");
   Line (lit "pokt1mnbvcxzlkjhgfdsapoiuytrewq9876543210");
   Choose 0; Choose 0; Choose 0; Choose 0; Choose 0; Choose 0; Choose 0;
   Choose 0; Choose 0; Choose 0; Choose 0; Choose 0; Choose 0].

(** A reading of the clock. *)
Definition sample_clock_0 : str := sample_clock 0.

(** Child processes of which the first throws and the others print a
    version of Git. *)
Definition sample_exec (n : nat) (cmd : str) (args : list str) : option str :=
  match n with
  | 0 => None
  | S _ => Some (lit "git version 2.46.2.windows.1")
  end.

(** A machine on which no command can be run. *)
Definition sample_no_exec (n : nat) (cmd : str) (args : list str) : option str :=
  None.

Definition sample_no_spawn (n : nat) (cmd : str) (args : list str) : option Z :=
  None.


(* ================================================================== *)
(** * The prompts *)

Lemma highlighted_In {A} `{Eqb A} (s : Select A) (k : nat) :
  options s <> [] -> In (highlighted s k) (options s).
Proof.
  intros Hne. unfold highlighted. apply nth_In.
  apply Nat.mod_upper_bound. destruct (options s); [congruence | simpl; lia].
Qed.

Lemma text_answer (t : Text) (i : Input) (v : str) :
  text t i = Answer v -> i = Line v /\ validate t v = None.
Proof.
  destruct i as [ | w | | ]; simpl; try discriminate.
  destruct (validate t w) eqn:E; [discriminate | ].
  intros Heq. injection Heq as <-. auto.
Qed.

Lemma select_answer {A} `{Eqb A} (s : Select A) (i : Input) (a : A) :
  select s i = Answer a -> exists k, i = Choose k /\ a = highlighted s k.
Proof.
  destruct i as [ | | k | ]; simpl; try discriminate.
  intros Heq. injection Heq as <-. eauto.
Qed.

Lemma select_never_rejects {A} `{Eqb A} (s : Select A) (i : Input) (msg : str) :
  select s i <> Rejected msg.
Proof. destruct i; discriminate. Qed.

Lemma multiselect_answer {A} `{Eqb A} (s : MultiSelect A) (i : Input)
    (v : list A) :
  multiselect s i = Answer v ->
  exists ks, i = Check ks /\ v = toggles (ms_options s) (initialValues s) ks.
Proof.
  destruct i as [ | | | ks]; simpl; try discriminate.
  intros Heq. injection Heq as <-. eauto.
Qed.

(* ================================================================== *)
(** * The cross-field normalizer *)

Lemma normalize_consistent (meta : ProjectMetadata) :
  hosting_consistent (normalizeFrontendHosting meta).
Proof.
  destruct meta as [n nw [[ | ] | ] [[ | | ] | ] dm ig c];
    unfold hosting_consistent; simpl; congruence.
Qed.

Lemma normalize_frame (meta : ProjectMetadata) :
  let meta' := normalizeFrontendHosting meta in
  projectName meta' = projectName meta /\ network meta' = network meta /\
  deploymentType meta' = deploymentType meta /\ domain meta' = domain meta /\
  integrations meta' = integrations meta /\ createdAtIso meta' = createdAtIso meta.
Proof.
  destruct meta as [n nw [[ | ] | ] [[ | | ] | ] dm ig c]; simpl; auto 10.
Qed.

Lemma normalize_fixes (meta : ProjectMetadata) :
  hosting_consistent meta -> normalizeFrontendHosting meta = meta.
Proof.
  destruct meta as [n nw [[ | ] | ] [[ | | ] | ] dm ig c];
    unfold hosting_consistent; simpl; intros Hc; try reflexivity.
  exfalso. apply Hc; reflexivity.
Qed.

Lemma normalize_integrations (meta : ProjectMetadata) :
  integrations (normalizeFrontendHosting meta) = integrations meta.
Proof. apply (normalize_frame meta). Qed.

(* ================================================================== *)
(** * The head of the loop *)

Lemma loop_head_array (meta : ProjectMetadata) :
  is_array meta -> loop_head meta = Awaits (Review meta).
Proof.
  intros [ig Hig]. unfold loop_head, formatSummary. rewrite Hig. reflexivity.
Qed.

Lemma loop_head_canceled (meta : ProjectMetadata) :
  integrations meta = Canceled -> loop_head meta = Throws meta.
Proof.
  intros Hig. unfold loop_head, formatSummary. rewrite Hig. reflexivity.
Qed.

Lemma loop_head_cases (meta : ProjectMetadata) :
  is_array meta /\ loop_head meta = Awaits (Review meta) \/
  integrations meta = Canceled /\ loop_head meta = Throws meta.
Proof.
  destruct (integrations meta) as [ig | ] eqn:Hig.
  - left. split; [exists ig; exact Hig | ].
    apply loop_head_array. exists ig. exact Hig.
  - right. split; [reflexivity | apply loop_head_canceled, Hig].
Qed.

Lemma object_of_loop_head (meta : ProjectMetadata) :
  object_of (loop_head meta) = Some meta.
Proof.
  destruct (loop_head_cases meta) as [[_ ->] | [_ ->]]; reflexivity.
Qed.

(** The summary is made, and so the review prompt opens, exactly for the
    objects whose integrations are an array. *)
Lemma formatSummary_array (meta : ProjectMetadata) :
  formatSummary meta <> None <-> is_array meta.
Proof.
  unfold formatSummary, is_array. destruct (integrations meta) as [ig | ].
  - split; [eauto | discriminate].
  - split; [congruence | intros [ig Hig]; discriminate].
Qed.

(* ================================================================== *)
(** * The loops *)

Lemma editLoop_returns (e : EditPoint) (i : Input) (v : Verdict)
    (meta : ProjectMetadata) :
  editLoop e i = Ends v meta -> e = Review meta.
Proof.
  destruct e as [m | m | f m]; cbn [editLoop].
  - destruct (select review_prompt i) as [[ | | | ] | | | ]; intros Heq;
      inversion Heq; reflexivity.
  - destruct (select field_prompt i); unfold loop_head;
      try destruct (formatSummary m); discriminate.
  - destruct f; unfold edit_field, assign, loop_head;
      try (destruct (text _ i); try destruct (formatSummary _); discriminate);
      try (destruct (select _ i); try destruct (formatSummary _); discriminate).
    destruct (integrations m); [ | discriminate].
    destruct (multiselect _ i); try destruct (formatSummary _); discriminate.
Qed.

Lemma assign_object {A} (here : EditPoint) (meta : ProjectMetadata)
    (r : Reply A) (store : A -> ProjectMetadata) (meta' : ProjectMetadata) :
  meta_of here = meta ->
  object_of (assign here meta r store) = Some meta' ->
  meta' = meta \/ exists v, r = Answer v /\ meta' = store v.
Proof.
  intros Hh. destruct r as [v | | msg | ]; cbn [assign].
  - rewrite object_of_loop_head. intros [= <-]. right. eauto.
  - rewrite object_of_loop_head. intros [= <-]. auto.
  - cbn [object_of]. rewrite Hh. intros [= <-]. auto.
  - cbn [object_of]. rewrite Hh. intros [= <-]. auto.
Qed.

(** What the edit of a field can leave: the object as it was, or the object
    with the answer stored. *)
Lemma edit_field_object (field : Field) (meta : ProjectMetadata) (i : Input)
    (meta' : ProjectMetadata) :
  object_of (edit_field field meta i) = Some meta' ->
  meta' = meta \/
  match field with
  | f_projectName =>
      exists v, i = Line v /\ validate_projectName v = None /\
                meta' = set_projectName meta (trim v)
  | f_network =>
      exists k, i = Choose k /\
                meta' = set_network meta
                          (highlighted (prompts_network (Some (network meta))) k)
  | f_deploymentType =>
      exists k, i = Choose k /\
                meta' = normalizeFrontendHosting
                          (set_deploymentType meta
                             (highlighted
                                (prompts_deploymentType
                                   (Some (deploymentType meta))) k))
  | f_frontendHosting =>
      exists k, i = Choose k /\
                meta' = set_frontendHosting meta
                          (highlighted
                             (prompts_frontendHosting (deploymentType meta)
                                (Some match deploymentType meta,
                                            frontendHosting meta with
                                      | Value local, Value same_vps => Value vercel
                                      | _, _ => frontendHosting meta
                                      end)) k)
  | f_domain =>
      exists v, i = Line v /\ validate_domain v = None /\
                meta' = set_domain meta (normalizeDomain (Some v))
  | f_integrations =>
      exists ig ks, integrations meta = Value ig /\ i = Check ks /\
                    meta' = set_integrations meta
                              (Value (toggles [stripe; auth] ig ks))
  end.
Proof.
  destruct field; unfold edit_field.
  - intros H. apply assign_object in H; [ | reflexivity].
    destruct H as [H | (v & Hr & ->)]; [auto | right].
    apply text_answer in Hr. destruct Hr as [-> Hv]. eauto.
  - intros H. apply assign_object in H; [ | reflexivity].
    destruct H as [H | (v & Hr & ->)]; [auto | right].
    apply select_answer in Hr. destruct Hr as (k & -> & ->). eauto.
  - intros H. apply assign_object in H; [ | reflexivity].
    destruct H as [H | (v & Hr & ->)]; [auto | right].
    apply select_answer in Hr. destruct Hr as (k & -> & ->). eauto.
  - intros H. apply assign_object in H; [ | reflexivity].
    destruct H as [H | (v & Hr & ->)]; [auto | right].
    apply select_answer in Hr. destruct Hr as (k & -> & ->). eauto.
  - intros H. apply assign_object in H; [ | reflexivity].
    destruct H as [H | (v & Hr & ->)]; [auto | right].
    apply text_answer in Hr. destruct Hr as [-> Hv]. eauto.
  - destruct (integrations meta) as [ig | ] eqn:Hig; [ | discriminate].
    intros H. apply assign_object in H; [ | reflexivity].
    destruct H as [H | (v & Hr & ->)]; [auto | right].
    apply multiselect_answer in Hr. destruct Hr as (ks & -> & ->).
    exists ig, ks. auto.
Qed.

(** A step of the loop leaves the object as it was or is the edit of a
    field. *)
Lemma editLoop_object (e : EditPoint) (i : Input) (meta' : ProjectMetadata) :
  object_of (editLoop e i) = Some meta' ->
  meta' = meta_of e \/
  exists field, e = EditField field (meta_of e) /\
                object_of (edit_field field (meta_of e) i) = Some meta'.
Proof.
  destruct e as [m | m | f m]; cbn [editLoop meta_of].
  - destruct (select review_prompt i) as [[ | | | ] | | | ]; cbn [object_of meta_of];
      intros [= <-]; auto.
  - destruct (select field_prompt i); try rewrite object_of_loop_head;
      cbn [object_of meta_of]; intros [= <-]; auto.
  - intros H. right. exists f. auto.
Qed.

(** In the loop the integrations stay an array, and the loop neither throws
    nor leaves what is modelled. *)
Lemma edit_field_array (field : Field) (meta : ProjectMetadata) (i : Input) :
  is_array meta ->
  exists e', edit_field field meta i = Awaits e' /\ is_array (meta_of e').
Proof.
  intros Ha.
  assert (Hassign : forall A (r : Reply A) (store : A -> ProjectMetadata),
            (forall v, is_array (store v)) ->
            exists e', assign (EditField field meta) meta r store = Awaits e' /\
                       is_array (meta_of e')).
  { intros A r store Hs. destruct r as [v | | msg | ]; cbn [assign].
    - rewrite (loop_head_array _ (Hs v)). eexists. split; [reflexivity | apply Hs].
    - rewrite (loop_head_array _ Ha). eexists. split; [reflexivity | exact Ha].
    - eexists. split; [reflexivity | exact Ha].
    - eexists. split; [reflexivity | exact Ha]. }
  destruct field; unfold edit_field; try (apply Hassign; intros v; exact Ha).
  - apply Hassign. intros v. destruct Ha as [ig Hig]. exists ig.
    rewrite normalize_integrations. exact Hig.
  - destruct Ha as [ig Hig]. rewrite Hig. apply Hassign.
    intros v. exists v. reflexivity.
Qed.

Lemma editLoop_array (e : EditPoint) (i : Input) :
  is_array (meta_of e) ->
  (exists e', editLoop e i = Awaits e' /\ is_array (meta_of e')) \/
  (exists v, editLoop e i = Ends v (meta_of e) /\ e = Review (meta_of e)).
Proof.
  destruct e as [m | m | f m]; cbn [editLoop meta_of]; intros Ha.
  - destruct (select review_prompt i) as [[ | | | ] | | | ]; eauto.
  - left. destruct (select field_prompt i); try rewrite (loop_head_array m Ha);
      eauto.
  - left. apply edit_field_array, Ha.
Qed.

Lemma run_app (od : OnDismiss) (clock : nat -> str) (s : State) (ins ins' : list Input) :
  run od clock s (ins ++ ins') = run od clock (run od clock s ins) ins'.
Proof. apply fold_left_app. Qed.

Lemma run_returned (od : OnDismiss) (clock : nat -> str) (r : option ProjectMetadata)
    (ins : list Input) :
  run od clock (Returned r) ins = Returned r.
Proof. induction ins; simpl; auto. Qed.

Lemma run_threw (od : OnDismiss) (clock : nat -> str) (meta : ProjectMetadata)
    (ins : list Input) :
  run od clock (Threw meta) ins = Threw meta.
Proof. induction ins; simpl; auto. Qed.

Lemma collect_snoc (od : OnDismiss) (clock : nat -> str) (ins : list Input)
    (i : Input) :
  collectProjectMetadata od clock (ins ++ [i])
  = step od clock (collectProjectMetadata od clock ins) i.
Proof. unfold collectProjectMetadata. rewrite run_app. reflexivity. Qed.

Section Invariant.

Variable od : OnDismiss.
Variable clock : nat -> str.
Variable Pp : Pass -> Prop.
Variable Pm : ProjectMetadata -> Prop.

Hypothesis Pp_group : forall p i p', Pp p -> group od p i = inl p' -> Pp p'.
Hypothesis Pm_asked : forall p i r now meta,
  Pp p -> group od p i = inr (Got r) -> askAll_end now (Got r) = Some meta ->
  Pm meta.
Hypothesis Pm_edit : forall e i meta',
  is_array (meta_of e) -> Pm (meta_of e) ->
  object_of (editLoop e i) = Some meta' -> Pm meta'.
Hypothesis Pp_start : Pp AtProjectName.

Lemma holds_step (s : State) (i : Input) :
  holds Pp Pm s -> holds Pp Pm (step od clock s i).
Proof.
  destruct s as [reads p | reads e | r | meta | ]; cbn [step]; auto.
  - cbn [holds]. intros Hp. destruct (group od p i) as [p' | [r | ]] eqn:Hg.
    + cbn [holds]. eauto.
    + destruct (askAll_end (clock reads) (Got r)) as [meta | ] eqn:Ha;
        [ | exact I].
      pose proof (Pm_asked p i r (clock reads) meta Hp Hg Ha) as Hm.
      destruct (loop_head_cases meta) as [[Harr ->] | [Hc ->]];
        cbn [follow holds meta_of]; auto.
    + exact I.
  - cbn [holds]. intros [Ha Hm].
    destruct (editLoop_array e i Ha) as [(e' & He & Ha') | (v & He & Hrev)].
    + rewrite He. cbn [follow holds]. split; [exact Ha' | ].
      apply (Pm_edit e i (meta_of e') Ha Hm). rewrite He. reflexivity.
    + rewrite He. destruct v; cbn [follow holds start]; auto.
Qed.

Lemma holds_run (ins : list Input) (s : State) :
  holds Pp Pm s -> holds Pp Pm (run od clock s ins).
Proof.
  revert s. induction ins as [ | i ins IH]; simpl; intros s Hs; auto.
  apply IH, holds_step, Hs.
Qed.

Lemma holds_collect (ins : list Input) :
  holds Pp Pm (collectProjectMetadata od clock ins).
Proof. apply holds_run. exact Pp_start. Qed.

End Invariant.

Lemma exposed_held (s : State) (meta : ProjectMetadata) :
  exposed s = Some meta -> held s = Some meta.
Proof.
  destruct s as [ | reads [m | m | f m] | [m | ] | | ]; simpl; try discriminate;
    auto.
Qed.

Lemma holds_held (Pp : Pass -> Prop) (Pm : ProjectMetadata -> Prop)
    (s : State) (meta : ProjectMetadata) :
  holds Pp Pm s -> held s = Some meta -> Pm meta.
Proof.
  destruct s as [ | reads e | [m | ] | m | ]; simpl; try discriminate;
    intros [_ Hm] [= <-]; exact Hm.
Qed.

(** Every run stays within what is modelled; in the loop and in what is
    returned the integrations are an array, and the function throws only on
    an object whose integrations are the string 'canceled'. *)
Lemma collect_charted (od : OnDismiss) (clock : nat -> str) (ins : list Input) :
  holds (fun _ => True) (fun _ => True) (collectProjectMetadata od clock ins).
Proof. apply holds_collect; auto. Qed.

Lemma collect_never_unreached (od : OnDismiss) (clock : nat -> str)
    (ins : list Input) :
  collectProjectMetadata od clock ins <> OffTheMap.
Proof.
  pose proof (collect_charted od clock ins) as H. intros Heq.
  rewrite Heq in H. exact H.
Qed.

Lemma exposed_array (od : OnDismiss) (clock : nat -> str) (ins : list Input)
    (meta : ProjectMetadata) :
  exposed (collectProjectMetadata od clock ins) = Some meta -> is_array meta.
Proof.
  pose proof (collect_charted od clock ins) as H.
  destruct (collectProjectMetadata od clock ins) as [ | reads [m | m | f m] | [m | ] | | ];
    simpl; try discriminate; intros [= <-]; apply H.
Qed.

(** The hosting rule is kept by every step of the edit loop. *)
Lemma hosting_edit (e : EditPoint) (i : Input) (meta' : ProjectMetadata) :
  hosting_consistent (meta_of e) -> object_of (editLoop e i) = Some meta' ->
  hosting_consistent meta'.
Proof.
  intros Hm H. apply editLoop_object in H.
  destruct H as [-> | (field & _ & H)]; [exact Hm | ].
  set (m := meta_of e) in *. apply edit_field_object in H.
  destruct H as [-> | H]; [exact Hm | ].
  destruct field.
  - destruct H as (v & _ & _ & ->). exact Hm.
  - destruct H as (k & _ & ->). exact Hm.
  - destruct H as (k & _ & ->). apply normalize_consistent.
  - destruct H as (k & _ & ->). unfold hosting_consistent. simpl. intros Hl.
    pose proof (highlighted_In
      (prompts_frontendHosting (deploymentType m)
         (Some match deploymentType m, frontendHosting m with
               | Value local, Value same_vps => Value vercel
               | _, _ => frontendHosting m
               end)) k) as Hin.
    rewrite Hl in *. simpl in Hin.
    destruct Hin as [E | [E | []]]; try discriminate;
      rewrite <- E; discriminate.
  - destruct H as (v & _ & _ & ->). exact Hm.
  - destruct H as (ig & ks & _ & _ & ->). exact Hm.
Qed.

(** What the last prompt of a pass resolves the group to. *)
Lemma group_ends (od : OnDismiss) (p : Pass) (i : Input) (r : Results) :
  group od p i = inr (Got r) ->
  exists n nw d f dm,
    p = AtIntegrations n nw d f dm /\
    (r = mkResults n nw d f dm Canceled /\ i = Esc /\ od = GoOn \/
     exists ks, i = Check ks /\
                r = mkResults n nw d f dm (Value (toggles [stripe; auth] [] ks))).
Proof.
  destruct p; unfold group, ask;
    try (destruct (text _ i); try destruct od; discriminate);
    try (destruct (select _ i); try destruct od; discriminate).
  destruct (multiselect _ i) as [v | | | ] eqn:Hm; try discriminate.
  - intros [= <-]. apply multiselect_answer in Hm. destruct Hm as (ks & -> & ->).
    exists n, nw, d, f, dm. split; [reflexivity | right]. exists ks. auto.
  - destruct od; [ | discriminate]. intros [= <-].
    destruct i; try discriminate.
    exists n, nw, d, f, dm. split; [reflexivity | left]. auto.
Qed.

(* ================================================================== *)
(** * How a run comes to its end *)

Lemma review_verdict (meta : ProjectMetadata) (i : Input) (v : Verdict)
    (meta' : ProjectMetadata) :
  editLoop (Review meta) i = Ends v meta' ->
  meta' = meta /\
  match v with
  | confirm => exists k, i = Choose k /\ highlighted review_prompt k = c_confirm
  | start_over =>
      exists k, i = Choose k /\ highlighted review_prompt k = c_start_over
  | cancel =>
      i = Esc \/ exists k, i = Choose k /\ highlighted review_prompt k = c_cancel
  end.
Proof.
  cbn [editLoop].
  destruct (select review_prompt i) as [c | | | ] eqn:Hs; try discriminate.
  - apply select_answer in Hs. destruct Hs as (k & -> & ->).
    destruct (highlighted review_prompt k) eqn:Hk; intros [= <- <-];
      split; eauto.
  - destruct i; try discriminate. intros [= <- <-]. auto.
Qed.

Lemma pass_never_returns_some (od : OnDismiss) (clock : nat -> str) (reads : nat)
    (p : Pass) (i : Input) (meta : ProjectMetadata) :
  step od clock (InAskAll reads p) i <> Returned (Some meta).
Proof.
  cbn [step]. destruct (group od p i) as [p' | a]; [discriminate | ].
  destruct (askAll_end (clock reads) a) as [m | ]; [ | discriminate].
  destruct (loop_head_cases m) as [[_ ->] | [_ ->]]; discriminate.
Qed.

Lemma returned_some_from (od : OnDismiss) (clock : nat -> str) (s : State)
    (i : Input) (meta : ProjectMetadata) :
  step od clock s i = Returned (Some meta) ->
  s = Returned (Some meta) \/
  exists reads k,
    s = InEditLoop reads (Review meta) /\ i = Choose k /\
    highlighted review_prompt k = c_confirm.
Proof.
  destruct s as [reads p | reads e | r | m | ].
  - intros H. exfalso. exact (pass_never_returns_some od clock reads p i meta H).
  - cbn [step]. destruct (editLoop e i) as [e' | v m | m | ] eqn:He;
      try discriminate.
    pose proof (editLoop_returns e i v m He) as ->.
    apply review_verdict in He. destruct He as [_ Hv].
    destruct v; try discriminate. cbn [follow]. intros [= <-]. right.
    destruct Hv as (k & -> & Hk). eauto.
  - cbn [step]. auto.
  - discriminate.
  - discriminate.
Qed.

(** With the group of the library the results object is what a pass ends
    with. *)
Lemma group_GoOn_got (p : Pass) (i : Input) (a : Awaited Results) :
  group GoOn p i = inr a -> exists r, a = Got r.
Proof.
  destruct p; unfold group, ask;
    try (destruct (text _ i); discriminate);
    try (destruct (select _ i); discriminate).
  destruct (multiselect _ i); try discriminate; intros [= <-]; eauto.
Qed.

Lemma pass_GoOn_never_returns (clock : nat -> str) (reads : nat) (p : Pass)
    (i : Input) (r : option ProjectMetadata) :
  step GoOn clock (InAskAll reads p) i <> Returned r.
Proof.
  cbn [step]. destruct (group GoOn p i) as [p' | a] eqn:Hg; [discriminate | ].
  apply group_GoOn_got in Hg. destruct Hg as (res & ->). cbn [askAll_end].
  match goal with
  | |- follow _ (loop_head ?m) <> _ =>
      destruct (loop_head_cases m) as [[_ ->] | [_ ->]]; discriminate
  end.
Qed.

Lemma returned_none_from (clock : nat -> str) (s : State) (i : Input) :
  step GoOn clock s i = Returned None ->
  s = Returned None \/
  exists reads meta,
    s = InEditLoop reads (Review meta) /\
    (i = Esc \/ exists k, i = Choose k /\ highlighted review_prompt k = c_cancel).
Proof.
  destruct s as [reads p | reads e | r | m | ].
  - intros H. exfalso. exact (pass_GoOn_never_returns clock reads p i None H).
  - cbn [step]. destruct (editLoop e i) as [e' | v m | m | ] eqn:He;
      try discriminate.
    pose proof (editLoop_returns e i v m He) as ->.
    apply review_verdict in He. destruct He as [_ Hv].
    destruct v; try discriminate. intros _. right. eauto.
  - cbn [step]. auto.
  - discriminate.
  - discriminate.
Qed.

(** A configuration is returned from the review prompt, on confirm. *)
Lemma returned_some_trace (od : OnDismiss) (clock : nat -> str)
    (ins : list Input) (meta : ProjectMetadata) :
  collectProjectMetadata od clock ins = Returned (Some meta) ->
  exists ins1 k ins2 reads,
    ins = ins1 ++ Choose k :: ins2 /\
    collectProjectMetadata od clock ins1 = InEditLoop reads (Review meta) /\
    highlighted review_prompt k = c_confirm.
Proof.
  induction ins as [ | i ins IH] using rev_ind; [discriminate | ].
  rewrite collect_snoc. intros Hs. apply returned_some_from in Hs.
  destruct Hs as [Hs | (reads & k & Hs & -> & Hk)].
  - destruct (IH Hs) as (ins1 & k & ins2 & reads & -> & Hrun & Hk).
    exists ins1, k, (ins2 ++ [i]), reads. rewrite <- app_assoc. auto.
  - exists ins, k, [], reads. auto.
Qed.

Lemma returned_none_trace (clock : nat -> str) (ins : list Input) :
  collectProjectMetadata GoOn clock ins = Returned None ->
  exists ins1 i ins2 reads meta,
    ins = ins1 ++ i :: ins2 /\
    collectProjectMetadata GoOn clock ins1 = InEditLoop reads (Review meta) /\
    (i = Esc \/
     exists k, i = Choose k /\ highlighted review_prompt k = c_cancel).
Proof.
  induction ins as [ | i ins IH] using rev_ind; [discriminate | ].
  rewrite collect_snoc. intros Hs. apply returned_none_from in Hs.
  destruct Hs as [Hs | (reads & meta & Hs & Hi)].
  - destruct (IH Hs) as (ins1 & i' & ins2 & reads & meta & -> & Hrun & Hi).
    exists ins1, i', (ins2 ++ [i]), reads, meta. rewrite <- app_assoc. auto.
  - exists ins, i, [], reads, meta. auto.
Qed.

(** The function throws when the integrations prompt of a pass was
    dismissed, and only then. *)
Lemma threw_from (od : OnDismiss) (clock : nat -> str) (s : State) (i : Input)
    (meta : ProjectMetadata) :
  holds (fun _ => True) (fun _ => True) s ->
  step od clock s i = Threw meta ->
  s = Threw meta \/
  exists reads n nw d f dm,
    s = InAskAll reads (AtIntegrations n nw d f dm) /\ i = Esc /\ od = GoOn /\
    meta = normalizeFrontendHosting
             (mkMeta (trim n) nw d f (normalizeDomain (Some dm)) Canceled
                (clock reads)).
Proof.
  destruct s as [reads p | reads e | r | m | ]; cbn [holds].
  - intros _. cbn [step].
    destruct (group od p i) as [p' | [r | ]] eqn:Hg; try discriminate.
    apply group_ends in Hg.
    destruct Hg as (n & nw & d & f & dm & -> & [(-> & -> & ->) | (ks & _ & ->)]).
    + cbn [askAll_end r_projectName r_network r_deploymentType
           r_frontendHosting r_domain r_integrations].
      rewrite loop_head_canceled by apply normalize_integrations.
      cbn [follow]. intros [= <-]. right. exists reads, n, nw, d, f, dm. auto.
    + cbn [askAll_end r_projectName r_network r_deploymentType
           r_frontendHosting r_domain r_integrations].
      rewrite loop_head_array; [discriminate | ].
      eexists. rewrite normalize_integrations. reflexivity.
  - intros [Ha _]. cbn [step].
    destruct (editLoop_array e i Ha) as [(e' & -> & _) | (v & -> & _)];
      [discriminate | destruct v; discriminate].
  - discriminate.
  - cbn [step]. auto.
  - intros [].
Qed.

Lemma threw_trace (od : OnDismiss) (clock : nat -> str) (ins : list Input)
    (meta : ProjectMetadata) :
  collectProjectMetadata od clock ins = Threw meta ->
  exists ins1 ins2 reads n nw d f dm,
    ins = ins1 ++ Esc :: ins2 /\
    collectProjectMetadata od clock ins1
    = InAskAll reads (AtIntegrations n nw d f dm) /\
    od = GoOn /\
    meta = normalizeFrontendHosting
             (mkMeta (trim n) nw d f (normalizeDomain (Some dm)) Canceled
                (clock reads)).
Proof.
  induction ins as [ | i ins IH] using rev_ind; [discriminate | ].
  rewrite collect_snoc. intros Hs.
  apply threw_from in Hs; [ | apply collect_charted].
  destruct Hs as [Hs | (reads & n & nw & d & f & dm & Hs & -> & Hod & Hm)].
  - destruct (IH Hs) as (ins1 & ins2 & reads & n & nw & d & f & dm & -> & H).
    exists ins1, (ins2 ++ [i]), reads, n, nw, d, f, dm.
    rewrite <- app_assoc. auto.
  - exists ins, [], reads, n, nw, d, f, dm. auto.
Qed.


(* ================================================================== *)
(** * [trim] *)

Lemma trimStart_length (s : str) : length (trimStart s) <= length s.
Proof.
  induction s as [ | c t IH]; simpl; [lia | ].
  destruct (is_ws c); simpl; lia.
Qed.

Lemma trimStart_head (s : str) (c : ascii) (t : str) :
  trimStart s = c :: t -> is_ws c = false.
Proof.
  induction s as [ | x s IH]; simpl; [discriminate | ].
  destruct (is_ws x) eqn:Hx; [exact IH | ].
  intros Heq. injection Heq as <- _. exact Hx.
Qed.

Lemma trimStart_fixed (s : str) :
  (forall c t, s = c :: t -> is_ws c = false) -> trimStart s = s.
Proof.
  destruct s as [ | x s]; simpl; [reflexivity | ].
  intros Hh. rewrite (Hh x s eq_refl). reflexivity.
Qed.

Lemma trimStart_idem (s : str) : trimStart (trimStart s) = trimStart s.
Proof.
  apply trimStart_fixed. intros c t. apply trimStart_head.
Qed.

Lemma trimStart_split (s : str) :
  exists pre, s = pre ++ trimStart s /\ forallb is_ws pre = true.
Proof.
  induction s as [ | c t (pre & Heq & Hpre)]; simpl.
  - exists []. auto.
  - destruct (is_ws c) eqn:Hc.
    + exists (c :: pre). simpl. rewrite Hc, Hpre. split; [congruence | reflexivity].
    + exists []. auto.
Qed.

Lemma trimStart_ws_app (pre s : str) :
  forallb is_ws pre = true -> trimStart (pre ++ s) = trimStart s.
Proof.
  induction pre as [ | c pre IH]; simpl; [reflexivity | ].
  intros Hp. apply andb_prop in Hp. destruct Hp as [Hc Hp].
  rewrite Hc. auto.
Qed.

Lemma last_app_ne {A} (l1 l2 : list A) (d : A) :
  l2 <> [] -> last (l1 ++ l2) d = last l2 d.
Proof.
  intros Hne. induction l1 as [ | x l1 IH]; simpl; [reflexivity | ].
  destruct (l1 ++ l2) eqn:E; [ | exact IH].
  apply app_eq_nil in E. destruct E. congruence.
Qed.

Lemma trimStart_last (s : str) (d : ascii) :
  trimStart s <> [] -> last (trimStart s) d = last s d.
Proof.
  destruct (trimStart_split s) as (pre & Heq & _).
  intros Hne. rewrite Heq at 2.
  symmetry. apply last_app_ne. exact Hne.
Qed.

Lemma trimEnd_length (s : str) : length (trimEnd s) <= length s.
Proof.
  unfold trimEnd. rewrite length_rev.
  etransitivity; [apply trimStart_length | ]. rewrite length_rev. lia.
Qed.

Lemma trim_length (s : str) : length (trim s) <= length s.
Proof.
  unfold trim. etransitivity; [apply trimEnd_length | apply trimStart_length].
Qed.

Lemma last_rev_cons (c : ascii) (t : str) (d : ascii) : last (rev (c :: t)) d = c.
Proof. simpl. apply last_last. Qed.

(** A trimmed string neither starts nor ends with white space. *)
Lemma trim_head (s : str) (c : ascii) (t : str) :
  trim s = c :: t -> is_ws c = false.
Proof.
  unfold trim, trimEnd. intros Heq.
  set (a := trimStart s) in *.
  set (u := trimStart (rev a)) in *.
  assert (Hu : u <> []) by (intros E; rewrite E in Heq; discriminate).
  assert (Hlast : last u c = c).
  { rewrite <- (rev_involutive u), Heq. apply last_rev_cons. }
  subst u. rewrite trimStart_last in Hlast by exact Hu.
  destruct a as [ | x a'] eqn:Ha.
  - simpl in Hu. congruence.
  - rewrite last_rev_cons in Hlast. subst x.
    apply (trimStart_head s c a'). exact Ha.
Qed.

Lemma trimEnd_fixed (u : str) :
  trimStart u = u -> trimEnd (rev u) = rev u.
Proof. unfold trimEnd. rewrite rev_involutive. intros ->. reflexivity. Qed.

Lemma trim_idem (s : str) : trim (trim s) = trim s.
Proof.
  assert (Hs : trimStart (trim s) = trim s).
  { apply trimStart_fixed. intros c t. apply trim_head. }
  unfold trim at 1. rewrite Hs.
  unfold trim, trimEnd at 2. apply trimEnd_fixed, trimStart_idem.
Qed.

Lemma trim_nil : trim [] = [].
Proof. reflexivity. Qed.

(* ================================================================== *)
(** * The project name *)

Lemma validate_projectName_None (v : str) :
  validate_projectName v = None <-> trim v <> [] /\ length v <= 64.
Proof.
  unfold validate_projectName. destruct (trim v) as [ | c t].
  - split; [discriminate | intros [H _]; congruence].
  - destruct (64 <? length v) eqn:Hl.
    + apply Nat.ltb_lt in Hl. split; [discriminate | intros [_ H]; lia].
    + apply Nat.ltb_ge in Hl. split; [intros _; split; [discriminate | lia] | reflexivity].
Qed.

Lemma validated_name_ok (v : str) (meta : ProjectMetadata) :
  validate_projectName v = None -> projectName meta = trim v -> name_ok meta.
Proof.
  intros Hv Hn. apply validate_projectName_None in Hv. destruct Hv as [Hne Hlen].
  unfold name_ok. rewrite Hn. split; [apply trim_idem | ].
  pose proof (trim_length v). destruct (trim v); [congruence | simpl in *; lia].
Qed.

(** The string 'canceled' is a project name that the validator lets
    through. *)
Lemma canceled_is_a_name : validate_projectName canceled = None.
Proof. reflexivity. Qed.

(** Every string under a key of a pass went through the validator of its
    prompt or is the string 'canceled'. *)
Lemma pass_ok_group (od : OnDismiss) (p : Pass) (i : Input) (p' : Pass) :
  pass_ok od p -> group od p i = inl p' -> pass_ok od p'.
Proof.
  destruct p; unfold group, ask.
  - destruct (text _ i) as [v | | | ] eqn:Ht; intros _ Heq.
    + injection Heq as <-. apply text_answer in Ht. apply Ht.
    + destruct od; [injection Heq as <-; reflexivity | discriminate].
    + injection Heq as <-. exact I.
    + injection Heq as <-. exact I.
  - destruct (select _ i); intros Hp Heq; try destruct od;
      try discriminate; injection Heq as <-; exact Hp.
  - destruct (select _ i); intros Hp Heq; try destruct od;
      try discriminate; injection Heq as <-; exact Hp.
  - destruct (select _ i); intros Hp Heq; try destruct od;
      try discriminate; injection Heq as <-; exact Hp.
  - destruct (text _ i) as [v | | | ] eqn:Ht; intros Hp Heq.
    + injection Heq as <-. apply text_answer in Ht.
      split; [exact Hp | left; apply Ht].
    + destruct od; [ | discriminate]. injection Heq as <-.
      split; [exact Hp | right; auto].
    + injection Heq as <-. exact Hp.
    + injection Heq as <-. exact Hp.
  - destruct (multiselect _ i); intros Hp Heq; try destruct od;
      try discriminate; injection Heq as <-; exact Hp.
Qed.

Lemma pass_ok_results (od : OnDismiss) (p : Pass) (i : Input) (r : Results) :
  pass_ok od p -> group od p i = inr (Got r) ->
  validate_projectName (r_projectName r) = None /\
  answered_domain od (r_domain r).
Proof.
  intros Hp Hg. apply group_ends in Hg.
  destruct Hg as (n & nw & d & f & dm & -> & [(-> & _) | (ks & _ & ->)]);
    exact Hp.
Qed.

Lemma asked_fields (now : str) (r : Results) (meta : ProjectMetadata) :
  askAll_end now (Got r) = Some meta ->
  projectName meta = trim (r_projectName r) /\
  network meta = r_network r /\
  deploymentType meta = r_deploymentType r /\
  domain meta = normalizeDomain (Some (r_domain r)) /\
  integrations meta = r_integrations r /\
  createdAtIso meta = now /\
  hosting_consistent meta.
Proof.
  cbn [askAll_end]. intros [= <-].
  split; [ | split; [ | split; [ | split; [ | split; [ | split]]]]];
    try apply normalize_consistent;
    apply (normalize_frame
             (mkMeta (trim (r_projectName r)) (r_network r) (r_deploymentType r)
                (r_frontendHosting r) (normalizeDomain (Some (r_domain r)))
                (r_integrations r) now)).
Qed.

Lemma name_asked (od : OnDismiss) (p : Pass) (i : Input) (r : Results)
    (now : str) (meta : ProjectMetadata) :
  pass_ok od p -> group od p i = inr (Got r) ->
  askAll_end now (Got r) = Some meta ->
  name_ok meta.
Proof.
  intros Hp Hg Ha. destruct (pass_ok_results od p i r Hp Hg) as [Hn _].
  apply (validated_name_ok (r_projectName r)); [exact Hn | ].
  apply (asked_fields now r meta Ha).
Qed.

Lemma name_ok_same (meta meta' : ProjectMetadata) :
  projectName meta' = projectName meta -> name_ok meta -> name_ok meta'.
Proof. unfold name_ok. intros ->. auto. Qed.

Lemma name_edit (e : EditPoint) (i : Input) (meta' : ProjectMetadata) :
  name_ok (meta_of e) -> object_of (editLoop e i) = Some meta' -> name_ok meta'.
Proof.
  intros Hm H. apply editLoop_object in H.
  destruct H as [-> | (field & _ & H)]; [exact Hm | ].
  set (m := meta_of e) in *. apply edit_field_object in H.
  destruct H as [-> | H]; [exact Hm | ].
  destruct field.
  - destruct H as (v & _ & Hv & ->).
    apply (validated_name_ok v); [exact Hv | reflexivity].
  - destruct H as (k & _ & ->). exact Hm.
  - destruct H as (k & _ & ->). apply (name_ok_same m); [ | exact Hm].
    apply (normalize_frame (set_deploymentType m _)).
  - destruct H as (k & _ & ->). exact Hm.
  - destruct H as (v & _ & _ & ->). exact Hm.
  - destruct H as (ig & ks & _ & _ & ->). exact Hm.
Qed.


(* ================================================================== *)
(** * The matcher finds only matches *)

Lemma one_sound (p : ascii -> bool) (st : mstate)
    (k : mstate -> option mstate) (e : mstate) :
  one p st k = Some e -> exists st', step_char p st st' /\ k st' = Some e.
Proof.
  unfold one, step_char. destruct (snd st) as [ | x t] eqn:Hs; [discriminate | ].
  destruct (p x) eqn:Hp; [ | discriminate].
  intros Hk. exists (S (fst st), t). split; [ | exact Hk].
  exists x, t. auto.
Qed.

Lemma within_more (n lo : nat) (hi : option nat) :
  hi <> Some 0 -> within n (pred lo) (option_map pred hi) -> within (S n) lo hi.
Proof.
  unfold within. destruct hi as [[ | h] | ]; simpl; [congruence | | ]; lia.
Qed.

Lemma within_zero (hi : option nat) : within 0 0 hi.
Proof. unfold within. destruct hi; lia. Qed.

Section RepSound.

Variable ma : mstate -> (mstate -> option mstate) -> option mstate.
Variable R : mstate -> mstate -> Prop.
Hypothesis ma_sound : forall st k e,
  ma st k = Some e -> exists st', R st st' /\ k st' = Some e.

Lemma rep_sound (fuel : nat) :
  forall lo hi st k e,
    rep ma fuel lo hi st k = Some e ->
    exists n st', within n lo hi /\ iter R n st st' /\ k st' = Some e.
Proof.
  induction fuel as [ | fuel IH]; intros lo hi st k e; simpl; [discriminate | ].
  assert (Hturn : forall e',
    ma st (fun st' =>
      if (lo =? 0) && (remaining st' =? remaining st) then None
      else rep ma fuel (pred lo) (option_map pred hi) st' k) = Some e' ->
    hi <> Some 0 ->
    exists n st', within n lo hi /\ iter R n st st' /\ k st' = Some e').
  { intros e' Hm Hhi. apply ma_sound in Hm. destruct Hm as (mid & Hmid & Hk).
    destruct ((lo =? 0) && (remaining mid =? remaining st)); [discriminate | ].
    apply IH in Hk. destruct Hk as (n & st' & Hw & Hit & Hk).
    exists (S n), st'. split; [apply within_more; assumption | ].
    split; [ | exact Hk]. simpl. eauto. }
  assert (Hstop : k st = Some e -> lo = 0 \/ hi = Some 0 ->
    exists n st', within n lo hi /\ iter R n st st' /\ k st' = Some e).
  { intros Hk Hz. exists 0, st. split; [ | split; [reflexivity | exact Hk]].
    destruct Hz as [-> | ->]; [apply within_zero | unfold within; lia]. }
  destruct hi as [[ | h] | ].
  - intros Hk. apply Hstop; auto.
  - destruct lo as [ | lo].
    + destruct (ma st _) as [e' | ] eqn:Hm.
      * intros Heq. injection Heq as <-. apply Hturn; [reflexivity | discriminate].
      * intros Hk. apply Hstop; auto.
    + intros Hm. apply Hturn; [exact Hm | discriminate].
  - destruct lo as [ | lo].
    + destruct (ma st _) as [e' | ] eqn:Hm.
      * intros Heq. injection Heq as <-. apply Hturn; [reflexivity | discriminate].
      * intros Hk. apply Hstop; auto.
    + intros Hm. apply Hturn; [exact Hm | discriminate].
Qed.

End RepSound.

Lemma m_sound (ic : bool) (r : regex) :
  forall st k e,
    m ic r st k = Some e -> exists st', den ic r st st' /\ k st' = Some e.
Proof.
  induction r as [ | c | rs | | r1 IH1 r2 IH2 | r1 IH1 r2 IH2 | r IH lo hi
                 | | | r IH]; intros st k e; cbn [m den].
  - eauto.
  - apply one_sound.
  - apply one_sound.
  - apply one_sound.
  - intros Hm. apply IH1 in Hm. destruct Hm as (mid & H1 & Hm).
    apply IH2 in Hm. destruct Hm as (st' & H2 & Hk). eauto.
  - destruct (m ic r1 st k) as [e1 | ] eqn:H1.
    + intros Heq. injection Heq as <-. apply IH1 in H1.
      destruct H1 as (st' & H1 & Hk). eauto.
    + intros H2. apply IH2 in H2. destruct H2 as (st' & H2 & Hk). eauto.
  - intros Hm. apply (rep_sound (m ic r) (den ic r) IH) in Hm.
    destruct Hm as (n & st' & Hw & Hit & Hk). eauto.
  - destruct (fst st =? 0) eqn:H0; [ | discriminate].
    apply Nat.eqb_eq in H0. eauto.
  - destruct (snd st) eqn:Hs; [ | discriminate]. eauto.
  - destruct (m ic r st Some) eqn:Hn; [discriminate | ]. eauto.
Qed.

Lemma search_sound (ic : bool) (r : regex) (t : str) :
  forall i j e,
    search ic r i t = Some (j, e) ->
    exists pre t', t = pre ++ t' /\ j = i + length pre /\
                   den ic r (j, t') e.
Proof.
  induction t as [ | x t IH]; intros i j e; simpl.
  - destruct (m ic r _ Some) as [e' | ] eqn:Hm; [ | discriminate].
    intros Heq. injection Heq as <- <-.
    apply m_sound in Hm. destruct Hm as (st' & Hd & Heq). injection Heq as <-.
    exists [], []. simpl. split; [reflexivity | split; [lia | exact Hd]].
  - destruct (m ic r _ Some) as [e' | ] eqn:Hm.
    + intros Heq. injection Heq as <- <-.
      apply m_sound in Hm. destruct Hm as (st' & Hd & Heq). injection Heq as <-.
      exists [], (x :: t). simpl. split; [reflexivity | split; [lia | exact Hd]].
    + intros Hs. apply IH in Hs. destruct Hs as (pre & t' & -> & -> & Hd).
      exists (x :: pre), t'. simpl. split; [reflexivity | split; [lia | exact Hd]].
Qed.

(** A match of an expression that starts with [^] starts at the start. *)
Lemma test_bol_sound (ic : bool) (r : regex) (s : str) :
  test ic (Seq Bol r) s = true -> exists e, den ic r (0, s) e.
Proof.
  unfold test. destruct (search ic (Seq Bol r) 0 s) as [[j e] | ] eqn:Hs;
    [ | discriminate].
  intros _. apply search_sound in Hs. destruct Hs as (pre & t' & -> & -> & Hd).
  simpl in Hd. destruct Hd as (mid & [H0 ->] & Hd). simpl in H0.
  destruct pre; [ | simpl in H0; lia]. simpl in *. eauto.
Qed.

(* ================================================================== *)
(** * Runs of one character class *)

Lemma iter_step_char (p : ascii -> bool) (n : nat) :
  forall i t st',
    iter (step_char p) n (i, t) st' ->
    exists w, t = w ++ snd st' /\ length w = n /\ forallb p w = true /\
              fst st' = i + n.
Proof.
  induction n as [ | n IH]; intros i t st'; simpl.
  - intros ->. exists []. simpl. auto.
  - intros (mid & (x & t1 & Hs & Hp & ->) & Hit). simpl in Hs. subst t.
    apply IH in Hit. destruct Hit as (w & -> & Hlen & Hall & Hfst).
    exists (x :: w). simpl. rewrite Hp, Hall. simpl.
    simpl in Hfst. repeat split; auto; lia.
Qed.

Lemma den_word (ic : bool) (w : str) :
  forall i t st',
    den ic (Word w) (i, t) st' ->
    exists u, t = u ++ snd st' /\ Forall2 (fun c x => char_eq ic c x = true) w u.
Proof.
  induction w as [ | c w IH]; intros i t st'.
  - simpl. intros ->. exists []. auto.
  - destruct w as [ | c' w].
    + simpl. intros (x & t1 & Hs & Hp & ->). simpl in *. subst t.
      exists [x]. split; [reflexivity | auto].
    + change (Word (c :: c' :: w)) with (Seq (Chr c) (Word (c' :: w))).
      cbn [den]. intros (mid & (x & t1 & Hs & Hp & ->) & Hw). simpl in Hs. subst t.
      apply IH in Hw. destruct Hw as (u & -> & Hall).
      exists (x :: u). split; [reflexivity | auto].
Qed.


(* ================================================================== *)
(** * The character classes of the domain expressions, under the [i] flag *)

Ltac by_cases_on x :=
  destruct x as [[ | ] [ | ] [ | ] [ | ] [ | ] [ | ] [ | ] [ | ]];
  vm_compute; try reflexivity; try discriminate; auto.

Lemma class_alnum (x : ascii) :
  in_class true [("a", "z"); ("0", "9")]%char x = is_letter x || is_digit x.
Proof. by_cases_on x. Qed.

Lemma class_alnum_hyphen (x : ascii) :
  in_class true [("a", "z"); ("0", "9"); ("-", "-")]%char x = is_label_char x.
Proof. by_cases_on x. Qed.

Lemma class_alpha (x : ascii) :
  in_class true [("a", "z")]%char x = is_letter x.
Proof. by_cases_on x. Qed.

Lemma class_digit (x : ascii) :
  in_class true [("0", "9")]%char x = is_digit x.
Proof. by_cases_on x. Qed.

Lemma dot_only (x : ascii) : char_eq true "." x = true -> x = "."%char.
Proof. by_cases_on x. Qed.

Lemma alnum_not_hyphen (x : ascii) :
  is_letter x || is_digit x = true -> x <> "-"%char.
Proof. intros H ->. discriminate. Qed.

Lemma alnum_label_char (x : ascii) :
  is_letter x || is_digit x = true -> is_label_char x = true.
Proof. unfold is_label_char. intros ->. reflexivity. Qed.

Lemma digit_lower (x : ascii) : is_digit x = true -> lower_char x = x.
Proof. by_cases_on x. Qed.

Lemma ci_lower (c x : ascii) :
  In c (lit "localhost:") -> char_eq true c x = true -> lower_char x = c.
Proof.
  intros Hin. simpl in Hin.
  repeat (destruct Hin as [<- | Hin]; [by_cases_on x | ]). destruct Hin.
Qed.

Lemma lower_ws (x : ascii) : is_ws (lower_char x) = is_ws x.
Proof. by_cases_on x. Qed.

(* ================================================================== *)
(** * What the domain expressions accept *)

Lemma step_char_inv (p : ascii -> bool) (st st' : mstate) :
  step_char p st st' ->
  exists x, snd st = x :: snd st' /\ p x = true /\ fst st' = S (fst st).
Proof. intros (x & t & Hs & Hp & ->). exists x. auto. Qed.

Lemma iter_step_char_snd (p : ascii -> bool) (n : nat) (st st' : mstate) :
  iter (step_char p) n st st' ->
  exists w, snd st = w ++ snd st' /\ length w = n /\ forallb p w = true.
Proof.
  destruct st as [i t]. intros Hit. apply iter_step_char in Hit.
  destruct Hit as (w & Hw & Hlen & Hall & _). eauto.
Qed.

Lemma forallb_ext_eq {A} (p q : A -> bool) (l : list A) :
  (forall x, p x = q x) -> forallb p l = forallb q l.
Proof. intros H. induction l; simpl; [reflexivity | ]. rewrite H. congruence. Qed.

Lemma den_label (st st' : mstate) :
  den true label_re st st' ->
  exists l, snd st = l ++ "."%char :: snd st' /\ spec_label l.
Proof.
  unfold label_re, alnum, alnum_hyphen, Opt. cbn [den].
  intros (m1 & Hx & m2 & (n & Hn & Hit) & Hdot).
  apply step_char_inv in Hx. destruct Hx as (x & Hs & Hx & _).
  rewrite class_alnum in Hx.
  apply step_char_inv in Hdot. destruct Hdot as (c & Hs2 & Hc & _).
  apply dot_only in Hc. subst c.
  unfold within in Hn.
  destruct n as [ | [ | n]]; [ | | lia].
  - simpl in Hit. subst m2. exists [x]. rewrite Hs, Hs2. split; [reflexivity | ].
    split; [discriminate | ]. split.
    + simpl. rewrite (alnum_label_char x Hx). reflexivity.
    + simpl. intros E. injection E as E. revert E. apply alnum_not_hyphen, Hx.
  - simpl in Hit. destruct Hit as (mid & (m3 & (k & _ & Hw) & Hy) & ->).
    apply iter_step_char_snd in Hw. destruct Hw as (w & Hs3 & _ & Hall).
    apply step_char_inv in Hy. destruct Hy as (y & Hs4 & Hy & _).
    rewrite class_alnum in Hy.
    exists (x :: w ++ [y]). split.
    + rewrite Hs, Hs3, Hs4, Hs2. simpl. rewrite <- app_assoc. reflexivity.
    + split; [discriminate | ]. split.
      * simpl. rewrite (alnum_label_char x Hx). simpl.
        rewrite forallb_app. simpl. rewrite (alnum_label_char y Hy).
        rewrite <- (forallb_ext_eq _ _ w class_alnum_hyphen), Hall. reflexivity.
      * simpl. intros E. injection E as E. revert E. apply alnum_not_hyphen, Hx.
Qed.

Lemma iter_labels (n : nat) :
  forall st st',
    iter (den true label_re) n st st' ->
    exists labels, length labels = n /\ Forall spec_label labels /\
                   snd st = dotted labels ++ snd st'.
Proof.
  induction n as [ | n IH]; intros st st'; simpl.
  - intros ->. exists []. auto.
  - intros (mid & Hl & Hit). apply den_label in Hl. destruct Hl as (l & Hs & Hl).
    apply IH in Hit. destruct Hit as (labels & Hlen & Hall & Hs').
    exists (l :: labels). split; [simpl; congruence | ]. split; [auto | ].
    rewrite Hs, Hs'. unfold dotted. simpl. rewrite <- !app_assoc. reflexivity.
Qed.

Lemma fqdn_sound (s : str) : test true fqdn_re s = true -> spec_fqdn s.
Proof.
  intros Ht. apply test_bol_sound in Ht. destruct Ht as (e & Hd).
  unfold Plus, alpha in Hd. cbn [den] in Hd.
  destruct Hd as (m1 & [_ ->] & m2 & (n & Hn & Hit) & m3 & (k & Hk & Htop) & Hend & ->).
  apply iter_labels in Hit. destruct Hit as (labels & Hlen & Hall & Hs).
  apply iter_step_char_snd in Htop. destruct Htop as (top & Hs2 & Hlen2 & Htop).
  rewrite Hend, app_nil_r in Hs2. simpl in Hs.
  exists labels, top. unfold within in Hn, Hk. repeat split.
  - intros ->. simpl in Hlen. lia.
  - exact Hall.
  - lia.
  - rewrite <- (forallb_ext_eq _ _ top class_alpha). exact Htop.
  - rewrite Hs, Hs2. reflexivity.
Qed.

Lemma forall2_lower (w u : str) :
  (forall c, In c w -> In c (lit "localhost:")) ->
  Forall2 (fun c x => char_eq true c x = true) w u -> toLowerCase u = w.
Proof.
  intros Hin Hall. induction Hall as [ | c x w u Hc Hall IH]; simpl; [reflexivity | ].
  rewrite (ci_lower c x); [ | apply Hin; left; reflexivity | exact Hc].
  rewrite IH; [reflexivity | ]. intros c' Hc'. apply Hin. right. exact Hc'.
Qed.

Lemma digits_lower (ds : str) : forallb is_digit ds = true -> toLowerCase ds = ds.
Proof.
  induction ds as [ | d ds IH]; simpl; [reflexivity | ].
  intros H. apply andb_prop in H. destruct H as [Hd Hds].
  rewrite (digit_lower d Hd), (IH Hds). reflexivity.
Qed.

Lemma localhost_sound (s : str) :
  test true localhostRe s = true -> spec_localhost s.
Proof.
  intros Ht. apply test_bol_sound in Ht. destruct Ht as (e & Hd).
  cbn [den] in Hd. destruct Hd as (m1 & [Hw | Hw] & Hend & ->).
  - apply den_word in Hw. destruct Hw as (u & Hs & Hall).
    rewrite Hend, app_nil_r in Hs. subst u. left.
    apply forall2_lower; [ | exact Hall].
    intros c Hc. simpl in *. tauto.
  - destruct Hw as (m2 & Hw & (n & Hn & Hit)).
    apply den_word in Hw. destruct Hw as (u & Hs & Hall).
    unfold Digit in Hit. cbn [den] in Hit.
    apply iter_step_char_snd in Hit. destruct Hit as (ds & Hs2 & Hlen & Hds).
    rewrite Hend, app_nil_r in Hs2.
    rewrite (forallb_ext_eq _ _ ds class_digit) in Hds.
    right. exists ds. unfold within in Hn. split; [lia | ]. split; [exact Hds | ].
    rewrite Hs, Hs2. unfold toLowerCase. rewrite map_app.
    fold (toLowerCase u). fold (toLowerCase ds).
    rewrite (digits_lower ds Hds).
    rewrite (forall2_lower (lit "localhost:") u); [reflexivity | auto | exact Hall].
Qed.

Lemma domainLooksValid_sound (s : str) :
  domainLooksValid s = true -> spec_domain s.
Proof.
  unfold domainLooksValid, spec_domain. intros H. apply orb_prop in H.
  destruct H as [H | H]; [left; apply fqdn_sound | right; apply localhost_sound];
    exact H.
Qed.


(* ================================================================== *)
(** * What [replace] does with the two expressions of [normalizeDomain] *)

Lemma strip_prefix_app (a b t : str) :
  strip_prefix (a ++ b) t =
  match strip_prefix a t with
  | Some r => strip_prefix b r
  | None => None
  end.
Proof.
  revert t. induction a as [ | c a IH]; intros t; simpl; [reflexivity | ].
  destruct t as [ | x t]; [reflexivity | ].
  destruct (Ascii.eqb c x); [apply IH | reflexivity].
Qed.

Lemma strip_prefix_differs (c x : ascii) (p t : str) :
  c <> x -> strip_prefix (c :: p) (x :: t) = None.
Proof.
  intros Hne. cbn [strip_prefix].
  destruct (Ascii.eqb_spec c x); [contradiction | reflexivity].
Qed.

Lemma m_word (w : str) :
  forall i t k,
    m false (Word w) (i, t) k =
    match strip_prefix w t with
    | Some r => k (i + length w, r)
    | None => None
    end.
Proof.
  induction w as [ | c w IH]; intros i t k.
  - simpl. rewrite Nat.add_0_r. reflexivity.
  - destruct w as [ | c' w].
    + simpl. unfold one. simpl. destruct t as [ | x t]; [reflexivity | ].
      destruct (Ascii.eqb c x); [ | reflexivity].
      rewrite Nat.add_1_r. reflexivity.
    + change (Word (c :: c' :: w)) with (Seq (Chr c) (Word (c' :: w))).
      cbn [m]. unfold one at 1. cbn [snd fst char_eq].
      destruct t as [ | x t]; [reflexivity | ].
      cbn [strip_prefix]. destruct (Ascii.eqb c x); [ | reflexivity].
      rewrite IH.
      replace (i + length (c :: c' :: w)) with (S i + length (c' :: w))
        by (simpl; lia).
      reflexivity.
Qed.

Lemma search_bol_later (r : regex) (t : str) :
  forall i, 0 < i -> search false (Seq Bol r) i t = None.
Proof.
  induction t as [ | x t IH]; intros i Hi; simpl;
    destruct i as [ | i]; try lia; simpl; auto.
Qed.

Lemma replace_bol (r : regex) (t : str) :
  replace (Seq Bol r) [] t =
  match m false r (0, t) Some with
  | Some e => snd e
  | None => t
  end.
Proof.
  unfold replace. destruct t as [ | x t]; simpl.
  - destruct (m false r _ Some); reflexivity.
  - destruct (m false r _ Some); [reflexivity | ].
    rewrite search_bol_later by lia. reflexivity.
Qed.

Lemma eqb_succ_false (n : nat) : (n =? S n) = false.
Proof. apply Nat.eqb_neq. lia. Qed.

(** [\s*] before something that is not white space. *)
Lemma star_space_none (i : nat) (t : str) (k : mstate -> option mstate) :
  trimStart t = t -> m false (Star Space) (i, t) k = k (i, t).
Proof.
  intros Ht. unfold Star. cbn [m]. unfold remaining. cbn [snd Nat.add rep].
  unfold one. cbn [snd fst]. destruct t as [ | x t]; [reflexivity | ].
  rewrite (trimStart_head (x :: t) x t Ht). reflexivity.
Qed.

(** [s?] before something that does not start with [s]. *)
Lemma opt_s (i : nat) (t : str) (k : mstate -> option mstate) :
  (forall i' t', k (i', "s"%char :: t') = None) ->
  m false (Opt (Chr "s")) (i, t) k =
  match t with
  | x :: t' => if Ascii.eqb "s" x then k (S i, t') else k (i, t)
  | [] => k (i, t)
  end.
Proof.
  intros Hk. unfold Opt. cbn [m]. unfold remaining. cbn [snd Nat.add rep].
  unfold one. cbn [snd fst char_eq option_map pred Nat.eqb andb].
  destruct t as [ | x t]; [reflexivity | ].
  destruct (Ascii.eqb_spec "s"%char x) as [<- | Hx]; [ | reflexivity].
  unfold remaining. cbn [snd length]. rewrite eqb_succ_false.
  simpl. destruct (k (S i, t)); [reflexivity | ]. rewrite Hk. reflexivity.
Qed.

Lemma scheme_match (t : str) :
  trimStart t = t ->
  match m false scheme_re (0, t) Some with
  | Some e => snd e
  | None => t
  end = spec_strip_scheme t.
Proof.
  intros Ht. unfold scheme_re. cbn [m fst Nat.eqb].
  rewrite star_space_none by exact Ht.
  rewrite m_word. unfold spec_strip_scheme.
  change (lit "http://") with (lit "http" ++ lit "://").
  change (lit "https://") with (lit "http" ++ lit "s://").
  rewrite !strip_prefix_app.
  destruct (strip_prefix (lit "http") t) as [r1 | ]; [ | reflexivity].
  rewrite opt_s.
  2:{ intros i' t'. rewrite m_word. reflexivity. }
  destruct r1 as [ | x r1].
  - rewrite m_word. reflexivity.
  - destruct (Ascii.eqb_spec "s"%char x) as [<- | Hx].
    + rewrite m_word.
      change (strip_prefix (lit "://") ("s"%char :: r1)) with (@None str).
      change (strip_prefix (lit "s://") ("s"%char :: r1))
        with (strip_prefix (lit "://") r1).
      destruct (strip_prefix (lit "://") r1); reflexivity.
    + rewrite m_word.
      assert (Hs : strip_prefix (lit "s://") (x :: r1) = None).
      { apply (strip_prefix_differs "s" x (lit "://") r1 Hx). }
      rewrite Hs. destruct (strip_prefix (lit "://") (x :: r1)); reflexivity.
Qed.

Lemma replace_scheme (t : str) :
  trimStart t = t -> replace scheme_re [] t = spec_strip_scheme t.
Proof.
  intros Ht. unfold scheme_re at 1. rewrite replace_bol. apply scheme_match, Ht.
Qed.

(** [\/+] and its like before [$]. *)
Lemma rep_slash_eol (t : str) :
  forall fuel lo i,
    lo + length t < fuel ->
    rep (m false (Chr "/")) fuel lo None (i, t) (fun st => m false Eol st Some)
    = if forallb slash t && (lo <=? length t) then Some (i + length t, [])
      else None.
Proof.
  induction t as [ | x t IH]; intros fuel lo i Hf;
    (destruct fuel as [ | fuel]; [lia | ]); cbn [rep m]; unfold one;
    cbn [snd fst char_eq].
  - destruct lo; simpl; [rewrite Nat.add_0_r | ]; reflexivity.
  - fold slash. cbn [forallb length]. destruct (slash x) eqn:Hx.
    + unfold remaining. cbn [snd length]. rewrite eqb_succ_false, andb_false_r.
      rewrite IH by (destruct lo; simpl in *; lia).
      replace (S i + length t) with (i + S (length t)) by lia.
      cbn [andb]. destruct lo as [ | lo]; cbn [pred].
      * cbn [Nat.leb]. destruct (forallb slash t); simpl; reflexivity.
      * cbn [Nat.leb]. reflexivity.
    + destruct lo; reflexivity.
Qed.

Lemma m_slashes (i : nat) (t : str) :
  m false slashes_re (i, t) Some =
  if forallb slash t && (1 <=? length t) then Some (i + length t, []) else None.
Proof.
  unfold slashes_re, Plus. cbn [m]. unfold remaining. cbn [snd].
  apply rep_slash_eol. lia.
Qed.

Lemma before_final_slashes_all (t : str) :
  forallb slash t = true -> before_final_slashes t = [].
Proof. destruct t; simpl; [reflexivity | ]. unfold slash. intros ->. reflexivity. Qed.

Lemma search_slashes (t : str) :
  forall i,
    match search false slashes_re i t with
    | Some (j, e) => firstn (j - i) t ++ snd e = before_final_slashes t
    | None => t = before_final_slashes t
    end.
Proof.
  induction t as [ | x t IH]; intros i.
  - reflexivity.
  - cbn [search]. rewrite m_slashes. cbn [length].
    change (1 <=? S (length t)) with true. rewrite andb_true_r.
    destruct (forallb slash (x :: t)) eqn:Hall.
    + rewrite Nat.sub_diag. simpl firstn. simpl "++". simpl snd.
      symmetry. apply before_final_slashes_all, Hall.
    + cbn [before_final_slashes]. fold slash. rewrite Hall.
      specialize (IH (S i)).
      destruct (search false slashes_re (S i) t) as [[j e] | ] eqn:Hs.
      * apply search_sound in Hs. destruct Hs as (pre & t' & _ & Hj & _).
        replace (j - i) with (S (j - S i)) by lia.
        simpl. rewrite IH. reflexivity.
      * congruence.
Qed.

Lemma replace_slashes (t : str) :
  replace slashes_re [] t = before_final_slashes t.
Proof.
  unfold replace. pose proof (search_slashes t 0) as H.
  destruct (search false slashes_re 0 t) as [[j e] | ]; [ | congruence].
  rewrite Nat.sub_0_r in H. exact H.
Qed.

Lemma drop_slashes_all (l : str) : forallb slash l = true -> drop_slashes l = [].
Proof.
  induction l as [ | c l IH]; simpl; [reflexivity | ].
  unfold slash at 1. rewrite Ascii.eqb_sym.
  destruct (Ascii.eqb c "/"); simpl; [exact IH | discriminate].
Qed.

Lemma drop_slashes_app (a b : str) :
  drop_slashes (a ++ b) =
  if forallb slash a then drop_slashes b else drop_slashes a ++ b.
Proof.
  induction a as [ | c a IH]; simpl; [reflexivity | ].
  unfold slash at 1. rewrite (Ascii.eqb_sym "/"%char c).
  destruct (Ascii.eqb c "/"); simpl; [exact IH | reflexivity].
Qed.

Lemma forallb_rev {A} (p : A -> bool) (l : list A) :
  forallb p (rev l) = forallb p l.
Proof.
  induction l as [ | x l IH]; simpl; [reflexivity | ].
  rewrite forallb_app, IH. simpl. rewrite andb_true_r. apply andb_comm.
Qed.

(** Stripping the final run of slashes, front to back and back to front. *)
Lemma before_final_slashes_spec (t : str) :
  before_final_slashes t = spec_strip_trailing_slashes t.
Proof.
  unfold spec_strip_trailing_slashes.
  induction t as [ | c t IH]; [reflexivity | ].
  cbn [before_final_slashes]. fold slash.
  destruct (forallb slash (c :: t)) eqn:Hall.
  - rewrite drop_slashes_all; [reflexivity | ]. rewrite forallb_rev. exact Hall.
  - cbn [rev]. rewrite drop_slashes_app, forallb_rev.
    cbn [forallb] in Hall. destruct (forallb slash t) eqn:Ht.
    + rewrite andb_true_r in Hall. simpl. unfold slash in Hall.
      rewrite Ascii.eqb_sym in Hall. rewrite Hall.
      rewrite IH, drop_slashes_all by (rewrite forallb_rev; exact Ht).
      reflexivity.
    + rewrite rev_app_distr. simpl. rewrite IH. reflexivity.
Qed.

Lemma lowered_trim_head (v : str) :
  trimStart (toLowerCase (trim v)) = toLowerCase (trim v).
Proof.
  apply trimStart_fixed. intros c t Heq.
  destruct (trim v) as [ | x u] eqn:Hv; [discriminate | ].
  simpl in Heq. injection Heq as <- _.
  rewrite lower_ws. apply (trim_head v x u Hv).
Qed.

(** The code and the wording of the specification agree on every input. *)
Lemma normalizeDomain_spec (v : str) :
  normalizeDomain (Some v) = spec_normalizeDomain v.
Proof.
  unfold spec_normalizeDomain.
  destruct v as [ | c v]; [reflexivity | ].
  cbn [normalizeDomain].
  rewrite replace_scheme by apply lowered_trim_head.
  rewrite replace_slashes, before_final_slashes_spec. reflexivity.
Qed.

(* ================================================================== *)
(** * The domain *)

Lemma validate_domain_ok (v : str) :
  validate_domain v = None ->
  match normalizeDomain (Some v) with
  | None => True
  | Some t => spec_domain t
  end.
Proof.
  unfold validate_domain. destruct (normalizeDomain (Some v)) as [t | ]; [ | auto].
  destruct (domainLooksValid t) eqn:Hv; [ | discriminate].
  intros _. apply domainLooksValid_sound, Hv.
Qed.


Lemma normalizeDomain_canceled : normalizeDomain (Some canceled) = Some canceled.
Proof. vm_compute. reflexivity. Qed.

Lemma domain_asked (od : OnDismiss) (p : Pass) (i : Input) (r : Results)
    (now : str) (meta : ProjectMetadata) :
  pass_ok od p -> group od p i = inr (Got r) ->
  askAll_end now (Got r) = Some meta ->
  domain_ok_but od meta.
Proof.
  intros Hp Hg Ha. destruct (pass_ok_results od p i r Hp Hg) as [_ Hd].
  destruct (asked_fields now r meta Ha) as (_ & _ & _ & Hdm & _).
  unfold domain_ok_but. rewrite Hdm.
  destruct Hd as [Hv | [Hod Hc]].
  - apply validate_domain_ok in Hv.
    destruct (normalizeDomain (Some (r_domain r))); auto.
  - rewrite Hc, normalizeDomain_canceled. auto.
Qed.

Lemma domain_ok_but_same (od : OnDismiss) (meta meta' : ProjectMetadata) :
  domain meta' = domain meta -> domain_ok_but od meta -> domain_ok_but od meta'.
Proof. unfold domain_ok_but. intros ->. auto. Qed.

Lemma domain_edit (od : OnDismiss) (e : EditPoint) (i : Input)
    (meta' : ProjectMetadata) :
  domain_ok_but od (meta_of e) -> object_of (editLoop e i) = Some meta' ->
  domain_ok_but od meta'.
Proof.
  intros Hm H. apply editLoop_object in H.
  destruct H as [-> | (field & _ & H)]; [exact Hm | ].
  set (m := meta_of e) in *. apply edit_field_object in H.
  destruct H as [-> | H]; [exact Hm | ].
  destruct field.
  - destruct H as (v & _ & _ & ->). exact Hm.
  - destruct H as (k & _ & ->). exact Hm.
  - destruct H as (k & _ & ->). apply (domain_ok_but_same od m); [ | exact Hm].
    apply (normalize_frame (set_deploymentType m _)).
  - destruct H as (k & _ & ->). exact Hm.
  - destruct H as (v & _ & Hv & ->). unfold domain_ok_but.
    cbn [domain set_domain]. apply validate_domain_ok in Hv.
    destruct (normalizeDomain (Some v)); auto.
  - destruct H as (ig & ks & _ & _ & ->). exact Hm.
Qed.

(** The domain of every object of a run. *)
Lemma domain_collect (od : OnDismiss) (clock : nat -> str) (ins : list Input) :
  holds (pass_ok od) (domain_ok_but od) (collectProjectMetadata od clock ins).
Proof.
  apply holds_collect.
  - apply pass_ok_group.
  - apply domain_asked.
  - intros e i meta' _. apply domain_edit.
  - exact I.
Qed.


(* ================================================================== *)
(** * The fuel of [rep] is enough

    A matcher hands its continuation only positions at or after its own, so
    a turn of a quantifier that counts leaves less input, and the fuel
    [S (lo + remaining st)] that [m] gives to [rep] is never used up: any
    larger amount gives the same result. *)

Lemma one_advances (p : ascii -> bool) : advances (one p).
Proof.
  intros [i t] k1 k2 Hk. unfold one. cbn [snd fst].
  destruct t as [ | x t]; [reflexivity | ].
  destruct (p x); [ | reflexivity].
  apply Hk. unfold remaining. simpl. lia.
Qed.

Lemma rep_advances
    (ma : mstate -> (mstate -> option mstate) -> option mstate) :
  advances ma -> forall fuel lo hi, advances (fun st k => rep ma fuel lo hi st k).
Proof.
  intros Hma fuel. induction fuel as [ | fuel IH]; intros lo hi st k1 k2 Hk;
    cbn [rep]; [reflexivity | ].
  assert (Hst : k1 st = k2 st) by (apply Hk; lia).
  assert (Hagain :
    ma st (fun st' =>
      if (lo =? 0) && (remaining st' =? remaining st) then None
      else rep ma fuel (pred lo) (option_map pred hi) st' k1)
    = ma st (fun st' =>
      if (lo =? 0) && (remaining st' =? remaining st) then None
      else rep ma fuel (pred lo) (option_map pred hi) st' k2)).
  { apply Hma. intros st' Hle.
    destruct ((lo =? 0) && (remaining st' =? remaining st)); [reflexivity | ].
    apply IH. intros st'' Hle'. apply Hk. lia. }
  rewrite Hagain, Hst. reflexivity.
Qed.

Lemma m_advances (ic : bool) (r : regex) : advances (m ic r).
Proof.
  induction r as [ | c | rs | | r1 IH1 r2 IH2 | r1 IH1 r2 IH2 | r IH lo hi
                 | | | r IH]; cbn [m].
  - intros st k1 k2 Hk. apply Hk. lia.
  - apply one_advances.
  - apply one_advances.
  - apply one_advances.
  - intros st k1 k2 Hk. apply IH1. intros st' Hle.
    apply IH2. intros st'' Hle'. apply Hk. lia.
  - intros st k1 k2 Hk. rewrite (IH1 st k1 k2 Hk), (IH2 st k1 k2 Hk). reflexivity.
  - intros st k1 k2 Hk. apply (rep_advances (m ic r) IH). exact Hk.
  - intros st k1 k2 Hk. rewrite (Hk st) by lia. reflexivity.
  - intros st k1 k2 Hk. rewrite (Hk st) by lia. reflexivity.
  - intros st k1 k2 Hk. rewrite (Hk st) by lia. reflexivity.
Qed.

Lemma rep_fuel_enough
    (ma : mstate -> (mstate -> option mstate) -> option mstate) :
  advances ma ->
  forall fuel fuel' lo hi st k,
    lo + remaining st < fuel -> lo + remaining st < fuel' ->
    rep ma fuel lo hi st k = rep ma fuel' lo hi st k.
Proof.
  intros Hma fuel. induction fuel as [ | fuel IH];
    intros fuel' lo hi st k Hf Hf'; [lia | ].
  destruct fuel' as [ | fuel']; [lia | ]. cbn [rep].
  assert (Hagain :
    ma st (fun st' =>
      if (lo =? 0) && (remaining st' =? remaining st) then None
      else rep ma fuel (pred lo) (option_map pred hi) st' k)
    = ma st (fun st' =>
      if (lo =? 0) && (remaining st' =? remaining st) then None
      else rep ma fuel' (pred lo) (option_map pred hi) st' k)).
  { apply Hma. intros st' Hle.
    destruct (lo =? 0) eqn:Hlo; cbn [andb].
    - apply Nat.eqb_eq in Hlo. subst lo.
      destruct (remaining st' =? remaining st) eqn:Hr; [reflexivity | ].
      apply Nat.eqb_neq in Hr. apply IH; simpl; lia.
    - apply Nat.eqb_neq in Hlo. apply IH; lia. }
  rewrite Hagain. reflexivity.
Qed.

(** The quantifier of [m] with any amount of fuel above the one it takes. *)
Lemma m_rep_fuel (ic : bool) (r : regex) (lo : nat) (hi : option nat)
    (st : mstate) (k : mstate -> option mstate) (fuel : nat) :
  lo + remaining st < fuel ->
  m ic (Rep r lo hi) st k = rep (m ic r) fuel lo hi st k.
Proof.
  intros Hf. cbn [m]. apply rep_fuel_enough; [apply m_advances | lia | exact Hf].
Qed.

(* ================================================================== *)
(** * The grammar of the specification and the two copies of the validator *)

(** The validator is stricter than the grammar: a label may not end in a
    hyphen. *)
Lemma stricter_than_grammar :
  domainLooksValid (lit "a-.com") = false /\ spec_domain (lit "a-.com").
Proof.
  split; [vm_compute; reflexivity | ].
  left. exists [lit "a-"], (lit "com"). split; [discriminate | ].
  split; [ | split; [ | reflexivity]].
  - constructor; [ | constructor].
    split; [discriminate | ]. split; [reflexivity | discriminate].
  - split; [simpl; lia | reflexivity].
Qed.

(** The copy further down accepts a label that starts with a hyphen and asks
    for two digits in a port. *)
Lemma earlier_copy_differs :
  Earlier.domainLooksValid (lit "a.-b.com") = true /\
  domainLooksValid (lit "a.-b.com") = false /\
  Earlier.domainLooksValid (lit "localhost:8") = false /\
  domainLooksValid (lit "localhost:8") = true.
Proof. repeat split; vm_compute; reflexivity. Qed.

(* ================================================================== *)
(** * Strings outside the grammar *)

Lemma dotted_has_dot (labels : list str) :
  labels <> [] -> In "."%char (dotted labels).
Proof.
  destruct labels as [ | l labels]; [congruence | ]. intros _.
  unfold dotted. cbn [map concat]. apply in_or_app. left.
  apply in_or_app. right. left. reflexivity.
Qed.

Lemma label_no_dot (l : str) : spec_label l -> ~ In "."%char l.
Proof.
  intros (_ & Hl & _) Hin. rewrite forallb_forall in Hl.
  specialize (Hl _ Hin). discriminate.
Qed.

(** A string is cut at its first dot in one way only. *)
Lemma first_dot_unique (l l' rest rest' : str) :
  ~ In "."%char l -> ~ In "."%char l' ->
  l ++ "."%char :: rest = l' ++ "."%char :: rest' -> l = l' /\ rest = rest'.
Proof.
  revert l'. induction l as [ | x l IH]; intros [ | y l'] Hl Hl' Heq.
  - injection Heq as <-. auto.
  - injection Heq as <- _. exfalso. apply Hl'. left. reflexivity.
  - injection Heq as -> _. exfalso. apply Hl. left. reflexivity.
  - injection Heq as <- Heq.
    destruct (IH l') as [-> ->]; auto; intros H; [apply Hl | apply Hl'];
      right; exact H.
Qed.

(** The first label of a name of the grammar and what follows its dot. *)
Lemma fqdn_first_label (s : str) :
  spec_fqdn s ->
  exists l rest,
    s = l ++ "."%char :: rest /\ spec_label l /\
    (spec_top_label rest \/ spec_fqdn rest).
Proof.
  intros (labels & top & Hne & Hall & Htop & ->).
  destruct labels as [ | l labels]; [congruence | ].
  apply Forall_cons_iff in Hall. destruct Hall as [Hl Hall].
  exists l, (dotted labels ++ top). split.
  - unfold dotted. cbn [map concat]. rewrite <- !app_assoc. reflexivity.
  - split; [exact Hl | ]. destruct labels as [ | l2 labels].
    + left. exact Htop.
    + right. exists (l2 :: labels), top. repeat split; try assumption.
      * discriminate.
      * apply Htop.
      * apply Htop.
Qed.

(** The string 'canceled' is no domain of the grammar. *)
Lemma canceled_not_a_domain : ~ spec_domain canceled.
Proof.
  intros [(labels & top & Hne & _ & _ & Heq) | [Heq | (ds & _ & _ & Heq)]].
  - pose proof (dotted_has_dot labels Hne) as Hin.
    assert (H : In "."%char canceled)
      by (rewrite Heq; apply in_or_app; left; exact Hin).
    vm_compute in H. intuition discriminate.
  - vm_compute in Heq. discriminate.
  - vm_compute in Heq. discriminate.
Qed.

(** Nor is a name with a label that begins with a hyphen. *)
Lemma hyphen_label_not_a_domain : ~ spec_domain (lit "a.-b.com").
Proof.
  assert (Hnd : forall w : str, forallb is_label_char w = true -> ~ In "."%char w).
  { intros w Hw Hin. rewrite forallb_forall in Hw. specialize (Hw _ Hin).
    discriminate. }
  intros [Hf | [Heq | (ds & _ & _ & Heq)]].
  - apply fqdn_first_label in Hf. destruct Hf as (l & rest & Heq & Hl & Hrest).
    change (lit "a.-b.com") with (lit "a" ++ "."%char :: lit "-b.com") in Heq.
    apply first_dot_unique in Heq;
      [ | apply Hnd; reflexivity | apply label_no_dot, Hl].
    destruct Heq as [<- <-]. destruct Hrest as [[_ Ht] | Hf].
    + vm_compute in Ht. discriminate.
    + apply fqdn_first_label in Hf.
      destruct Hf as (l2 & rest2 & Heq & Hl2 & _).
      change (lit "-b.com") with (lit "-b" ++ "."%char :: lit "com") in Heq.
      apply first_dot_unique in Heq;
        [ | apply Hnd; reflexivity | apply label_no_dot, Hl2].
      destruct Heq as [<- _]. destruct Hl2 as (_ & _ & Hhd). apply Hhd.
      reflexivity.
  - vm_compute in Heq. discriminate.
  - vm_compute in Heq. discriminate.
Qed.


(* ================================================================== *)
(** * A pass, prompt by prompt *)

Lemma even_cases (a : nat) :
  Nat.even a = true /\ a mod 2 = 0 \/ Nat.even a = false /\ a mod 2 = 1.
Proof.
  destruct (Nat.Even_or_Odd a) as [[q ->] | [q ->]].
  - left. split; [apply Nat.even_spec; exists q; reflexivity | ].
    rewrite Nat.mul_comm. apply Nat.Div0.mod_mul.
  - right. split.
    + rewrite Nat.add_1_r, Nat.even_succ, <- Nat.negb_even.
      replace (Nat.even (2 * q)) with true; [reflexivity | ].
      symmetry. apply Nat.even_spec. exists q. reflexivity.
    + rewrite Nat.add_comm, Nat.mul_comm, Nat.Div0.mod_add. reflexivity.
Qed.

(** The network prompt of a pass opens on testnet, the second option. *)
Lemma network_highlighted (a : nat) :
  highlighted (prompts_network None) a
  = Value (if Nat.even a then testnet else mainnet).
Proof.
  unfold highlighted. cbn [prompts_network options initialValue nullish length].
  change (cursor_of (Value testnet) [Value mainnet; Value testnet]) with 1.
  replace ((1 + a) mod 2) with ((1 + a mod 2) mod 2)
    by (rewrite Nat.Div0.add_mod_idemp_r; reflexivity).
  destruct (even_cases a) as [[-> ->] | [-> ->]]; reflexivity.
Qed.

(** The deployment type prompt of a pass opens on vps, the first option. *)
Lemma deploymentType_highlighted (b : nat) :
  highlighted (prompts_deploymentType None) b
  = Value (if Nat.even b then vps else local).
Proof.
  unfold highlighted. cbn [prompts_deploymentType options initialValue nullish length].
  change (cursor_of (Value vps) [Value vps; Value local]) with 0.
  cbn [Nat.add]. destruct (even_cases b) as [[-> ->] | [-> ->]]; reflexivity.
Qed.

(** The frontend hosting prompt of a pass opens on its first option. *)
Lemma frontendHosting_highlighted (d : slot DeploymentType) (c : nat) :
  highlighted (prompts_frontendHosting d None) c
  = match d with
    | Value local => nth (c mod 2) [Value vercel; Value skip] Canceled
    | _ => nth (c mod 3) [Value same_vps; Value vercel; Value skip] Canceled
    end.
Proof.
  unfold highlighted. destruct d as [[ | ] | ];
    cbn [prompts_frontendHosting options initialValue nullish length].
  - change (cursor_of _ _) with 0. cbn [Nat.add].
    pose proof (Nat.mod_upper_bound c 3). destruct (c mod 3) as [ | [ | [ | ]]];
      try reflexivity; lia.
  - change (cursor_of _ _) with 0. cbn [Nat.add].
    pose proof (Nat.mod_upper_bound c 2). destruct (c mod 2) as [ | [ | ]];
      try reflexivity; lia.
  - change (cursor_of _ _) with 0. cbn [Nat.add].
    pose proof (Nat.mod_upper_bound c 3). destruct (c mod 3) as [ | [ | [ | ]]];
      try reflexivity; lia.
Qed.

(** A pass whose six prompts are answered. *)
Lemma pass_answered (od : OnDismiss) (clock : nat -> str) (reads : nat)
    (n : str) (a b c : nat) (dm : str) (ks : list nat) :
  validate_projectName n = None -> validate_domain dm = None ->
  run od clock (start reads)
    [Line n; Choose a; Choose b; Choose c; Line dm; Check ks]
  = InEditLoop (S reads)
      (Review
         (normalizeFrontendHosting
            (mkMeta (trim n)
               (highlighted (prompts_network None) a)
               (highlighted (prompts_deploymentType None) b)
               (highlighted
                  (prompts_frontendHosting
                     (highlighted (prompts_deploymentType None) b) None) c)
               (normalizeDomain (Some dm))
               (Value (toggles [stripe; auth] [] ks))
               (clock reads)))).
Proof.
  intros Hn Hd. unfold run, start. cbn [fold_left].
  assert (H1 : step od clock (InAskAll reads AtProjectName) (Line n)
               = InAskAll reads (AtNetwork n)).
  { cbn [step group ask text prompts_projectName validate]. rewrite Hn.
    reflexivity. }
  rewrite H1.
  change (step od clock (InAskAll reads (AtNetwork n)) (Choose a))
    with (InAskAll reads
            (AtDeploymentType n (highlighted (prompts_network None) a))).
  set (nw := highlighted (prompts_network None) a).
  change (step od clock (InAskAll reads (AtDeploymentType n nw)) (Choose b))
    with (InAskAll reads
            (AtFrontendHosting n nw (highlighted (prompts_deploymentType None) b))).
  set (d := highlighted (prompts_deploymentType None) b).
  change (step od clock (InAskAll reads (AtFrontendHosting n nw d)) (Choose c))
    with (InAskAll reads
            (AtDomain n nw d (highlighted (prompts_frontendHosting d None) c))).
  set (f := highlighted (prompts_frontendHosting d None) c).
  assert (H5 : step od clock (InAskAll reads (AtDomain n nw d f)) (Line dm)
               = InAskAll reads (AtIntegrations n nw d f dm)).
  { cbn [step group ask text prompts_domain validate]. rewrite Hd.
    reflexivity. }
  rewrite H5.
  cbn [step group ask multiselect prompts_integrations ms_options initialValues
       nullish askAll_end r_projectName r_network r_deploymentType
       r_frontendHosting r_domain r_integrations].
  rewrite loop_head_array; [reflexivity | ].
  exists (toggles [stripe; auth] [] ks). apply normalize_integrations.
Qed.

(* ================================================================== *)
(** * The hosting rule *)

Lemma hosting_collect (od : OnDismiss) (clock : nat -> str) (ins : list Input) :
  holds (fun _ => True) hosting_consistent (collectProjectMetadata od clock ins).
Proof.
  apply holds_collect; auto.
  - intros p i r now meta _ _ Ha. apply (asked_fields now r meta Ha).
  - intros e i meta' _. apply hosting_edit.
Qed.

(** What [formatSummary] shows of an object whose deployment type is the
    string 'canceled': the label of a local deployment, beside that of the
    frontend hosting as it is. *)
Lemma canceled_deployment_shown_local (meta : ProjectMetadata)
    (ig : list Integration) :
  integrations meta = Value ig -> deploymentType meta = Canceled ->
  frontendHosting meta = Value same_vps ->
  exists rows,
    formatSummary meta = Some rows /\
    nth_error rows 2 = Some (lit "Deployment type:     ", Str (lit "Local only")) /\
    nth_error rows 3 = Some (lit "Frontend hosting:    ", Str (lit "Same VPS")).
Proof.
  intros Hig Hd Hf. unfold formatSummary. rewrite Hig, Hd, Hf.
  eexists. split; [reflexivity | split; reflexivity].
Qed.

(** C1: every configuration shown at the review prompt or returned by
    [collectProjectMetadata], in every run and also after a prompt of a pass
    was dismissed, has [frontendHosting <> same_vps] when
    [deploymentType = local].  An input that would break the rule is not
    rejected: choosing local in the edit of the deployment type of a
    configuration with same_vps stores local and turns the frontend hosting
    into vercel, and so does the end of a pass whose results hold local and
    same_vps. *)
Theorem hosting_rule_kept (od : OnDismiss) (clock : nat -> str) :
  (forall ins meta,
     exposed (collectProjectMetadata od clock ins) = Some meta ->
     deploymentType meta = Value local ->
     frontendHosting meta <> Value same_vps) /\
  (forall reads meta ig,
     integrations meta = Value ig ->
     deploymentType meta <> Value local ->
     frontendHosting meta = Value same_vps ->
     run od clock (InEditLoop reads (Review meta)) [Choose 1; Choose 2; Choose 1]
     = InEditLoop reads
         (Review (mkMeta (projectName meta) (network meta) (Value local)
                    (Value vercel) (domain meta) (integrations meta)
                    (createdAtIso meta)))) /\
  (forall now n nw dm ig,
     askAll_end now (Got (mkResults n nw (Value local) (Value same_vps) dm ig))
     = Some (mkMeta (trim n) nw (Value local) (Value vercel)
               (normalizeDomain (Some dm)) ig now)).
Proof.
  split; [ | split].
  - intros ins meta Hex. apply exposed_held in Hex.
    exact (holds_held _ hosting_consistent _ meta (hosting_collect od clock ins) Hex).
  - intros reads [n nw d f dm igs c] ig Hig Hd Hf. cbn [integrations] in Hig.
    cbn [deploymentType] in Hd. cbn [frontendHosting] in Hf. subst igs f.
    destruct d as [[ | ] | ]; try congruence; reflexivity.
  - reflexivity.
Qed.

(* ================================================================== *)
(** * Idempotence of the normalizer *)

(** C4: applying [normalizeFrontendHosting] twice gives the configuration
    that applying it once gives. *)
Theorem normalizeFrontendHosting_idempotent (meta : ProjectMetadata) :
  normalizeFrontendHosting (normalizeFrontendHosting meta)
  = normalizeFrontendHosting meta.
Proof. apply normalize_fixes, normalize_consistent. Qed.

(* ================================================================== *)
(** * Cancelling an edit *)

Lemma edit_field_esc (field : Field) (meta : ProjectMetadata) :
  is_array meta -> edit_field field meta Esc = Awaits (Review meta).
Proof.
  intros Ha. destruct field; unfold edit_field;
    try (cbn [assign text select]; apply loop_head_array, Ha).
  destruct Ha as [ig Hig]. rewrite Hig. cbn [assign multiselect].
  apply loop_head_array. exists ig. exact Hig.
Qed.

(** C5: dismissing the field selection, or the re-prompt of any field, leads
    back to the review prompt with the same configuration, and the loop goes
    on.  This holds of every object whose integrations are an array, and so
    wherever a run is in the loop.  (On an object whose integrations were
    the string 'canceled', which no run brings into the loop, the summary
    at the head of the loop would throw.) *)
Theorem edit_cancel_changes_nothing (od : OnDismiss) (clock : nat -> str) :
  (forall reads meta ig,
     integrations meta = Value ig ->
     step od clock (InEditLoop reads (PickField meta)) Esc
     = InEditLoop reads (Review meta) /\
     forall field,
       step od clock (InEditLoop reads (EditField field meta)) Esc
       = InEditLoop reads (Review meta)) /\
  (forall ins reads meta,
     collectProjectMetadata od clock ins = InEditLoop reads (PickField meta) ->
     step od clock (InEditLoop reads (PickField meta)) Esc
     = InEditLoop reads (Review meta)) /\
  (forall ins reads field meta,
     collectProjectMetadata od clock ins
     = InEditLoop reads (EditField field meta) ->
     step od clock (InEditLoop reads (EditField field meta)) Esc
     = InEditLoop reads (Review meta)) /\
  (forall reads meta,
     integrations meta = Canceled ->
     step od clock (InEditLoop reads (PickField meta)) Esc = Threw meta).
Proof.
  assert (Hpick : forall reads meta, is_array meta ->
            step od clock (InEditLoop reads (PickField meta)) Esc
            = InEditLoop reads (Review meta)).
  { intros reads meta Ha. cbn [step editLoop select].
    rewrite (loop_head_array meta Ha). reflexivity. }
  assert (Hedit : forall reads field meta, is_array meta ->
            step od clock (InEditLoop reads (EditField field meta)) Esc
            = InEditLoop reads (Review meta)).
  { intros reads field meta Ha. cbn [step editLoop].
    rewrite (edit_field_esc field meta Ha). reflexivity. }
  split; [ | split; [ | split]].
  - intros reads meta ig Hig.
    assert (Ha : is_array meta) by (exists ig; exact Hig).
    split; [apply Hpick, Ha | intros field; apply Hedit, Ha].
  - intros ins reads meta Hrun. apply Hpick.
    pose proof (collect_charted od clock ins) as H. rewrite Hrun in H. apply H.
  - intros ins reads field meta Hrun. apply Hedit.
    pose proof (collect_charted od clock ins) as H. rewrite Hrun in H. apply H.
  - intros reads meta Hig. cbn [step editLoop select].
    rewrite (loop_head_canceled meta Hig). reflexivity.
Qed.

(* ================================================================== *)
(** * Starting over *)

Lemma review_choice (od : OnDismiss) (clock : nat -> str) (reads k : nat)
    (meta : ProjectMetadata) :
  step od clock (InEditLoop reads (Review meta)) (Choose k)
  = match highlighted review_prompt k with
    | c_confirm => Returned (Some meta)
    | c_edit => InEditLoop reads (PickField meta)
    | c_start_over => start reads
    | c_cancel => Returned None
    end.
Proof.
  cbn [step editLoop select]. destruct (highlighted review_prompt k); reflexivity.
Qed.

(** C7: after start-over the run goes on from the first prompt of a fresh
    pass, whatever the discarded configuration was.  The prompts of that
    pass open on testnet, vps, and same_vps for vps or vercel for local,
    with no integration checked.  The configuration returned after the pass
    is made of the answers of that pass and the reading of the clock at its
    end, and of nothing else: the name trimmed, the options chosen, the
    domain normalized, the integrations toggled. *)
Theorem start_over_discards (od : OnDismiss) (clock : nat -> str) :
  (forall k reads meta ins,
     highlighted review_prompt k = c_start_over ->
     run od clock (InEditLoop reads (Review meta)) (Choose k :: ins)
     = run od clock (start reads) ins) /\
  (forall k reads meta meta' ins,
     highlighted review_prompt k = c_start_over ->
     run od clock (InEditLoop reads (Review meta)) (Choose k :: ins)
     = run od clock (InEditLoop reads (Review meta')) (Choose k :: ins)) /\
  (forall k k' reads meta n,
     highlighted review_prompt k = c_start_over ->
     highlighted review_prompt k' = c_confirm ->
     validate_projectName n = None ->
     run od clock (InEditLoop reads (Review meta))
       [Choose k; Line n; Choose 0; Choose 0; Choose 0; Line []; Check [];
        Choose k']
     = Returned (Some (mkMeta (trim n) (Value testnet) (Value vps)
                         (Value same_vps) None (Value []) (clock reads))) /\
     run od clock (InEditLoop reads (Review meta))
       [Choose k; Line n; Choose 0; Choose 1; Choose 0; Line []; Check [];
        Choose k']
     = Returned (Some (mkMeta (trim n) (Value testnet) (Value local)
                         (Value vercel) None (Value []) (clock reads)))) /\
  (forall k k' reads meta n a b c dm ks,
     highlighted review_prompt k = c_start_over ->
     highlighted review_prompt k' = c_confirm ->
     validate_projectName n = None ->
     validate_domain dm = None ->
     run od clock (InEditLoop reads (Review meta))
       [Choose k; Line n; Choose a; Choose b; Choose c; Line dm; Check ks;
        Choose k']
     = Returned
         (Some (mkMeta (trim n)
                  (Value (if Nat.even a then testnet else mainnet))
                  (Value (if Nat.even b then vps else local))
                  (if Nat.even b
                   then nth (c mod 3) [Value same_vps; Value vercel; Value skip]
                          Canceled
                   else nth (c mod 2) [Value vercel; Value skip] Canceled)
                  (spec_normalizeDomain dm)
                  (Value (toggles [stripe; auth] [] ks))
                  (clock reads)))).
Proof.
  assert (Hover : forall k reads meta ins,
            highlighted review_prompt k = c_start_over ->
            run od clock (InEditLoop reads (Review meta)) (Choose k :: ins)
            = run od clock (start reads) ins).
  { intros k reads meta ins Hk. unfold run at 1. cbn [fold_left].
    rewrite review_choice, Hk. reflexivity. }
  assert (Hpass : forall k k' reads meta n a b c dm ks,
     highlighted review_prompt k = c_start_over ->
     highlighted review_prompt k' = c_confirm ->
     validate_projectName n = None ->
     validate_domain dm = None ->
     run od clock (InEditLoop reads (Review meta))
       [Choose k; Line n; Choose a; Choose b; Choose c; Line dm; Check ks;
        Choose k']
     = Returned
         (Some (mkMeta (trim n)
                  (Value (if Nat.even a then testnet else mainnet))
                  (Value (if Nat.even b then vps else local))
                  (if Nat.even b
                   then nth (c mod 3) [Value same_vps; Value vercel; Value skip]
                          Canceled
                   else nth (c mod 2) [Value vercel; Value skip] Canceled)
                  (spec_normalizeDomain dm)
                  (Value (toggles [stripe; auth] [] ks))
                  (clock reads)))).
  { intros k k' reads meta n a b c dm ks Hk Hk' Hn Hd.
    rewrite (Hover k reads meta _ Hk).
    change [Line n; Choose a; Choose b; Choose c; Line dm; Check ks; Choose k']
      with ([Line n; Choose a; Choose b; Choose c; Line dm; Check ks]
            ++ [Choose k']).
    rewrite run_app, (pass_answered od clock reads n a b c dm ks Hn Hd).
    unfold run. cbn [fold_left]. rewrite review_choice, Hk'.
    rewrite network_highlighted, deploymentType_highlighted,
      frontendHosting_highlighted, normalizeDomain_spec.
    destruct (Nat.even b); do 2 f_equal; apply normalize_fixes;
      unfold hosting_consistent; cbn [deploymentType frontendHosting];
      try discriminate.
    intros _. pose proof (Nat.mod_upper_bound c 2).
    destruct (c mod 2) as [ | [ | ]]; try discriminate; lia. }
  split; [exact Hover | ]. split; [ | split; [ | exact Hpass]].
  - intros k reads meta meta' ins Hk. rewrite !Hover by exact Hk. reflexivity.
  - intros k k' reads meta n Hk Hk' Hn. split.
    + apply (Hpass k k' reads meta n 0 0 0 [] [] Hk Hk' Hn). reflexivity.
    + apply (Hpass k k' reads meta n 0 1 0 [] [] Hk Hk' Hn). reflexivity.
Qed.

(* ================================================================== *)
(** * The creation time *)

Lemma normalize_keeps_stamp (meta : ProjectMetadata) :
  createdAtIso (normalizeFrontendHosting meta) = createdAtIso meta.
Proof. apply (normalize_frame meta). Qed.

Lemma edit_keeps_stamp (e : EditPoint) (i : Input) (meta' : ProjectMetadata) :
  object_of (editLoop e i) = Some meta' ->
  createdAtIso meta' = createdAtIso (meta_of e).
Proof.
  intros H. apply editLoop_object in H.
  destruct H as [-> | (field & _ & H)]; [reflexivity | ].
  set (m := meta_of e) in *. apply edit_field_object in H.
  destruct H as [-> | H]; [reflexivity | ].
  destruct field.
  - destruct H as (v & _ & _ & ->). reflexivity.
  - destruct H as (k & _ & ->). reflexivity.
  - destruct H as (k & _ & ->). rewrite normalize_keeps_stamp. reflexivity.
  - destruct H as (k & _ & ->). reflexivity.
  - destruct H as (v & _ & _ & ->). reflexivity.
  - destruct H as (ig & ks & _ & _ & ->). reflexivity.
Qed.

Lemma asked_stamp (now : str) (r : Results) (meta : ProjectMetadata) :
  askAll_end now (Got r) = Some meta -> createdAtIso meta = now.
Proof. intros Ha. apply (asked_fields now r meta Ha). Qed.

(** The end of a pass: the object carries the reading of the clock made
    there, whether the loop is entered or the summary throws. *)
Lemma pass_end_stamp (od : OnDismiss) (clock : nat -> str) (reads : nat)
    (p : Pass) (i : Input) :
  match step od clock (InAskAll reads p) i with
  | InAskAll reads' _ => reads' = reads
  | InEditLoop reads' e =>
      reads' = S reads /\
      exists meta, e = Review meta /\ createdAtIso meta = clock reads
  | Threw meta => createdAtIso meta = clock reads
  | Returned r => r = None
  | OffTheMap => False
  end.
Proof.
  cbn [step]. destruct (group od p i) as [p' | [r | ]]; [reflexivity | | reflexivity].
  destruct (askAll_end (clock reads) (Got r)) as [meta | ] eqn:Ha;
    [ | reflexivity].
  apply asked_stamp in Ha.
  destruct (loop_head_cases meta) as [[_ ->] | [_ ->]]; cbn [follow]; eauto.
Qed.

Lemma stamped_step (od : OnDismiss) (clock : nat -> str) (s : State) (i : Input) :
  stamped clock s -> stamped clock (step od clock s i).
Proof.
  destruct s as [reads p | reads e | r | m | ]; auto.
  - intros _. pose proof (pass_end_stamp od clock reads p i) as H.
    destruct (step od clock (InAskAll reads p) i) as [ | reads' e | [m | ] | m | ];
      cbn [stamped]; auto.
    + destruct H as (-> & meta & -> & Hc). cbn [meta_of pred]. split; [lia | exact Hc].
    + discriminate.
    + eauto.
  - cbn [stamped step]. intros [Hr Hc].
    destruct (editLoop e i) as [e' | v meta | meta | ] eqn:He; cbn [follow].
    + cbn [stamped]. split; [exact Hr | ]. rewrite <- Hc.
      apply (edit_keeps_stamp e i). rewrite He. reflexivity.
    + apply editLoop_returns in He. subst e. cbn [meta_of] in Hc.
      destruct v; cbn [stamped start]; eauto.
    + cbn [stamped]. exists (pred reads). rewrite <- Hc.
      apply (edit_keeps_stamp e i). rewrite He. reflexivity.
    + exact I.
Qed.

Lemma stamped_run (od : OnDismiss) (clock : nat -> str) (ins : list Input) (s : State) :
  stamped clock s -> stamped clock (run od clock s ins).
Proof.
  revert s. induction ins as [ | i ins IH]; simpl; intros s Hs; auto.
  apply IH, stamped_step, Hs.
Qed.

(** C9: [createdAtIso] is the reading of the clock made at the end of a
    pass, one reading for each pass, dismissed prompts or not.  No step of
    the edit loop changes it, whether the loop goes on, returns or throws,
    and what is returned is the object of the loop.  So every configuration
    in the edit loop carries the reading made at the end of the last pass,
    and the configuration returned on confirm is the one shown at the
    review prompt with the reading of the pass that made it. *)
Theorem createdAtIso_set_once (od : OnDismiss) (clock : nat -> str) :
  (forall now r meta,
     askAll_end now (Got r) = Some meta -> createdAtIso meta = now) /\
  (forall reads p i reads' e,
     step od clock (InAskAll reads p) i = InEditLoop reads' e ->
     reads' = S reads /\
     exists meta, e = Review meta /\ createdAtIso meta = clock reads) /\
  (forall reads p i meta,
     step od clock (InAskAll reads p) i = Threw meta ->
     createdAtIso meta = clock reads) /\
  (forall e i meta',
     object_of (editLoop e i) = Some meta' ->
     createdAtIso meta' = createdAtIso (meta_of e)) /\
  (forall reads e i reads' e',
     step od clock (InEditLoop reads e) i = InEditLoop reads' e' ->
     reads' = reads /\ createdAtIso (meta_of e') = createdAtIso (meta_of e)) /\
  (forall reads e i meta,
     step od clock (InEditLoop reads e) i = Returned (Some meta) ->
     meta = meta_of e) /\
  (forall ins reads e,
     collectProjectMetadata od clock ins = InEditLoop reads e ->
     0 < reads /\ createdAtIso (meta_of e) = clock (pred reads)) /\
  (forall ins meta,
     collectProjectMetadata od clock ins = Returned (Some meta) ->
     exists ins1 k ins2 reads,
       ins = ins1 ++ Choose k :: ins2 /\
       collectProjectMetadata od clock ins1 = InEditLoop reads (Review meta) /\
       0 < reads /\ createdAtIso meta = clock (pred reads)).
Proof.
  assert (Hloop : forall ins reads e,
            collectProjectMetadata od clock ins = InEditLoop reads e ->
            0 < reads /\ createdAtIso (meta_of e) = clock (pred reads)).
  { intros ins reads e Hrun.
    pose proof (stamped_run od clock ins (start 0) I) as Hs.
    unfold collectProjectMetadata in Hrun. rewrite Hrun in Hs. exact Hs. }
  repeat apply conj.
  - apply asked_stamp.
  - intros reads p i reads' e Hs.
    pose proof (pass_end_stamp od clock reads p i) as H. rewrite Hs in H. exact H.
  - intros reads p i meta Hs.
    pose proof (pass_end_stamp od clock reads p i) as H. rewrite Hs in H. exact H.
  - apply edit_keeps_stamp.
  - intros reads e i reads' e'. cbn [step].
    destruct (editLoop e i) as [e1 | [ | | ] m | m | ] eqn:He; try discriminate.
    intros [= <- <-]. split; [reflexivity | ].
    apply (edit_keeps_stamp e i). rewrite He. reflexivity.
  - intros reads e i meta. cbn [step].
    destruct (editLoop e i) as [e1 | [ | | ] m | m | ] eqn:He; try discriminate.
    intros [= <-]. apply editLoop_returns in He. subst e. reflexivity.
  - exact Hloop.
  - intros ins meta Hrun. apply returned_some_trace in Hrun.
    destruct Hrun as (ins1 & k & ins2 & reads & -> & Hrun & _).
    exists ins1, k, ins2, reads. split; [reflexivity | ].
    split; [exact Hrun | ]. apply (Hloop ins1 reads (Review meta) Hrun).
Qed.


(* ================================================================== *)
(** * The domain grammar *)

(** C2, as the code behaves: the domain prompt of a pass is dismissed, the
    string 'canceled' takes the place of the answer, and the configuration
    that is shown, confirmed and returned has the domain "canceled", which
    is no domain of the grammar and which the validator of the prompt itself
    rejects.  This is the only way past the grammar: the domain of every
    configuration shown or returned is null, matches the grammar, or is that
    string after a dismissed prompt of a group that goes on; the validator
    lets a non-blank input through only if its normalized form matches the
    grammar, and answers every other non-blank input with the corrective
    message.  The copy of the validator further down in metadata.ts accepts
    a label that begins with a hyphen. *)
Theorem dismissed_domain_is_returned (clock : nat -> str) :
  collectProjectMetadata GoOn clock
    [Line (lit "gw"); Choose 0; Choose 0; Choose 0; Esc; Check []; Choose 0]
  = Returned (Some (mkMeta (lit "gw") (Value testnet) (Value vps)
                      (Value same_vps) (Some (lit "canceled")) (Value [])
                      (clock 0))) /\
  (domainLooksValid (lit "canceled") = false /\
   validate_domain (lit "canceled") = Some msg_domain /\
   ~ spec_domain (lit "canceled")) /\
  (forall od ins meta,
     exposed (collectProjectMetadata od clock ins) = Some meta ->
     match domain meta with
     | None => True
     | Some t => spec_domain t \/ od = GoOn /\ t = lit "canceled"
     end) /\
  (forall v,
     validate_domain v = None ->
     match normalizeDomain (Some v) with
     | None => True
     | Some t => spec_domain t
     end) /\
  (forall v t,
     normalizeDomain (Some v) = Some t -> ~ spec_domain t ->
     validate_domain v = Some msg_domain /\
     forall initial, text (prompts_domain initial) (Line v) = Rejected msg_domain) /\
  (Earlier.domainLooksValid (lit "a.-b.com") = true /\
   domainLooksValid (lit "a.-b.com") = false /\
   ~ spec_domain (lit "a.-b.com")).
Proof.
  split; [vm_compute; reflexivity | ].
  split; [ | split; [ | split; [ | split]]].
  - split; [vm_compute; reflexivity | ]. split; [vm_compute; reflexivity | ].
    exact canceled_not_a_domain.
  - intros od ins meta Hex. apply exposed_held in Hex.
    exact (holds_held _ (domain_ok_but od) _ meta (domain_collect od clock ins) Hex).
  - apply validate_domain_ok.
  - intros v t Hn Hspec.
    assert (Hv : validate_domain v = Some msg_domain).
    { unfold validate_domain. rewrite Hn.
      destruct (domainLooksValid t) eqn:Hd; [ | reflexivity].
      exfalso. apply Hspec, domainLooksValid_sound, Hd. }
    split; [exact Hv | ]. intros initial. simpl. rewrite Hv. reflexivity.
  - split; [vm_compute; reflexivity | ]. split; [vm_compute; reflexivity | ].
    exact hyphen_label_not_a_domain.
Qed.

(** What [askAll] is written for: with a group that resolves to the cancel
    symbol the domain of every configuration shown or returned is null or
    matches the grammar. *)
Lemma give_up_domain_ok (clock : nat -> str) (ins : list Input)
    (meta : ProjectMetadata) :
  exposed (collectProjectMetadata GiveUp clock ins) = Some meta ->
  domain_ok meta.
Proof.
  intros Hex. apply exposed_held in Hex.
  pose proof (holds_held _ (domain_ok_but GiveUp) _ meta
                (domain_collect GiveUp clock ins) Hex) as H.
  unfold domain_ok_but in H. unfold domain_ok.
  destruct (domain meta) as [t | ]; [ | exact I].
  destruct H as [H | [H _]]; [exact H | discriminate].
Qed.

(* ================================================================== *)
(** * The normalized domain *)

(** C3: the normalized domain is the input trimmed, lower-cased, without one
    leading http:// or https:// and without its trailing slashes; this is
    what an accepted input is stored as, by the edit of the domain and at
    the end of a pass, and "HTTPS://API.Example.com/" is accepted and stored
    as "api.example.com". *)
Theorem normalizeDomain_steps (od : OnDismiss) (clock : nat -> str) :
  (forall v, normalizeDomain (Some v) = spec_normalizeDomain v) /\
  (forall v meta ig,
     validate_domain v = None ->
     integrations meta = Value ig ->
     edit_field f_domain meta (Line v)
     = Awaits (Review (mkMeta (projectName meta) (network meta)
                         (deploymentType meta) (frontendHosting meta)
                         (spec_normalizeDomain v) (integrations meta)
                         (createdAtIso meta)))) /\
  (forall now r meta,
     askAll_end now (Got r) = Some meta ->
     domain meta = spec_normalizeDomain (r_domain r)) /\
  normalizeDomain (Some (lit "HTTPS://API.Example.com/"))
  = Some (lit "api.example.com") /\
  validate_domain (lit "HTTPS://API.Example.com/") = None /\
  collectProjectMetadata od clock
    [Line (lit "My Gw"); Choose 0; Choose 0; Choose 0;
     Line (lit "HTTPS://API.Example.com/"); Check []; Choose 0]
  = Returned (Some (mkMeta (lit "My Gw") (Value testnet) (Value vps)
                      (Value same_vps) (Some (lit "api.example.com"))
                      (Value []) (clock 0))).
Proof.
  split; [ | split; [ | split; [ | split; [ | split]]]].
  - apply normalizeDomain_spec.
  - intros v meta ig Hv Hig. unfold edit_field, assign, text.
    cbn [validate prompts_domain]. rewrite Hv, normalizeDomain_spec.
    apply loop_head_array. exists ig. exact Hig.
  - intros now r meta Ha. rewrite <- normalizeDomain_spec.
    apply (asked_fields now r meta Ha).
  - vm_compute. reflexivity.
  - vm_compute. reflexivity.
  - vm_compute. reflexivity.
Qed.

(* ================================================================== *)
(** * The project name *)

Lemma name_collect (od : OnDismiss) (clock : nat -> str) (ins : list Input) :
  holds (pass_ok od) name_ok (collectProjectMetadata od clock ins).
Proof.
  apply holds_collect.
  - apply pass_ok_group.
  - apply name_asked.
  - intros e i meta' _. apply name_edit.
  - exact I.
Qed.

(** C8: the project name of every configuration shown at the review prompt
    or returned, in every run, is trimmed and has between 1 and 64
    characters; after a dismissed name prompt of a pass it is the string
    "canceled", which is such a name.  The validator rejects an input that
    is empty after trimming or longer than 64 characters, and the prompt
    stays open. *)
Theorem projectName_kept_valid (od : OnDismiss) (clock : nat -> str) :
  (forall ins meta,
     exposed (collectProjectMetadata od clock ins) = Some meta ->
     trim (projectName meta) = projectName meta /\
     1 <= length (projectName meta) <= 64) /\
  (forall v,
     validate_projectName v = None <-> trim v <> [] /\ length v <= 64) /\
  (forall v,
     trim v = [] \/ 64 < length v ->
     exists message,
       validate_projectName v = Some message /\
       (forall initial,
          text (prompts_projectName initial) (Line v) = Rejected message) /\
       group od AtProjectName (Line v) = inl AtProjectName /\
       (forall meta,
          edit_field f_projectName meta (Line v)
          = Awaits (EditField f_projectName meta))) /\
  collectProjectMetadata GoOn clock
    [Esc; Choose 0; Choose 0; Choose 0; Line []; Check []; Choose 0]
  = Returned (Some (mkMeta (lit "canceled") (Value testnet) (Value vps)
                      (Value same_vps) None (Value []) (clock 0))).
Proof.
  split; [ | split; [ | split]].
  - intros ins meta Hex. apply exposed_held in Hex.
    exact (holds_held _ name_ok _ meta (name_collect od clock ins) Hex).
  - apply validate_projectName_None.
  - intros v Hv.
    destruct (validate_projectName v) as [message | ] eqn:Hval.
    + exists message. split; [reflexivity | ].
      unfold edit_field, assign, group, ask, text.
      cbn [validate prompts_projectName].
      rewrite Hval. auto.
    + apply validate_projectName_None in Hval. destruct Hval as [Hne Hlen].
      destruct Hv as [Hv | Hv]; [congruence | lia].
  - vm_compute. reflexivity.
Qed.

(* ================================================================== *)
(** * Blank domains *)


(* ================================================================== *)
(** * Dismissing a prompt of the pass *)

(** What [askAll] is written for: with a group that resolves to the cancel
    symbol, Esc at any prompt of the pass makes [collectProjectMetadata]
    return null at once. *)
Lemma give_up_returns_null (clock : nat -> str) (reads : nat) (p : Pass) :
  step GiveUp clock (InAskAll reads p) Esc = Returned None.
Proof. destruct p; reflexivity. Qed.

(** C6, as the code behaves with the group of the library: a prompt of the
    pass that is dismissed does not end the pass.  No step of [askAll] makes
    [collectProjectMetadata] return; after Esc at the network prompt the
    deployment type is asked next, and the answers given to the remaining
    prompts end up, beside the string 'canceled' in the place of the
    network, in a configuration that is shown at the review prompt and
    returned on confirm. *)
Theorem cancel_in_pass_goes_on (clock : nat -> str) :
  (forall reads p i r, step GoOn clock (InAskAll reads p) i <> Returned r) /\
  collectProjectMetadata GoOn clock [Line (lit "gw"); Esc]
  = InAskAll 0 (AtDeploymentType (lit "gw") Canceled) /\
  collectProjectMetadata GoOn clock
    [Line (lit "gw"); Esc; Choose 0; Choose 0; Line []; Check []]
  = InEditLoop 1
      (Review (mkMeta (lit "gw") Canceled (Value vps) (Value same_vps) None
                 (Value []) (clock 0))) /\
  collectProjectMetadata GoOn clock
    [Line (lit "gw"); Esc; Choose 0; Choose 0; Line []; Check []; Choose 0]
  = Returned (Some (mkMeta (lit "gw") Canceled (Value vps) (Value same_vps)
                      None (Value []) (clock 0))).
Proof.
  split; [ | split; [ | split]].
  - intros reads p i r. apply pass_GoOn_never_returns.
  - vm_compute. reflexivity.
  - vm_compute. reflexivity.
  - vm_compute. reflexivity.
Qed.


(* ================================================================== *)
(** * The theorems at sample inputs *)

(** Scenario B: vps and same_vps are chosen in the pass, then the deployment
    type is edited to local. *)
Lemma hosting_rule_kept_witness :
  (exposed (collectProjectMetadata GoOn sample_clock scenario_B)
   = Some (mkMeta (lit "gw") (Value testnet) (Value local) (Value vercel) None
             (Value []) (sample_clock 0)) /\
   Value vercel <> Value same_vps) /\
  run GoOn sample_clock
    (InEditLoop 1
       (Review (mkMeta (lit "gw") (Value testnet) Canceled (Value same_vps)
                  (Some (lit "a.example.com")) (Value [auth]) (sample_clock 0))))
    [Choose 1; Choose 2; Choose 1]
  = InEditLoop 1
      (Review (mkMeta (lit "gw") (Value testnet) (Value local) (Value vercel)
                 (Some (lit "a.example.com")) (Value [auth]) (sample_clock 0))).
Proof.
  assert (H : exposed (collectProjectMetadata GoOn sample_clock scenario_B)
              = Some (mkMeta (lit "gw") (Value testnet) (Value local)
                        (Value vercel) None (Value []) (sample_clock 0)))
    by (vm_compute; reflexivity).
  split; [split; [exact H | ] | ].
  - exact (proj1 (hosting_rule_kept GoOn sample_clock) scenario_B _ H eq_refl).
  - apply (proj1 (proj2 (hosting_rule_kept GoOn sample_clock)) 1
             (mkMeta (lit "gw") (Value testnet) Canceled (Value same_vps)
                (Some (lit "a.example.com")) (Value [auth]) (sample_clock 0))
             [auth]);
      [reflexivity | discriminate | reflexivity].
Defined.

Lemma normalizeDomain_steps_witness :
  validate_domain (lit " http://Localhost:3000// ") = None /\
  edit_field f_domain
    (mkMeta (lit "gw") (Value testnet) (Value vps) (Value skip) None (Value [])
       (sample_clock 0))
    (Line (lit " http://Localhost:3000// "))
  = Awaits (Review (mkMeta (lit "gw") (Value testnet) (Value vps) (Value skip)
                      (Some (lit "localhost:3000")) (Value []) (sample_clock 0))).
Proof.
  assert (Hv : validate_domain (lit " http://Localhost:3000// ") = None)
    by (vm_compute; reflexivity).
  split; [exact Hv | ].
  exact (proj1 (proj2 (normalizeDomain_steps GoOn sample_clock)) _
           (mkMeta (lit "gw") (Value testnet) (Value vps) (Value skip) None
              (Value []) (sample_clock 0)) [] Hv eq_refl).
Defined.

(** Scenario A up to the review prompt, then the domain is picked for an
    edit and the re-prompt is dismissed. *)
Lemma edit_cancel_changes_nothing_witness :
  collectProjectMetadata GoOn sample_clock
    [Line (lit "My Gw"); Choose 0; Choose 0; Choose 0;
     Line (lit "HTTPS://API.Example.com/"); Check []; Choose 1; Choose 4]
  = InEditLoop 1
      (EditField f_domain
         (mkMeta (lit "My Gw") (Value testnet) (Value vps) (Value same_vps)
            (Some (lit "api.example.com")) (Value []) (sample_clock 0))) /\
  step GoOn sample_clock
    (InEditLoop 1
       (EditField f_domain
          (mkMeta (lit "My Gw") (Value testnet) (Value vps) (Value same_vps)
             (Some (lit "api.example.com")) (Value []) (sample_clock 0))))
    Esc
  = InEditLoop 1
      (Review (mkMeta (lit "My Gw") (Value testnet) (Value vps) (Value same_vps)
                 (Some (lit "api.example.com")) (Value []) (sample_clock 0))).
Proof.
  assert (H : collectProjectMetadata GoOn sample_clock
                [Line (lit "My Gw"); Choose 0; Choose 0; Choose 0;
                 Line (lit "HTTPS://API.Example.com/"); Check []; Choose 1;
                 Choose 4]
              = InEditLoop 1
                  (EditField f_domain
                     (mkMeta (lit "My Gw") (Value testnet) (Value vps)
                        (Value same_vps) (Some (lit "api.example.com"))
                        (Value []) (sample_clock 0))))
    by (vm_compute; reflexivity).
  split; [exact H | ].
  exact (proj1 (proj2 (proj2 (edit_cancel_changes_nothing GoOn sample_clock)))
           _ _ _ _ H).
Defined.

(** Scenario E with answers that differ from the initial values of the
    prompts: mainnet, local, skip, a domain and both integrations. *)
Lemma start_over_discards_witness :
  run GoOn sample_clock
    (InEditLoop 1
       (Review (mkMeta (lit "old") (Value mainnet) (Value vps) (Value same_vps)
                  (Some (lit "old.example.com")) (Value [stripe])
                  (sample_clock 0))))
    [Choose 2; Line (lit " new "); Choose 1; Choose 1; Choose 1;
     Line (lit "http://New.Example.org/"); Check [1; 0]; Choose 0]
  = Returned (Some (mkMeta (lit "new") (Value mainnet) (Value local)
                      (Value skip) (Some (lit "new.example.org"))
                      (Value [auth; stripe]) (sample_clock 1))).
Proof.
  assert (Hn : validate_projectName (lit " new ") = None) by reflexivity.
  assert (Hd : validate_domain (lit "http://New.Example.org/") = None)
    by (vm_compute; reflexivity).
  exact (proj2 (proj2 (proj2 (start_over_discards GoOn sample_clock)))
           2 0 1 _ (lit " new ") 1 1 1 (lit "http://New.Example.org/") [1; 0]
           eq_refl eq_refl Hn Hd).
Defined.

Lemma projectName_kept_valid_witness :
  exposed (collectProjectMetadata GoOn sample_clock scenario_A)
  = Some (mkMeta (lit "My Gw") (Value testnet) (Value vps) (Value same_vps)
            (Some (lit "api.example.com")) (Value []) (sample_clock 0)) /\
  trim (lit "My Gw") = lit "My Gw" /\ 1 <= length (lit "My Gw") <= 64.
Proof.
  assert (H : exposed (collectProjectMetadata GoOn sample_clock scenario_A)
              = Some (mkMeta (lit "My Gw") (Value testnet) (Value vps)
                        (Value same_vps) (Some (lit "api.example.com"))
                        (Value []) (sample_clock 0)))
    by (vm_compute; reflexivity).
  split; [exact H | ].
  exact (proj1 (projectName_kept_valid GoOn sample_clock) scenario_A _ H).
Defined.

(** Scenario B, in the loop after the edit; scenario A, returned. *)
Lemma createdAtIso_set_once_witness :
  (collectProjectMetadata GoOn sample_clock scenario_B
   = InEditLoop 1
       (Review (mkMeta (lit "gw") (Value testnet) (Value local) (Value vercel)
                  None (Value []) (sample_clock 0))) /\
   0 < 1 /\ sample_clock 0 = sample_clock (pred 1)) /\
  exists ins1 k ins2 reads,
    scenario_A = ins1 ++ Choose k :: ins2 /\
    collectProjectMetadata GoOn sample_clock ins1
    = InEditLoop reads
        (Review (mkMeta (lit "My Gw") (Value testnet) (Value vps)
                   (Value same_vps) (Some (lit "api.example.com")) (Value [])
                   (sample_clock 0))) /\
    0 < reads /\ sample_clock 0 = sample_clock (pred reads).
Proof.
  assert (H : collectProjectMetadata GoOn sample_clock scenario_B
              = InEditLoop 1
                  (Review (mkMeta (lit "gw") (Value testnet) (Value local)
                             (Value vercel) None (Value []) (sample_clock 0))))
    by (vm_compute; reflexivity).
  assert (Ha : collectProjectMetadata GoOn sample_clock scenario_A
               = Returned
                   (Some (mkMeta (lit "My Gw") (Value testnet) (Value vps)
                            (Value same_vps) (Some (lit "api.example.com"))
                            (Value []) (sample_clock 0))))
    by (vm_compute; reflexivity).
  split; [split; [exact H | ] | ].
  - exact (proj1 (proj2 (proj2 (proj2 (proj2 (proj2 (proj2
             (createdAtIso_set_once GoOn sample_clock)))))))
             scenario_B _ _ H).
  - exact (proj2 (proj2 (proj2 (proj2 (proj2 (proj2 (proj2
             (createdAtIso_set_once GoOn sample_clock)))))))
             scenario_A _ Ha).
Defined.



(* ================================================================== *)
(** * Stored domains are fixed points of the normalizer *)

Lemma strip_prefix_Some (p s r : str) : strip_prefix p s = Some r -> s = p ++ r.
Proof.
  revert s. induction p as [ | c p IH]; intros s; simpl.
  - intros [= ->]. reflexivity.
  - destruct s as [ | x s]; [discriminate | ].
    destruct (Ascii.eqb_spec c x) as [-> | ]; [ | discriminate].
    intros H. f_equal. apply IH, H.
Qed.

Lemma spec_strip_scheme_incl (t : str) (c : ascii) :
  In c (spec_strip_scheme t) -> In c t.
Proof.
  unfold spec_strip_scheme.
  destruct (strip_prefix (lit "http://") t) as [r | ] eqn:E1.
  - apply strip_prefix_Some in E1. subst t. intros H. apply in_or_app. auto.
  - destruct (strip_prefix (lit "https://") t) as [r | ] eqn:E2; simpl; auto.
    apply strip_prefix_Some in E2. subst t. intros H. apply in_or_app. auto.
Qed.

Lemma drop_slashes_incl (l : str) (c : ascii) : In c (drop_slashes l) -> In c l.
Proof.
  induction l as [ | x l IH]; simpl; auto.
  destruct (Ascii.eqb x "/"); simpl; auto.
Qed.

Lemma spec_strip_trailing_incl (t : str) (c : ascii) :
  In c (spec_strip_trailing_slashes t) -> In c t.
Proof.
  unfold spec_strip_trailing_slashes. intros H.
  apply in_rev, drop_slashes_incl, in_rev in H. exact H.
Qed.

Lemma normalized_nonempty (v d : str) :
  normalizeDomain (Some v) = Some d ->
  d <> [] /\ d = spec_strip_trailing_slashes (spec_strip_scheme (toLowerCase (trim v))).
Proof.
  rewrite normalizeDomain_spec. unfold spec_normalizeDomain, or_null.
  destruct (spec_strip_trailing_slashes _) as [ | c t]; [discriminate | ].
  intros [= <-]. split; [discriminate | reflexivity].
Qed.

Lemma lower_char_idem (c : ascii) : lower_char (lower_char c) = lower_char c.
Proof. by_cases_on c. Qed.

(** What [normalizeDomain] returns is in lower case. *)
Lemma normalized_lowered (v d : str) :
  normalizeDomain (Some v) = Some d -> toLowerCase d = d.
Proof.
  intros H. apply normalized_nonempty in H. destruct H as [_ Hd].
  unfold toLowerCase. rewrite <- (map_id d) at 2. apply map_ext_in.
  intros c Hc. rewrite Hd in Hc.
  apply spec_strip_trailing_incl, spec_strip_scheme_incl in Hc.
  unfold toLowerCase in Hc. apply in_map_iff in Hc.
  destruct Hc as (x & <- & _). apply lower_char_idem.
Qed.

Lemma label_host_char (c : ascii) : is_label_char c = true -> host_char c = true.
Proof. unfold host_char. intros ->. reflexivity. Qed.

Lemma letter_host_char (c : ascii) : is_letter c = true -> host_char c = true.
Proof. unfold host_char, is_label_char. intros ->. reflexivity. Qed.

Lemma digit_host_char (c : ascii) : is_digit c = true -> host_char c = true.
Proof.
  unfold host_char, is_label_char. intros ->. rewrite orb_true_r. reflexivity.
Qed.

Lemma forallb_impl {A} (p q : A -> bool) (l : list A) :
  (forall x, p x = true -> q x = true) -> forallb p l = true -> forallb q l = true.
Proof.
  intros Hpq. rewrite !forallb_forall. auto.
Qed.

Lemma dotted_host_chars (labels : list str) :
  Forall spec_label labels -> forallb host_char (dotted labels) = true.
Proof.
  induction 1 as [ | l labels (_ & Hl & _) _ IH]; [reflexivity | ].
  unfold dotted in *. cbn [map concat]. rewrite !forallb_app, IH.
  rewrite (forallb_impl _ _ l label_host_char Hl). reflexivity.
Qed.

(** A string in lower case that the validator accepts consists of letters,
    digits, hyphens, dots and colons. *)
Lemma valid_host_chars (d : str) :
  spec_domain d -> toLowerCase d = d -> forallb host_char d = true.
Proof.
  intros [(labels & top & _ & Hl & [_ Htop] & ->) | Hloc] Hlow.
  - rewrite forallb_app, dotted_host_chars by exact Hl.
    apply (forallb_impl _ _ top letter_host_char Htop).
  - unfold spec_localhost in Hloc. rewrite Hlow in Hloc.
    destruct Hloc as [-> | (ds & _ & Hds & ->)]; [reflexivity | ].
    rewrite forallb_app. apply (forallb_impl _ _ ds digit_host_char Hds).
Qed.

Lemma host_char_plain (c : ascii) :
  host_char c = true -> is_ws c = false /\ c <> "/"%char.
Proof.
  intros H. split; [revert H; by_cases_on c | intros ->; discriminate].
Qed.

(** [trim] of a string without white space. *)
Lemma trim_no_ws (s : str) :
  (forall c, In c s -> is_ws c = false) -> trim s = s.
Proof.
  intros H. unfold trim, trimEnd.
  rewrite (trimStart_fixed s).
  - rewrite (trimStart_fixed (rev s)); [apply rev_involutive | ].
    intros c t Heq. apply H, in_rev. rewrite Heq. left. reflexivity.
  - intros c t ->. apply H. left. reflexivity.
Qed.

Lemma strip_scheme_no_slash (t : str) :
  ~ In "/"%char t -> spec_strip_scheme t = t.
Proof.
  intros H. unfold spec_strip_scheme.
  destruct (strip_prefix (lit "http://") t) as [r | ] eqn:E1.
  - apply strip_prefix_Some in E1. subst t. exfalso. apply H. simpl. tauto.
  - destruct (strip_prefix (lit "https://") t) as [r | ] eqn:E2; [ | reflexivity].
    apply strip_prefix_Some in E2. subst t. exfalso. apply H. simpl. tauto.
Qed.

Lemma strip_trailing_no_slash (t : str) :
  ~ In "/"%char t -> spec_strip_trailing_slashes t = t.
Proof.
  intros H. unfold spec_strip_trailing_slashes.
  replace (drop_slashes (rev t)) with (rev t); [apply rev_involutive | ].
  destruct (rev t) as [ | x l] eqn:E; [reflexivity | ]. simpl.
  destruct (Ascii.eqb_spec x "/") as [-> | ]; [ | reflexivity].
  exfalso. apply H, in_rev. rewrite E. left. reflexivity.
Qed.

(** A normalized string that the validator accepts is normalized to
    itself. *)
Lemma normalizeDomain_settles (v d : str) :
  normalizeDomain (Some v) = Some d -> domainLooksValid d = true ->
  normalizeDomain (Some d) = Some d.
Proof.
  intros Hn Hv.
  pose proof (normalized_lowered v d Hn) as Hlow.
  destruct (normalized_nonempty v d Hn) as [Hne _].
  pose proof (valid_host_chars d (domainLooksValid_sound d Hv) Hlow) as Hch.
  rewrite forallb_forall in Hch.
  assert (Hws : forall c, In c d -> is_ws c = false)
    by (intros c Hc; apply host_char_plain, Hch, Hc).
  assert (Hsl : ~ In "/"%char d)
    by (intros Hc; apply Hch, host_char_plain in Hc; destruct Hc; congruence).
  rewrite normalizeDomain_spec. unfold spec_normalizeDomain.
  rewrite (trim_no_ws d Hws), Hlow, (strip_scheme_no_slash d Hsl),
    (strip_trailing_no_slash d Hsl).
  destruct d; [congruence | reflexivity].
Qed.

Lemma validated_settled (od : OnDismiss) (v : str) (meta : ProjectMetadata) :
  validate_domain v = None -> domain meta = normalizeDomain (Some v) ->
  domain_settled od meta.
Proof.
  unfold validate_domain, domain_settled. intros Hv ->.
  destruct (normalizeDomain (Some v)) as [d | ] eqn:Hn; [ | exact I].
  destruct (domainLooksValid d) eqn:Hd; [ | discriminate]. left.
  split; [apply (normalizeDomain_settles v d Hn Hd) | reflexivity].
Qed.

Lemma settled_same (od : OnDismiss) (meta meta' : ProjectMetadata) :
  domain meta' = domain meta -> domain_settled od meta -> domain_settled od meta'.
Proof. unfold domain_settled. intros ->. auto. Qed.

Lemma settled_asked (od : OnDismiss) (p : Pass) (i : Input) (r : Results)
    (now : str) (meta : ProjectMetadata) :
  pass_ok od p -> group od p i = inr (Got r) ->
  askAll_end now (Got r) = Some meta ->
  domain_settled od meta.
Proof.
  intros Hp Hg Ha. destruct (pass_ok_results od p i r Hp Hg) as [_ Hd].
  destruct (asked_fields now r meta Ha) as (_ & _ & _ & Hdm & _).
  destruct Hd as [Hv | [Hod Hc]].
  - apply (validated_settled od (r_domain r)); assumption.
  - unfold domain_settled. rewrite Hdm, Hc, normalizeDomain_canceled. auto.
Qed.

Lemma settled_edit (od : OnDismiss) (e : EditPoint) (i : Input)
    (meta' : ProjectMetadata) :
  domain_settled od (meta_of e) -> object_of (editLoop e i) = Some meta' ->
  domain_settled od meta'.
Proof.
  intros Hm H. apply editLoop_object in H.
  destruct H as [-> | (field & _ & H)]; [exact Hm | ].
  set (m := meta_of e) in *. apply edit_field_object in H.
  destruct H as [-> | H]; [exact Hm | ].
  destruct field.
  - destruct H as (v & _ & _ & ->). exact Hm.
  - destruct H as (k & _ & ->). exact Hm.
  - destruct H as (k & _ & ->). apply (settled_same od m); [ | exact Hm].
    apply (normalize_frame (set_deploymentType m _)).
  - destruct H as (k & _ & ->). exact Hm.
  - destruct H as (v & _ & Hv & ->).
    apply (validated_settled od v); [exact Hv | reflexivity].
  - destruct H as (ig & ks & _ & _ & ->). exact Hm.
Qed.

(** The three rules together, of every object of a run. *)
Lemma rules_hold (od : OnDismiss) (clock : nat -> str) (ins : list Input) :
  holds (pass_ok od)
    (fun m => hosting_consistent m /\ name_ok m /\ domain_settled od m)
    (collectProjectMetadata od clock ins).
Proof.
  apply holds_collect.
  - apply pass_ok_group.
  - intros p i r now m Hp Hg Ha. split; [ | split].
    + apply (asked_fields now r m Ha).
    + eapply name_asked; eauto.
    + eapply settled_asked; eauto.
  - intros e i meta' _ (H1 & H2 & H3) He. split; [ | split].
    + eapply hosting_edit; eauto.
    + eapply name_edit; eauto.
    + eapply settled_edit; eauto.
  - exact I.
Qed.

Lemma rules_collect (od : OnDismiss) (clock : nat -> str) (ins : list Input)
    (meta : ProjectMetadata) :
  held (collectProjectMetadata od clock ins) = Some meta ->
  hosting_consistent meta /\ name_ok meta /\ domain_settled od meta.
Proof.
  intros Hh.
  exact (holds_held _ _ _ meta (rules_hold od clock ins) Hh).
Qed.

Lemma rules_loop (od : OnDismiss) (clock : nat -> str) (ins : list Input)
    (reads : nat) (e : EditPoint) :
  collectProjectMetadata od clock ins = InEditLoop reads e ->
  is_array (meta_of e) /\ hosting_consistent (meta_of e) /\
  name_ok (meta_of e) /\ domain_settled od (meta_of e).
Proof.
  intros Hrun. pose proof (rules_hold od clock ins) as H.
  rewrite Hrun in H. exact H.
Qed.


(* ================================================================== *)
(** * Accepted domains and the normalizer *)

(** X3: A string that [normalizeDomain] returns and [domainLooksValid] accepts
    is returned unchanged when it is normalized again, and the validator of
    the domain prompt lets it through.  Without the validator this fails:
    [normalizeDomain] removes one scheme at a time. *)
Theorem normalizeDomain_fixes_accepted :
  (forall v d,
     normalizeDomain (Some v) = Some d -> domainLooksValid d = true ->
     normalizeDomain (Some d) = Some d /\ validate_domain d = None) /\
  (normalizeDomain (Some (lit "http://http://a.com")) = Some (lit "http://a.com") /\
   normalizeDomain (Some (lit "http://a.com")) = Some (lit "a.com")).
Proof.
  split.
  - intros v d Hn Hv.
    pose proof (normalizeDomain_settles v d Hn Hv) as Hd.
    split; [exact Hd | ].
    unfold validate_domain. rewrite Hd, Hv. reflexivity.
  - split; vm_compute; reflexivity.
Qed.

(* ================================================================== *)
(** * Accepting what a re-prompt offers *)

Lemma accept_name (meta : ProjectMetadata) :
  is_array meta -> name_ok meta ->
  edit_field f_projectName meta (accept_initial f_projectName meta)
  = Awaits (Review meta).
Proof.
  intros Ha [Htrim Hlen]. unfold edit_field, assign, accept_initial, text.
  cbn [validate prompts_projectName t_initialValue nullish].
  assert (Hv : validate_projectName (projectName meta) = None).
  { apply validate_projectName_None. rewrite Htrim. split; [ | lia].
    destruct (projectName meta); [simpl in Hlen; lia | discriminate]. }
  rewrite Hv, Htrim.
  replace (set_projectName meta (projectName meta)) with meta
    by (destruct meta; reflexivity).
  apply loop_head_array, Ha.
Qed.

Lemma accept_domain (od : OnDismiss) (meta : ProjectMetadata) :
  is_array meta -> domain_settled od meta -> domain meta <> Some canceled ->
  edit_field f_domain meta (accept_initial f_domain meta) = Awaits (Review meta).
Proof.
  intros Ha Hs Hc.
  unfold domain_settled in Hs. unfold edit_field, assign, accept_initial, text.
  cbn [validate prompts_domain t_initialValue nullish].
  destruct (domain meta) as [dm | ] eqn:Hdm; cbn [nullish].
  - destruct Hs as [[Hn Hv] | [_ ->]]; [ | congruence].
    unfold validate_domain. rewrite Hn, Hv. cbv beta iota. rewrite Hn.
    replace (set_domain meta (Some dm)) with meta
      by (destruct meta as [n nw d f dm0 ig c]; cbn [domain] in Hdm; subst;
          reflexivity).
    apply loop_head_array, Ha.
  - change (validate_domain []) with (@None str). cbv beta iota.
    match goal with
    | |- loop_head ?m = _ =>
        replace m with meta
          by (destruct meta as [n nw d f dm0 ig c]; cbn [domain] in Hdm; subst;
              reflexivity)
    end.
    apply loop_head_array, Ha.
Qed.

(** The string 'canceled' in the field is what the re-prompt of the domain
    opens on, and the validator of the prompt rejects it. *)
Lemma accept_canceled_domain (meta : ProjectMetadata) :
  domain meta = Some canceled ->
  text (prompts_domain (Some (domain meta))) (accept_initial f_domain meta)
  = Rejected msg_domain /\
  edit_field f_domain meta (accept_initial f_domain meta)
  = Awaits (EditField f_domain meta).
Proof.
  intros Hd. unfold edit_field, assign, accept_initial.
  rewrite Hd. split; reflexivity.
Qed.

(** X4: Wherever a run is in the edit loop, taking the re-prompt of a field
    as it opens leaves the configuration as it is, unless the field holds
    the string 'canceled' of a dismissed prompt: the prefilled project name
    and domain pass their validators and are stored as they were, the
    cursor of each selection starts on the stored value, and the boxes
    checked are the stored integrations.  On the string 'canceled' the
    selections start on their first option, so that Enter stores mainnet,
    vps, and same_vps or (for local) vercel; the domain re-prompt opens on
    the string and rejects it. *)
Theorem accept_initial_changes_nothing (od : OnDismiss) (clock : nat -> str)
    (ins : list Input) (reads : nat) (e : EditPoint) :
  collectProjectMetadata od clock ins = InEditLoop reads e ->
  let meta := meta_of e in
  (forall field,
     ~ holds_canceled field meta ->
     edit_field field meta (accept_initial field meta) = Awaits (Review meta)) /\
  (network meta = Canceled ->
   edit_field f_network meta (accept_initial f_network meta)
   = Awaits (Review (mkMeta (projectName meta) (Value mainnet)
                       (deploymentType meta) (frontendHosting meta)
                       (domain meta) (integrations meta) (createdAtIso meta)))) /\
  (deploymentType meta = Canceled ->
   edit_field f_deploymentType meta (accept_initial f_deploymentType meta)
   = Awaits (Review (mkMeta (projectName meta) (network meta) (Value vps)
                       (frontendHosting meta) (domain meta) (integrations meta)
                       (createdAtIso meta)))) /\
  (frontendHosting meta = Canceled ->
   edit_field f_frontendHosting meta (accept_initial f_frontendHosting meta)
   = Awaits (Review (mkMeta (projectName meta) (network meta)
                       (deploymentType meta)
                       match deploymentType meta with
                       | Value local => Value vercel
                       | _ => Value same_vps
                       end
                       (domain meta) (integrations meta) (createdAtIso meta)))) /\
  (domain meta = Some (lit "canceled") ->
   text (prompts_domain (Some (domain meta))) (accept_initial f_domain meta)
   = Rejected msg_domain /\
   edit_field f_domain meta (accept_initial f_domain meta)
   = Awaits (EditField f_domain meta)).
Proof.
  intros Hrun meta. apply rules_loop in Hrun. fold meta in Hrun.
  destruct Hrun as (Ha & Hh & Hn & Hd). pose proof Ha as [ig Hig].
  assert (Hhead : forall m, integrations m = Value ig ->
            loop_head m = Awaits (Review m)).
  { intros m Hm. apply loop_head_array. exists ig. exact Hm. }
  split; [ | split; [ | split; [ | split]]].
  - intros field Hnc. destruct field; cbn [holds_canceled] in Hnc.
    + apply accept_name; assumption.
    + destruct meta as [n [nw | ] d f dm igs c];
        [ | exfalso; apply Hnc; reflexivity].
      cbn [integrations] in Hig. subst igs. destruct nw; reflexivity.
    + destruct meta as [n nw [d | ] f dm igs c];
        [ | exfalso; apply Hnc; reflexivity].
      cbn [integrations] in Hig. subst igs.
      destruct d, f as [[ | | ] | ]; try reflexivity.
      exfalso. apply (Hh eq_refl). reflexivity.
    + destruct meta as [n nw d [f | ] dm igs c];
        [ | exfalso; apply Hnc; reflexivity].
      cbn [integrations] in Hig. subst igs.
      destruct d as [[ | ] | ], f; try reflexivity.
      exfalso. apply (Hh eq_refl). reflexivity.
    + apply (accept_domain od); assumption.
    + unfold edit_field. rewrite Hig.
      cbn [assign accept_initial multiselect toggles prompts_integrations
           initialValues nullish].
      replace (set_integrations meta (Value ig)) with meta
        by (destruct meta as [n nw d f dm igs c]; cbn [integrations] in Hig;
            subst; reflexivity).
      apply Hhead, Hig.
  - intros Hc. destruct meta as [n nw d f dm igs c]. cbn [network] in Hc.
    cbn [integrations] in Hig. subst nw igs. reflexivity.
  - intros Hc. destruct meta as [n nw d f dm igs c]. cbn [deploymentType] in Hc.
    cbn [integrations] in Hig. subst d igs. destruct f as [[ | | ] | ]; reflexivity.
  - intros Hc. destruct meta as [n nw d f dm igs c]. cbn [frontendHosting] in Hc.
    cbn [integrations] in Hig. subst f igs. destruct d as [[ | ] | ]; reflexivity.
  - apply accept_canceled_domain.
Qed.

(* ================================================================== *)
(** * What an edit touches *)

(** X5: The edit of a field leaves every other field as it was, with one
    exception: the edit of the deployment type may turn the frontend hosting
    from same_vps to vercel, and does so only when the new deployment type
    is local.  [createdAtIso] is never touched.  This is so of the object
    that the edit leaves, whether the review prompt opens on it again, the
    re-prompt stays open or the summary throws. *)
Theorem edit_touches_one_field (field : Field) (meta meta' : ProjectMetadata)
    (i : Input) :
  object_of (edit_field field meta i) = Some meta' ->
  (field <> f_projectName -> projectName meta' = projectName meta) /\
  (field <> f_network -> network meta' = network meta) /\
  (field <> f_deploymentType -> deploymentType meta' = deploymentType meta) /\
  (field <> f_frontendHosting -> field <> f_deploymentType ->
   frontendHosting meta' = frontendHosting meta) /\
  (field = f_deploymentType ->
   frontendHosting meta' = frontendHosting meta \/
   frontendHosting meta = Value same_vps /\
   frontendHosting meta' = Value vercel /\
   deploymentType meta' = Value local) /\
  (field <> f_domain -> domain meta' = domain meta) /\
  (field <> f_integrations -> integrations meta' = integrations meta) /\
  createdAtIso meta' = createdAtIso meta.
Proof.
  intros H. apply edit_field_object in H.
  destruct H as [-> | H]; [repeat split; auto | ].
  destruct field.
  - destruct H as (v & _ & _ & ->). repeat split; simpl; congruence.
  - destruct H as (k & _ & ->). repeat split; simpl; congruence.
  - destruct H as (k & _ & ->).
    set (v := highlighted _ k).
    destruct meta as [n nw d f dm ig c],
      v as [[ | ] | ], f as [[ | | ] | ]; simpl;
      repeat split; auto; congruence.
  - destruct H as (k & _ & ->). repeat split; simpl; congruence.
  - destruct H as (v & _ & _ & ->). repeat split; simpl; congruence.
  - destruct H as (ig & ks & _ & _ & ->). repeat split; simpl; congruence.
Qed.

(* ================================================================== *)
(** * The integrations *)

Lemma Integration_eqb_eq (a b : Integration) : eqb a b = true <-> a = b.
Proof. destruct a, b; vm_compute; split; congruence. Qed.

Lemma toggle_NoDup (value : list Integration) (a : Integration) :
  NoDup value -> NoDup (toggle value a).
Proof.
  intros Hv. unfold toggle.
  destruct (existsb (fun y => eqb y a) value) eqn:E.
  - apply NoDup_filter, Hv.
  - replace (value ++ [a]) with (rev (a :: rev value))
      by (simpl; rewrite rev_involutive; reflexivity).
    apply NoDup_rev. constructor; [ | apply NoDup_rev, Hv].
    intros Hin. apply in_rev in Hin.
    assert (Ht : existsb (fun y => eqb y a) value = true).
    { apply existsb_exists. exists a. split; [exact Hin | ].
      apply Integration_eqb_eq. reflexivity. }
    congruence.
Qed.

Lemma toggles_NoDup (opts : list Integration) (ks : list nat) :
  forall value, NoDup value -> NoDup (toggles opts value ks).
Proof.
  induction ks as [ | k ks IH]; intros value Hv; simpl; [exact Hv | ].
  destruct (nth_error opts k); apply IH; [apply toggle_NoDup | ]; exact Hv.
Qed.

Lemma multiselect_NoDup (s : MultiSelect Integration) (i : Input)
    (v : list Integration) :
  NoDup (initialValues s) -> multiselect s i = Answer v -> NoDup v.
Proof.
  intros Hs. destruct i; simpl; try discriminate.
  intros [= <-]. apply toggles_NoDup, Hs.
Qed.

Lemma NoDup_two (l : list Integration) : NoDup l -> length l <= 2.
Proof.
  intros Hl. change 2 with (length [stripe; auth]).
  apply NoDup_incl_length; [exact Hl | ].
  intros [ | ] _; simpl; auto.
Qed.

Lemma integrations_asked (od : OnDismiss) (p : Pass) (i : Input) (r : Results)
    (now : str) (meta : ProjectMetadata) :
  group od p i = inr (Got r) -> askAll_end now (Got r) = Some meta ->
  distinct meta.
Proof.
  intros Hg Ha ig Hig.
  destruct (asked_fields now r meta Ha) as (_ & _ & _ & _ & Hr & _).
  rewrite Hr in Hig. apply group_ends in Hg.
  destruct Hg as (n & nw & d & f & dm & _ & [(-> & _) | (ks & _ & ->)]);
    [discriminate | ].
  injection Hig as <-. apply toggles_NoDup. constructor.
Qed.

Lemma integrations_edit (e : EditPoint) (i : Input) (meta' : ProjectMetadata) :
  distinct (meta_of e) -> object_of (editLoop e i) = Some meta' ->
  distinct meta'.
Proof.
  intros Hm H. apply editLoop_object in H.
  destruct H as [-> | (field & _ & H)]; [exact Hm | ].
  set (m := meta_of e) in *. apply edit_field_object in H.
  destruct H as [-> | H]; [exact Hm | ].
  destruct field.
  - destruct H as (v & _ & _ & ->). exact Hm.
  - destruct H as (k & _ & ->). exact Hm.
  - destruct H as (k & _ & ->). unfold distinct.
    rewrite normalize_integrations. exact Hm.
  - destruct H as (k & _ & ->). exact Hm.
  - destruct H as (v & _ & _ & ->). exact Hm.
  - destruct H as (ig & ks & Hig & _ & ->). intros ig' [= <-].
    apply toggles_NoDup, Hm, Hig.
Qed.

Lemma distinct_collect (od : OnDismiss) (clock : nat -> str) (ins : list Input) :
  holds (fun _ => True) distinct (collectProjectMetadata od clock ins).
Proof.
  apply holds_collect; auto.
  - intros p i r now m _. apply integrations_asked.
  - intros e i meta' _. apply integrations_edit.
Qed.

(** X6: No integration is listed twice: a multiselect that opens on a value
    without repetition answers with one, and in every configuration that a
    run has in the edit loop or returns the integrations are an array free
    of repetition, so at most two.  The one object of a run whose
    integrations are no array is the object of a pass whose integrations
    prompt was dismissed: they are the string 'canceled', and
    [collectProjectMetadata] ends by the TypeError of the summary, before
    the object is shown. *)
Theorem integrations_never_repeat (od : OnDismiss) (clock : nat -> str) :
  (forall (s : MultiSelect Integration) i v,
     NoDup (initialValues s) -> multiselect s i = Answer v -> NoDup v) /\
  (forall ins meta,
     held (collectProjectMetadata od clock ins) = Some meta ->
     match integrations meta with
     | Value ig => NoDup ig /\ length ig <= 2
     | Canceled => collectProjectMetadata od clock ins = Threw meta
     end) /\
  (forall ins meta,
     collectProjectMetadata od clock ins = Threw meta ->
     integrations meta = Canceled /\ od = GoOn) /\
  collectProjectMetadata GoOn clock
    [Line (lit "gw"); Choose 0; Choose 0; Choose 0; Line []; Esc]
  = Threw (mkMeta (lit "gw") (Value testnet) (Value vps) (Value same_vps) None
             Canceled (clock 0)).
Proof.
  split; [apply multiselect_NoDup | ]. split; [ | split].
  - intros ins meta Hh. pose proof (distinct_collect od clock ins) as H.
    destruct (integrations meta) as [ig | ] eqn:Hig.
    + pose proof (holds_held _ distinct _ meta H Hh ig Hig) as Hn.
      split; [exact Hn | apply NoDup_two, Hn].
    + destruct (collectProjectMetadata od clock ins) as [ | reads e | [m | ] | m | ];
        cbn [held] in Hh; try discriminate; injection Hh as <-;
        cbn [holds] in H.
      * destruct H as [[ig Ha] _]. congruence.
      * destruct H as [[ig Ha] _]. congruence.
      * reflexivity.
  - intros ins meta Hrun. split.
    + pose proof (collect_charted od clock ins) as H. rewrite Hrun in H. apply H.
    + apply threw_trace in Hrun.
      destruct Hrun as (ins1 & ins2 & reads & n & nw & d & f & dm & _ & _ & Hod & _).
      exact Hod.
  - vm_compute. reflexivity.
Qed.

(* ================================================================== *)
(** * The provisions for a hosting that does not fit *)

Lemma local_hosting_answer (initial : option (slot FrontendHosting)) (i : Input)
    (f : slot FrontendHosting) :
  select (prompts_frontendHosting (Value local) initial) i = Answer f ->
  f <> Value same_vps.
Proof.
  intros Hs. apply select_answer in Hs. destruct Hs as (k & _ & ->).
  pose proof (highlighted_In (prompts_frontendHosting (Value local) initial) k) as Hin.
  simpl in Hin. destruct Hin as [E | [E | []]]; try discriminate;
    rewrite <- E; discriminate.
Qed.

Lemma pass_consistent_group (od : OnDismiss) (p : Pass) (i : Input) (p' : Pass) :
  pass_consistent p -> group od p i = inl p' -> pass_consistent p'.
Proof.
  destruct p; unfold group, ask; intros Hp.
  - destruct (text _ i); destruct od; intros [= <-]; exact I.
  - destruct (select _ i); destruct od; intros [= <-]; exact I.
  - destruct (select _ i); destruct od; intros [= <-]; exact I.
  - destruct (select _ i) as [f | | | ] eqn:Hs; destruct od; intros [= <-];
      try exact I; simpl; unfold slots_consistent; intros ->;
      try discriminate; apply local_hosting_answer in Hs; exact Hs.
  - destruct (text _ i); destruct od; intros [= <-]; exact Hp.
  - destruct (multiselect _ i); destruct od; intros [= <-]; exact Hp.
Qed.

Lemma pass_consistent_collect (od : OnDismiss) (clock : nat -> str)
    (ins : list Input) :
  holds pass_consistent (fun _ => True) (collectProjectMetadata od clock ins).
Proof.
  apply holds_collect; [apply pass_consistent_group | auto | auto | exact I].
Qed.

(** X7: The two provisions of the code for a frontend hosting that does not fit
    the deployment type never come into play.  At the end of every pass,
    also of one with dismissed prompts, [normalizeFrontendHosting] finds
    nothing to change: the configuration is made of the results as they
    are.  In the edit loop the initial value of the frontend hosting
    re-prompt is what the field holds, in every configuration of a run. *)
Theorem hosting_provisions_idle (od : OnDismiss) (clock : nat -> str) :
  (forall ins reads p i r meta,
     collectProjectMetadata od clock ins = InAskAll reads p ->
     group od p i = inr (Got r) ->
     askAll_end (clock reads) (Got r) = Some meta ->
     meta = mkMeta (trim (r_projectName r)) (r_network r) (r_deploymentType r)
              (r_frontendHosting r) (normalizeDomain (Some (r_domain r)))
              (r_integrations r) (clock reads)) /\
  (forall ins meta i,
     held (collectProjectMetadata od clock ins) = Some meta ->
     edit_field f_frontendHosting meta i
     = assign (EditField f_frontendHosting meta) meta
         (select (prompts_frontendHosting (deploymentType meta)
                    (Some (frontendHosting meta))) i)
         (fun v => set_frontendHosting meta v)).
Proof.
  split.
  - intros ins reads p i r meta Hc Hg Ha.
    pose proof (pass_consistent_collect od clock ins) as Hp.
    rewrite Hc in Hp. cbn [holds] in Hp.
    assert (Hr : slots_consistent (r_deploymentType r) (r_frontendHosting r)).
    { apply group_ends in Hg.
      destruct Hg as (n & nw & d & f & dm & -> & [(-> & _) | (ks & _ & ->)]);
        exact Hp. }
    cbn [askAll_end] in Ha. injection Ha as <-.
    apply normalize_fixes. exact Hr.
  - intros ins meta i Hh. apply rules_collect in Hh. destruct Hh as (Hh & _).
    destruct meta as [n nw [[ | ] | ] [[ | | ] | ] dm ig c]; try reflexivity.
    exfalso. apply (Hh eq_refl). reflexivity.
Qed.


(* ================================================================== *)
(** * [split] *)

Lemma split_nonempty (sep : ascii) (s : str) : split sep s <> [].
Proof.
  induction s as [ | c t IH]; simpl; [discriminate | ].
  destruct (Ascii.eqb c sep); [discriminate | ].
  destruct (split sep t); [congruence | discriminate].
Qed.

(** The segments of [a ++ sep :: b] are those of [a], then those of [b]. *)
Lemma split_app_sep (sep : ascii) (a b : str) :
  split sep (a ++ sep :: b) = split sep a ++ split sep b.
Proof.
  induction a as [ | c a IH]; simpl.
  - rewrite Ascii.eqb_refl. reflexivity.
  - destruct (Ascii.eqb c sep); [rewrite IH; reflexivity | ].
    rewrite IH. pose proof (split_nonempty sep a) as Hne.
    destruct (split sep a); [congruence | reflexivity].
Qed.

(* ================================================================== *)
(** * [compareSemver] on any strings *)

Section SemverLaws.

Variable num : Type.
Variable Number : str -> num.
Variable zero : num.
Variable lt gt : num -> num -> bool.

(** [x > y] is [y < x], and [x < y] excludes [y < x]; both hold of the
    Number values, NaN included. *)
Hypothesis gt_lt : forall x y, gt x y = lt y x.
Hypothesis lt_asym : forall x y, lt x y = true -> lt y x = false.

Lemma js_lt_irrefl (x : num) : lt x x = false.
Proof.
  destruct (lt x x) eqn:E; [ | reflexivity].
  rewrite (lt_asym x x E) in E. discriminate.
Qed.

Lemma compare_loop_swap (pa pb : list num) (turns : nat) :
  forall i,
    compare_loop num zero lt gt pb pa turns i
    = (- compare_loop num zero lt gt pa pb turns i)%Z.
Proof.
  induction turns as [ | turns IH]; intros i; [reflexivity | ].
  cbn [compare_loop].
  set (x := nullish (nth_error pa i) zero).
  set (y := nullish (nth_error pb i) zero).
  rewrite !gt_lt.
  destruct (lt y x) eqn:Eyx.
  - rewrite (lt_asym y x Eyx). reflexivity.
  - destruct (lt x y); [reflexivity | apply IH].
Qed.

Lemma compareSemver_swap (a b : str) :
  compareSemver num Number zero lt gt b a
  = (- compareSemver num Number zero lt gt a b)%Z.
Proof.
  unfold compareSemver. rewrite Nat.max_comm. apply compare_loop_swap.
Qed.

(** Past the end of both arrays the loop finds nothing. *)
Lemma compare_loop_past (pa pb : list num) (turns : nat) :
  forall i,
    length pa <= i -> length pb <= i ->
    compare_loop num zero lt gt pa pb turns i = 0%Z.
Proof.
  induction turns as [ | turns IH]; intros i Ha Hb; [reflexivity | ].
  cbn [compare_loop].
  rewrite (proj2 (nth_error_None pa i) Ha), (proj2 (nth_error_None pb i) Hb).
  cbn [nullish]. rewrite gt_lt, js_lt_irrefl. apply IH; lia.
Qed.

Lemma compare_loop_more (pa pb : list num) (more turns : nat) :
  forall i,
    length pa <= i + turns -> length pb <= i + turns ->
    compare_loop num zero lt gt pa pb (turns + more) i
    = compare_loop num zero lt gt pa pb turns i.
Proof.
  induction turns as [ | turns IH]; intros i Ha Hb.
  - cbn [Nat.add compare_loop]. apply compare_loop_past; lia.
  - cbn [Nat.add compare_loop]. rewrite IH by lia. reflexivity.
Qed.

(** The loop sees the arrays through [pa[i] ?? 0] only. *)
Lemma compare_loop_ext (pa pa' pb pb' : list num) (turns : nat) :
  (forall i, nullish (nth_error pa' i) zero = nullish (nth_error pa i) zero) ->
  (forall i, nullish (nth_error pb' i) zero = nullish (nth_error pb i) zero) ->
  forall i,
    compare_loop num zero lt gt pa' pb' turns i
    = compare_loop num zero lt gt pa pb turns i.
Proof.
  intros Ha Hb. induction turns as [ | turns IH]; intros i; [reflexivity | ].
  cbn [compare_loop]. rewrite Ha, Hb, IH. reflexivity.
Qed.

Lemma nth_padded (pa : list num) (i : nat) :
  nullish (nth_error (pa ++ [zero]) i) zero = nullish (nth_error pa i) zero.
Proof.
  destruct (Nat.lt_ge_cases i (length pa)) as [Hlt | Hge].
  - rewrite nth_error_app1 by exact Hlt. reflexivity.
  - rewrite nth_error_app2 by exact Hge.
    rewrite (proj2 (nth_error_None pa i) Hge).
    destruct (i - length pa) as [ | [ | k]]; reflexivity.
Qed.

Lemma compare_loop_pad_left (pa pb : list num) :
  compare_loop num zero lt gt (pa ++ [zero]) pb
    (Nat.max (length (pa ++ [zero])) (length pb)) 0
  = compare_loop num zero lt gt pa pb (Nat.max (length pa) (length pb)) 0.
Proof.
  rewrite (compare_loop_ext pa (pa ++ [zero]) pb pb)
    by (intros; first [apply nth_padded | reflexivity]).
  rewrite length_app. cbn [length].
  destruct (Nat.le_gt_cases (length pa + 1) (length pb)) as [Hle | Hgt].
  - rewrite !Nat.max_r by lia. reflexivity.
  - rewrite Nat.max_l by lia.
    replace (length pa + 1) with (Nat.max (length pa) (length pb) + 1) by lia.
    apply compare_loop_more; lia.
Qed.

Lemma compareSemver_pad_left (a b : str) :
  Number (lit "0") = zero ->
  compareSemver num Number zero lt gt (a ++ lit ".0") b
  = compareSemver num Number zero lt gt a b.
Proof.
  intros H0. unfold compareSemver.
  change (a ++ lit ".0") with (a ++ "."%char :: lit "0").
  rewrite split_app_sep, map_app.
  change (map Number (split "." (lit "0"))) with [Number (lit "0")].
  rewrite H0. apply compare_loop_pad_left.
Qed.

End SemverLaws.

(* ================================================================== *)
(** * [compareSemver] on versions made of numbers *)

Lemma numeric_small (s : str) : numeric s = true -> (value s < 2 ^ 53)%N.
Proof.
  unfold numeric. intros H. apply andb_prop in H. destruct H as [_ H].
  apply N.ltb_lt, H.
Qed.

Lemma values_small (v : str) :
  numeric_version v = true -> Forall small (values v).
Proof.
  unfold numeric_version, values. intros H. rewrite forallb_forall in H.
  apply Forall_forall. intros x Hx. apply in_map_iff in Hx.
  destruct Hx as (s & <- & Hs). apply numeric_small, H, Hs.
Qed.

Lemma order_zeros_not_Lt (xs ys : list N) :
  forallb (N.eqb 0) ys = true -> version_order xs ys <> Lt.
Proof.
  revert ys. induction xs as [ | x xs IH]; intros ys Hys; cbn [version_order].
  - rewrite Hys. discriminate.
  - destruct ys as [ | y ys].
    + destruct (forallb (N.eqb 0) (x :: xs)); discriminate.
    + cbn [forallb] in Hys. apply andb_prop in Hys. destruct Hys as [Hy Hys].
      apply N.eqb_eq in Hy. subst y.
      destruct (N.compare_spec x 0) as [ | Hlt | ];
        [apply IH, Hys | lia | discriminate].
Qed.

Section SemverNumbers.

Variable num : Type.
Variable Number : str -> num.
Variable zero : num.
Variable lt gt : num -> num -> bool.

(** [of_N n] is the Number value of the natural number [n] below 2^53;
    [Number] reads a string of digits as its decimal value, and [<] on
    these values is the order of the numbers. *)
Variable of_N : N -> num.
Hypothesis gt_lt : forall x y, gt x y = lt y x.
Hypothesis zero_of : zero = of_N 0.
Hypothesis Number_numeric : forall s, numeric s = true -> Number s = of_N (value s).
Hypothesis lt_of : forall a b,
  (a < 2 ^ 53)%N -> (b < 2 ^ 53)%N -> lt (of_N a) (of_N b) = (a <? b)%N.

Lemma Numbers_numeric (v : str) :
  numeric_version v = true -> map Number (split "." v) = map of_N (values v).
Proof.
  unfold numeric_version, values. intros H. rewrite forallb_forall in H.
  rewrite map_map. apply map_ext_in. intros s Hs. apply Number_numeric, H, Hs.
Qed.

Lemma loop_cons (x y : num) (pa pb : list num) (turns : nat) :
  forall i,
    compare_loop num zero lt gt (x :: pa) (y :: pb) turns (S i)
    = compare_loop num zero lt gt pa pb turns i.
Proof.
  induction turns as [ | turns IH]; intros i; [reflexivity | ].
  cbn [compare_loop nth_error]. rewrite IH. reflexivity.
Qed.

Lemma loop_cons_r (y : num) (pb : list num) (turns : nat) :
  forall i,
    compare_loop num zero lt gt [] (y :: pb) turns (S i)
    = compare_loop num zero lt gt [] pb turns i.
Proof.
  induction turns as [ | turns IH]; intros i; [reflexivity | ].
  cbn [compare_loop]. rewrite IH, !nth_error_nil. reflexivity.
Qed.

Lemma loop_cons_l (x : num) (pa : list num) (turns : nat) :
  forall i,
    compare_loop num zero lt gt (x :: pa) [] turns (S i)
    = compare_loop num zero lt gt pa [] turns i.
Proof.
  induction turns as [ | turns IH]; intros i; [reflexivity | ].
  cbn [compare_loop]. rewrite IH, !nth_error_nil. reflexivity.
Qed.

Lemma zero_small : (0 < 2 ^ 53)%N.
Proof. reflexivity. Qed.

Lemma loop_order_nil_l (ys : list N) :
  Forall small ys ->
  compare_loop num zero lt gt [] (map of_N ys) (length ys) 0
  = sign (if forallb (N.eqb 0) ys then Eq else Lt).
Proof.
  induction 1 as [ | y ys Hy _ IH]; [reflexivity | ].
  cbn [map length compare_loop nth_error nullish forallb].
  rewrite gt_lt, zero_of, !lt_of by (exact Hy || exact zero_small).
  rewrite <- zero_of.
  destruct (N.ltb_spec y 0) as [ | _]; [lia | ].
  destruct (N.ltb_spec 0 y) as [Hpos | Hz].
  - destruct (N.eqb_spec 0 y); [lia | reflexivity].
  - replace y with 0%N by lia. cbn [N.eqb andb]. rewrite loop_cons_r. exact IH.
Qed.

Lemma loop_order_nil_r (xs : list N) :
  Forall small xs ->
  compare_loop num zero lt gt (map of_N xs) [] (length xs) 0
  = sign (if forallb (N.eqb 0) xs then Eq else Gt).
Proof.
  induction 1 as [ | x xs Hx _ IH]; [reflexivity | ].
  cbn [map length compare_loop nth_error nullish forallb].
  rewrite gt_lt, zero_of, !lt_of by (exact Hx || exact zero_small).
  rewrite <- zero_of.
  destruct (N.ltb_spec 0 x) as [Hpos | Hz].
  - destruct (N.eqb_spec 0 x); [lia | reflexivity].
  - destruct (N.ltb_spec x 0) as [ | _]; [lia | ].
    replace x with 0%N by lia. cbn [N.eqb andb]. rewrite loop_cons_l. exact IH.
Qed.

Lemma loop_order (xs : list N) :
  forall ys,
    Forall small xs -> Forall small ys ->
    compare_loop num zero lt gt (map of_N xs) (map of_N ys) (Nat.max (length xs) (length ys)) 0
    = sign (version_order xs ys).
Proof.
  induction xs as [ | x xs IH]; intros ys Hxs Hys.
  - cbn [length Nat.max version_order map]. apply loop_order_nil_l, Hys.
  - destruct ys as [ | y ys].
    + cbn [Nat.max version_order]. rewrite <- (loop_order_nil_r (x :: xs) Hxs).
      reflexivity.
    + apply Forall_cons_iff in Hxs. destruct Hxs as [Hx Hxs'].
      apply Forall_cons_iff in Hys. destruct Hys as [Hy Hys'].
      cbn [map length Nat.max compare_loop nth_error nullish version_order].
      rewrite gt_lt, !lt_of by assumption.
      destruct (N.compare_spec x y) as [-> | Hlt | Hgt].
      * rewrite N.ltb_irrefl, loop_cons. apply IH; assumption.
      * destruct (N.ltb_spec y x); [lia | ].
        destruct (N.ltb_spec x y); [reflexivity | lia].
      * destruct (N.ltb_spec y x); [reflexivity | lia].
Qed.

Lemma compareSemver_order (a b : str) :
  numeric_version a = true -> numeric_version b = true ->
  compareSemver num Number zero lt gt a b
  = sign (version_order (values a) (values b)).
Proof.
  intros Ha Hb. unfold compareSemver.
  rewrite (Numbers_numeric a Ha), (Numbers_numeric b Hb), !length_map.
  apply loop_order; apply values_small; assumption.
Qed.

End SemverNumbers.

(** The sample Number values meet what is assumed of them. *)
Lemma sample_gt_lt (x y : option N) : sample_gt x y = sample_lt y x.
Proof. reflexivity. Qed.

Lemma sample_lt_asym (x y : option N) :
  sample_lt x y = true -> sample_lt y x = false.
Proof.
  destruct x as [a | ], y as [b | ]; simpl; try discriminate.
  intros H. apply N.ltb_lt in H. apply N.ltb_ge. lia.
Qed.

Lemma sample_Number_numeric (s : str) :
  numeric s = true -> sample_Number s = Some (value s).
Proof.
  unfold numeric, sample_Number. intros H. apply andb_prop in H.
  destruct H as [H _]. destruct s; [reflexivity | ]. rewrite H. reflexivity.
Qed.

Lemma sample_lt_of (a b : N) :
  (a < 2 ^ 53)%N -> (b < 2 ^ 53)%N -> sample_lt (Some a) (Some b) = (a <? b)%N.
Proof. reflexivity. Qed.


(* ================================================================== *)
(** * The comparison of versions *)

Lemma compare_loop_range (num : Type) (zero : num) (lt gt : num -> num -> bool)
    (pa pb : list num) (turns : nat) :
  forall i,
    let c := compare_loop num zero lt gt pa pb turns i in
    c = 1%Z \/ c = 0%Z \/ c = (-1)%Z.
Proof.
  induction turns as [ | turns IH]; intros i; cbn [compare_loop]; [auto | ].
  destruct (gt _ _); [auto | ]. destruct (lt _ _); [auto | ]. apply IH.
Qed.

(** X8: [compareSemver] is antisymmetric on all strings: exchanging the
    arguments negates the result, which is 1, 0 or -1, and a version
    compares equal to itself.  What is used of the Number values is that
    [x > y] is [y < x] and that [x < y] excludes [y < x]. *)
Theorem compareSemver_antisymmetric (num : Type) (Number : str -> num)
    (zero : num) (lt gt : num -> num -> bool)
    (gt_lt : forall x y, gt x y = lt y x)
    (lt_asym : forall x y, lt x y = true -> lt y x = false) (a b : str) :
  compareSemver num Number zero lt gt b a
  = (- compareSemver num Number zero lt gt a b)%Z /\
  (compareSemver num Number zero lt gt a b = 1%Z \/
   compareSemver num Number zero lt gt a b = 0%Z \/
   compareSemver num Number zero lt gt a b = (-1)%Z) /\
  compareSemver num Number zero lt gt a a = 0%Z.
Proof.
  split; [ | split].
  - apply compareSemver_swap; assumption.
  - apply compare_loop_range.
  - pose proof (compareSemver_swap num Number zero lt gt gt_lt lt_asym a a).
    lia.
Qed.

(** X9: A missing segment counts as 0: a version compares like the same
    version with one more segment 0, on either side.  What is used of the
    Number values, besides the above, is that the string 0 converts to the
    number 0. *)
Theorem compareSemver_missing_segment_is_zero (num : Type) (Number : str -> num)
    (zero : num) (lt gt : num -> num -> bool)
    (gt_lt : forall x y, gt x y = lt y x)
    (lt_asym : forall x y, lt x y = true -> lt y x = false)
    (Number_0 : Number (lit "0") = zero) (a b : str) :
  compareSemver num Number zero lt gt (a ++ lit ".0") b
  = compareSemver num Number zero lt gt a b /\
  compareSemver num Number zero lt gt a (b ++ lit ".0")
  = compareSemver num Number zero lt gt a b.
Proof.
  split.
  - apply compareSemver_pad_left; assumption.
  - rewrite (compareSemver_swap num Number zero lt gt gt_lt lt_asym (b ++ lit ".0") a).
    rewrite (compareSemver_pad_left num Number zero lt gt gt_lt lt_asym b a Number_0).
    rewrite (compareSemver_swap num Number zero lt gt gt_lt lt_asym a b).
    lia.
Qed.

(** X10: On versions whose segments are numbers in decimal digits below 2^53,
    [compareSemver] is the order of the lists of these numbers, compared
    from the left with missing segments counting as 0: the result is -1, 0
    or 1 as the first version is before, equal to or after the second. *)
Theorem compareSemver_orders_versions (num : Type) (Number : str -> num)
    (zero : num) (lt gt : num -> num -> bool) (of_N : N -> num)
    (gt_lt : forall x y, gt x y = lt y x)
    (zero_of : zero = of_N 0%N)
    (Number_numeric : forall s, numeric s = true -> Number s = of_N (value s))
    (lt_of : forall a b, small a -> small b -> lt (of_N a) (of_N b) = (a <? b)%N)
    (a b : str) :
  numeric_version a = true -> numeric_version b = true ->
  compareSemver num Number zero lt gt a b
  = sign (version_order (values a) (values b)).
Proof.
  apply (compareSemver_order num Number zero lt gt of_N); assumption.
Qed.

(* ================================================================== *)
(** * The check of Node.js *)

(** X11: [checkNode] lets a version of Node.js through exactly when its first
    segment is at least 18, for the versions whose segments are numbers in
    decimal digits; the other segments do not matter. *)
Theorem checkNode_wants_major_18 (num : Type) (Number : str -> num)
    (zero : num) (lt gt : num -> num -> bool) (of_N : N -> num)
    (gt_lt : forall x y, gt x y = lt y x)
    (zero_of : zero = of_N 0%N)
    (Number_numeric : forall s, numeric s = true -> Number s = of_N (value s))
    (lt_of : forall a b, small a -> small b -> lt (of_N a) (of_N b) = (a <? b)%N)
    (current : str) (required : bool) :
  numeric_version current = true ->
  checkNode num Number zero lt gt current required
  = if (hd 0%N (values current) <? 18)%N
    then Fail (lit "Node.js") (Detected current (lit "18.0.0")) required
    else Ok (lit "Node.js") current required.
Proof.
  intros Hc. unfold checkNode.
  rewrite (compareSemver_order num Number zero lt gt of_N gt_lt zero_of
             Number_numeric lt_of current MIN_NODE Hc eq_refl).
  change (values MIN_NODE) with [18%N; 0%N; 0%N].
  unfold values. pose proof (split_nonempty "." current) as Hne.
  destruct (split "." current) as [ | major rest]; [congruence | ].
  cbn [map hd version_order].
  destruct (N.compare_spec (value major) 18) as [-> | Hlt | Hgt].
  - pose proof (order_zeros_not_Lt (map value rest) [0%N; 0%N] eq_refl) as Hn.
    destruct (version_order (map value rest) [0%N; 0%N]);
      try reflexivity. congruence.
  - destruct (N.ltb_spec (value major) 18); [reflexivity | lia].
  - destruct (N.ltb_spec (value major) 18); [lia | reflexivity].
Qed.

(* ================================================================== *)
(** * The decision of the preflight *)

Lemma no_failures (l : list CheckResult) :
  (length (filter (fun r => negb (ok r)) l) =? 0) = forallb ok l.
Proof.
  induction l as [ | r l IH]; [reflexivity | ]. cbn [filter forallb].
  destruct (ok r); [exact IH | reflexivity].
Qed.

Lemma required_failure (l : list CheckResult) :
  existsb required (filter (fun r => negb (ok r)) l)
  = negb (forallb (fun r => implb (required r) (ok r)) l).
Proof.
  induction l as [ | r l IH]; [reflexivity | ]. cbn [filter forallb].
  destruct (ok r); cbn [negb existsb].
  - rewrite implb_true_r. exact IH.
  - rewrite IH. destruct (required r); reflexivity.
Qed.

Section PreflightFacts.

Variable num : Type.
Variable Number : str -> num.
Variable zero : num.
Variable lt gt : num -> num -> bool.
Variable current : str.
Variable execFileSync : nat -> str -> list str -> option str.
Variable spawnSync : nat -> str -> list str -> option Z.

Lemma checkGit_flags (req : bool) (n : nat) :
  name (fst (checkGit execFileSync req n)) = lit "Git" /\
  required (fst (checkGit execFileSync req n)) = req.
Proof.
  unfold checkGit. destruct (getCmdVersion _ _ _ _) as [[[ | c t] | ] n'];
    split; reflexivity.
Qed.

Lemma checkDocker_flags (req : bool) (n : nat) :
  name (fst (checkDocker execFileSync spawnSync req n)) = lit "Docker" /\
  required (fst (checkDocker execFileSync spawnSync req n)) = req.
Proof.
  unfold checkDocker. destruct (getCmdVersion _ _ _ _) as [[[ | c t] | ] n'];
    try (split; reflexivity).
  destruct (spawnSync _ _ _) as [[ | | ] | ]; split; reflexivity.
Qed.

Lemma checkPocketd_flags (req : bool) (n : nat) :
  name (fst (checkPocketd execFileSync req n)) = lit "pocketd" /\
  required (fst (checkPocketd execFileSync req n)) = req.
Proof.
  unfold checkPocketd.
  destruct (getCmdVersion _ _ (Some [lit "--version"]) _) as [[v | ] n1].
  - destruct v; split; reflexivity.
  - destruct (getCmdVersion _ _ _ _) as [[[ | c t] | ] n']; split; reflexivity.
Qed.

Lemma checkNode_flags (req : bool) :
  name (checkNode num Number zero lt gt current req) = lit "Node.js" /\
  required (checkNode num Number zero lt gt current req) = req.
Proof. unfold checkNode. destruct (_ <? _)%Z; split; reflexivity. Qed.

Lemma preflight_results_flags :
  let results :=
    preflight_results num Number zero lt gt current execFileSync spawnSync in
  map name results = [lit "Node.js"; lit "Git"; lit "Docker"; lit "pocketd"] /\
  map required results = [true; true; false; true].
Proof.
  unfold preflight_results.
  pose proof (checkGit_flags true 0) as Hg.
  destruct (checkGit execFileSync true 0) as [git n1].
  pose proof (checkDocker_flags false n1) as Hd.
  destruct (checkDocker execFileSync spawnSync false n1) as [docker n2].
  pose proof (checkPocketd_flags true n2) as Hp.
  destruct (checkPocketd execFileSync true n2) as [pd n3].
  pose proof (checkNode_flags true) as Hn.
  cbn [fst] in *. cbn [map].
  destruct Hg as [-> ->], Hd as [-> ->], Hp as [-> ->], Hn as [-> ->].
  split; reflexivity.
Qed.

Lemma runPreflightOrExit_decides (cont : Awaited bool) :
  let results :=
    preflight_results num Number zero lt gt current execFileSync spawnSync in
  runPreflightOrExit num Number zero lt gt current execFileSync spawnSync cont
  = if forallb ok results then Returns
    else if forallb (fun r => implb (required r) (ok r)) results
         then match cont with Got true => Returns | _ => Exits 1 end
         else Exits 1.
Proof.
  cbv zeta. unfold runPreflightOrExit.
  rewrite no_failures, required_failure.
  destruct (forallb ok _); [reflexivity | ].
  destruct (forallb (fun r => implb (required r) (ok r)) _);
    destruct cont as [[ | ] | ]; reflexivity.
Qed.

End PreflightFacts.

(** X14: The preflight goes on exactly when no required check failed and either
    no check failed at all or the operator answered yes to the question
    whether to continue; in every other case the process exits with code 1.
    The checks are Node.js, Git, Docker and pocketd in this order, and
    Docker is the only one that is not required: a failed check of Node.js,
    Git or pocketd ends the process whatever the operator answers. *)
Theorem preflight_waives_docker_only (num : Type) (Number : str -> num)
    (zero : num) (lt gt : num -> num -> bool) (current : str)
    (execFileSync : nat -> str -> list str -> option str)
    (spawnSync : nat -> str -> list str -> option Z) :
  let results :=
    preflight_results num Number zero lt gt current execFileSync spawnSync in
  let run :=
    runPreflightOrExit num Number zero lt gt current execFileSync spawnSync in
  (map name results = [lit "Node.js"; lit "Git"; lit "Docker"; lit "pocketd"] /\
   map required results = [true; true; false; true]) /\
  (forall cont,
     run cont = Returns <->
     forallb (fun r => implb (required r) (ok r)) results = true /\
     (forallb ok results = true \/ cont = Got true)) /\
  (forall cont, run cont = Returns \/ run cont = Exits 1) /\
  (forall r,
     In r results -> required r = true -> ok r = false ->
     forall cont, run cont = Exits 1).
Proof.
  cbv zeta. split; [apply preflight_results_flags | ].
  assert (Hrun := runPreflightOrExit_decides num Number zero lt gt current
                    execFileSync spawnSync).
  cbv zeta in Hrun.
  set (results := preflight_results _ _ _ _ _ _ _ _) in *.
  assert (Hsub : forallb ok results = true ->
                 forallb (fun r => implb (required r) (ok r)) results = true).
  { rewrite !forallb_forall. intros H r Hr. rewrite (H r Hr).
    apply implb_true_r. }
  split; [ | split].
  - intros cont. rewrite Hrun.
    destruct (forallb ok results) eqn:Ea.
    + rewrite (Hsub eq_refl). tauto.
    + destruct (forallb (fun r => implb (required r) (ok r)) results).
      * destruct cont as [[ | ] | ]; split; try tauto; try discriminate;
          intros [_ [H | H]]; discriminate.
      * split; [discriminate | intros [H _]; discriminate].
  - intros cont. rewrite Hrun.
    destruct (forallb ok results); [auto | ].
    destruct (forallb _ results); [ | auto].
    destruct cont as [[ | ] | ]; auto.
  - intros r Hr Hreq Hok cont. rewrite Hrun.
    assert (Hf : forallb (fun r => implb (required r) (ok r)) results = false).
    { apply not_true_is_false. intros E.
      rewrite forallb_forall in E. specialize (E r Hr).
      rewrite Hreq, Hok in E. discriminate. }
    assert (Ha : forallb ok results = false).
    { apply not_true_is_false. intros E.
      rewrite (Hsub E) in Hf. discriminate. }
    rewrite Ha, Hf. reflexivity.
Qed.


(* ================================================================== *)
(** * A quantified class, as far as it goes *)

Lemma span_app (p : ascii -> bool) (t : str) :
  forall w r, span p t = (w, r) -> t = w ++ r /\ forallb p w = true.
Proof.
  induction t as [ | c t IH]; intros w r; simpl.
  - intros [= <- <-]. auto.
  - destruct (p c) eqn:Hc.
    + destruct (span p t) as [w' r']. intros [= <- <-].
      destruct (IH w' r' eq_refl) as [-> Hw]. simpl. rewrite Hc. auto.
    + intros [= <- <-]. auto.
Qed.

Lemma span_rest (p : ascii -> bool) (t : str) :
  forall w r, span p t = (w, r) -> forall c r', r = c :: r' -> p c = false.
Proof.
  induction t as [ | c t IH]; intros w r; simpl.
  - intros [= <- <-]. discriminate.
  - destruct (p c) eqn:Hc.
    + destruct (span p t) as [w' r'] eqn:Hs. intros [= <- <-]. eapply IH; eauto.
    + intros [= <- <-] x r' [= <- <-]. exact Hc.
Qed.

Lemma span_ext (p q : ascii -> bool) (t : str) :
  (forall c, p c = q c) -> span p t = span q t.
Proof.
  intros H. induction t as [ | c t IH]; simpl; [reflexivity | ].
  rewrite H, IH. reflexivity.
Qed.

(** A quantified class without upper bound takes the longest run it finds
    when what follows the quantifier matches after that run. *)
Lemma rep_class_greedy (p : ascii -> bool) (k : mstate -> option mstate)
    (e : mstate) (t : str) :
  forall fuel lo i w r,
    span p t = (w, r) -> lo <= length w -> lo + length t < fuel ->
    k (i + length w, r) = Some e ->
    rep (one p) fuel lo None (i, t) k = Some e.
Proof.
  induction t as [ | c t IH]; intros fuel lo i w r Hs Hlo Hf Hk;
    (destruct fuel as [ | fuel]; [lia | ]); cbn [rep option_map];
    simpl in Hs.
  - injection Hs as Hw Hr. subst w r. simpl in Hlo, Hk.
    replace lo with 0 by lia. rewrite Nat.add_0_r in Hk. exact Hk.
  - destruct (p c) eqn:Hc.
    + destruct (span p t) as [w' r'] eqn:Hs'. injection Hs as Hw Hr. subst w r.
      match goal with
      | |- context [one p ?s ?f] => assert (Hagain : one p s f = Some e)
      end.
      { unfold one at 1. cbn [snd fst]. rewrite Hc.
        unfold remaining. cbn [snd length].
        rewrite eqb_succ_false, andb_false_r.
        apply (IH fuel (pred lo) (S i) w' r' eq_refl).
        - simpl in Hlo. lia.
        - simpl in Hf. lia.
        - rewrite <- Hk. f_equal. f_equal. simpl. lia. }
      rewrite Hagain. destruct lo; reflexivity.
    + injection Hs as Hw Hr. subst w r. simpl in Hlo, Hk.
      replace lo with 0 by lia. rewrite Nat.add_0_r in Hk.
      unfold one. cbn [snd]. rewrite Hc. exact Hk.
Qed.

(** It fails where not even one character of the class is found and one is
    asked for. *)
Lemma rep_class_none (p : ascii -> bool) (k : mstate -> option mstate)
    (fuel lo i : nat) (t : str) :
  match t with c :: _ => p c = false | [] => True end ->
  rep (one p) fuel (S lo) None (i, t) k = None.
Proof.
  intros Ht. destruct fuel as [ | fuel]; [reflexivity | ]. cbn [rep].
  unfold one. cbn [snd]. destruct t as [ | c t]; [reflexivity | ].
  rewrite Ht. reflexivity.
Qed.

(* ================================================================== *)
(** * The expression of [getCmdVersion] *)

Lemma digit_class (x : ascii) : in_class false [("0", "9")]%char x = is_digit x.
Proof. by_cases_on x. Qed.

Lemma span_nil_head (p : ascii -> bool) (t r : str) :
  span p t = ([], r) ->
  r = t /\ match t with c :: _ => p c = false | [] => True end.
Proof.
  destruct t as [ | c t]; simpl.
  - intros [= <-]. auto.
  - destruct (p c); [destruct (span p t); discriminate | ].
    intros [= <-]. auto.
Qed.

Lemma m_plus_digit (k : mstate -> option mstate) (e : mstate) (i : nat)
    (t d r : str) :
  span is_digit t = (d, r) -> d <> [] -> k (i + length d, r) = Some e ->
  m false (Plus Digit) (i, t) k = Some e.
Proof.
  intros Hs Hd Hk. unfold Plus, Digit. cbn [m].
  apply (rep_class_greedy _ k e t _ 1 i d r).
  - rewrite <- Hs. apply span_ext, digit_class.
  - destruct d; [congruence | simpl; lia].
  - unfold remaining. simpl. lia.
  - exact Hk.
Qed.

Lemma m_plus_digit_none (k : mstate -> option mstate) (i : nat) (t r : str) :
  span is_digit t = ([], r) -> m false (Plus Digit) (i, t) k = None.
Proof.
  intros Hs. apply span_nil_head in Hs. destruct Hs as [_ Ht].
  unfold Plus, Digit. cbn [m]. apply rep_class_none.
  destruct t as [ | c t]; [exact I | ]. rewrite digit_class. exact Ht.
Qed.

Lemma dotted_groups_app (h : nat) :
  forall t g r, dotted_groups h t = (g, r) -> t = g ++ r.
Proof.
  induction h as [ | h IH]; intros t g r; cbn [dotted_groups].
  - intros [= <- <-]. reflexivity.
  - destruct t as [ | c t1]; [intros [= <- <-]; reflexivity | ].
    destruct (Ascii.eqb c "."); [ | intros [= <- <-]; reflexivity].
    destruct (span is_digit t1) as [[ | x d] r1] eqn:Hs;
      [intros [= <- <-]; reflexivity | ].
    destruct (dotted_groups h r1) as [g' r'] eqn:Hg. intros [= <- <-].
    apply span_app in Hs. destruct Hs as [-> _].
    rewrite (IH r1 g' r' Hg). simpl. rewrite <- !app_assoc. reflexivity.
Qed.

(** The groups of a dot and digits, as the quantifier takes them. *)
Lemma groups_match (h : nat) :
  forall t fuel i g r,
    dotted_groups h t = (g, r) -> length t < fuel ->
    rep (m false (Chr "." ;; Plus Digit)%re) fuel 0 (Some h) (i, t) Some
    = Some (i + length g, r).
Proof.
  induction h as [ | h IH]; intros t fuel i g r Hg Hf;
    (destruct fuel as [ | fuel]; [lia | ]); cbn [rep option_map pred];
    cbn [dotted_groups] in Hg.
  - injection Hg as Hg Hr. subst g r. rewrite Nat.add_0_r. reflexivity.
  - cbn [m]. unfold one at 1. cbn [snd fst char_eq].
    destruct t as [ | c t1].
    + injection Hg as Hg Hr. subst g r. rewrite Nat.add_0_r. reflexivity.
    + rewrite (Ascii.eqb_sym "."%char c).
      destruct (Ascii.eqb c ".") eqn:Hc.
      * destruct (span is_digit t1) as [[ | x d] r1] eqn:Hs.
        -- injection Hg as Hg Hr. subst g r.
           rewrite (m_plus_digit_none _ (S i) t1 r1 Hs).
           rewrite Nat.add_0_r. reflexivity.
        -- destruct (dotted_groups h r1) as [g' r'] eqn:Hg'.
           injection Hg as Hg Hr. subst g r.
           pose proof (span_app _ _ _ _ Hs) as [Ht1 _].
           assert (Hlen : length t1 = S (length d) + length r1)
             by (rewrite Ht1, length_app; reflexivity).
           rewrite (m_plus_digit _ (S i + length (x :: d) + length g', r')
                      (S i) t1 (x :: d) r1 Hs); [ | discriminate | ].
           ++ cbn [length]. rewrite length_app.
              replace (S i + S (length d) + length g')
                with (i + S (S (length d + length g'))) by lia.
              reflexivity.
           ++ cbn [Nat.eqb andb]. unfold remaining. cbn [snd].
              replace (length r1 =? length (c :: t1)) with false.
              ** apply IH; [exact Hg' | ]. simpl in Hf. lia.
              ** symmetry. apply Nat.eqb_neq. simpl. lia.
      * injection Hg as Hg Hr. subst g r. rewrite Nat.add_0_r. reflexivity.
Qed.

(** The expression at a position where a digit stands, and elsewhere. *)
Lemma m_version_digit (i : nat) (t d r g r' : str) :
  span is_digit t = (d, r) -> d <> [] -> dotted_groups 3 r = (g, r') ->
  m false version_re (i, t) Some = Some (i + length (d ++ g), r').
Proof.
  intros Hs Hd Hg. unfold version_re. cbn [m].
  change (fun st' => rep ?ma ?f ?lo ?hi st' ?k)
    with (fun st' => m false (Rep (Chr "." ;; Plus Digit) 0 (Some 3)) st' k).
  apply (m_plus_digit _ _ i t d r Hs Hd).
  cbn [m]. unfold remaining. cbn [snd Nat.add].
  rewrite (groups_match 3 r _ (i + length d) g r' Hg) by lia.
  rewrite length_app, Nat.add_assoc. reflexivity.
Qed.

Lemma m_version_other (i : nat) (t : str) :
  match t with c :: _ => is_digit c = false | [] => True end ->
  m false version_re (i, t) Some = None.
Proof.
  intros Ht. unfold version_re. cbn [m].
  change (rep (m false Digit) ?f 1 None ?st ?k)
    with (m false (Plus Digit) st k).
  apply (m_plus_digit_none _ i t t).
  destruct t as [ | c t]; [reflexivity | ]. simpl. rewrite Ht. reflexivity.
Qed.

Lemma span_digit_nonempty (c : ascii) (t d r : str) :
  is_digit c = true -> span is_digit (c :: t) = (d, r) -> d <> [].
Proof.
  simpl. intros ->. destruct (span is_digit t). intros [= <- <-]. discriminate.
Qed.

(** The leftmost match of the expression is the first version of the
    input. *)
Lemma search_version (t : str) :
  forall i,
    match search false version_re i t with
    | Some (j, e) =>
        i <= j /\ first_version t = Some (firstn (fst e - j) (skipn (j - i) t))
    | None => first_version t = None
    end.
Proof.
  induction t as [ | c t IH]; intros i.
  - cbn [search]. rewrite m_version_other by exact I. reflexivity.
  - cbn [search first_version]. destruct (is_digit c) eqn:Hc.
    + destruct (span is_digit (c :: t)) as [d r] eqn:Hs.
      destruct (dotted_groups 3 r) as [g r'] eqn:Hg.
      rewrite (m_version_digit i (c :: t) d r g r' Hs
                 (span_digit_nonempty c t d r Hc Hs) Hg).
      split; [lia | ]. cbn [fst]. rewrite Nat.sub_diag. cbn [skipn].
      replace (i + length (d ++ g) - i) with (length (d ++ g)) by lia.
      apply span_app in Hs. destruct Hs as [-> _].
      apply dotted_groups_app in Hg. rewrite Hg, app_assoc.
      rewrite firstn_app, Nat.sub_diag, firstn_all. cbn [firstn].
      rewrite app_nil_r. reflexivity.
    + rewrite m_version_other by exact Hc.
      specialize (IH (S i)).
      destruct (search false version_re (S i) t) as [[j e] | ]; [ | exact IH].
      destruct IH as [Hle IH]. split; [lia | ].
      replace (j - i) with (S (j - S i)) by lia. exact IH.
Qed.

Lemma match0_version (out : str) :
  match0 false version_re out = first_version out.
Proof.
  unfold match0. pose proof (search_version out 0) as H.
  destruct (search false version_re 0 out) as [[j e] | ]; [ | congruence].
  destruct H as [_ H]. rewrite Nat.sub_0_r in H. congruence.
Qed.

(* ================================================================== *)
(** * The shape of a version *)

Lemma digit_not_dot (c : ascii) : is_digit c = true -> c <> "."%char.
Proof. intros H ->. discriminate. Qed.

Lemma split_no_sep (sep : ascii) (s : str) :
  ~ In sep s -> split sep s = [s].
Proof.
  induction s as [ | c s IH]; intros Hn; simpl; [reflexivity | ].
  destruct (Ascii.eqb_spec c sep) as [-> | _].
  - exfalso. apply Hn. left. reflexivity.
  - rewrite IH; [reflexivity | ]. intros Hin. apply Hn. right. exact Hin.
Qed.

Lemma digits_no_dot (d : str) : forallb is_digit d = true -> ~ In "."%char d.
Proof.
  rewrite forallb_forall. intros H Hin. apply H in Hin. discriminate.
Qed.

(** The groups that [dotted_groups] takes are segments of digits, each
    after a dot. *)
Lemma dotted_groups_segments (h : nat) :
  forall t g r,
    dotted_groups h t = (g, r) ->
    exists segs,
      length segs <= h /\ Forall digits segs /\
      g = concat (map (fun s => "."%char :: s) segs).
Proof.
  induction h as [ | h IH]; intros t g r; cbn [dotted_groups].
  - intros [= <- <-]. exists []. repeat split; [simpl; lia | constructor].
  - assert (Hnone : exists segs : list str,
              length segs <= S h /\ Forall digits segs /\
              [] = concat (map (fun s => "."%char :: s) segs))
      by (exists []; repeat split; [simpl; lia | constructor]).
    destruct t as [ | c t1]; [intros [= <- <-]; exact Hnone | ].
    destruct (Ascii.eqb_spec c ".") as [-> | _];
      [ | intros [= <- <-]; exact Hnone].
    destruct (span is_digit t1) as [[ | x d] r1] eqn:Hs;
      [intros [= <- <-]; exact Hnone | ].
    destruct (dotted_groups h r1) as [g' r'] eqn:Hg. intros [= <- <-].
    destruct (IH r1 g' r' Hg) as (segs & Hlen & Hall & ->).
    apply span_app in Hs. destruct Hs as [_ Hd].
    exists ((x :: d) :: segs). repeat split.
    + simpl. lia.
    + constructor; [ | exact Hall]. split; [discriminate | exact Hd].
Qed.

Lemma split_segments (d : str) (segs : list str) :
  forallb is_digit d = true -> Forall digits segs ->
  split "." (d ++ concat (map (fun s => "."%char :: s) segs)) = d :: segs.
Proof.
  intros Hd Hall. revert d Hd.
  induction Hall as [ | s segs [_ Hs] _ IH]; intros d Hd.
  - simpl. rewrite app_nil_r. apply split_no_sep, digits_no_dot, Hd.
  - cbn [map concat]. change (("."%char :: s) ++ ?x) with ("."%char :: s ++ x).
    rewrite split_app_sep, (IH s Hs).
    rewrite (split_no_sep "." d (digits_no_dot d Hd)). reflexivity.
Qed.

Lemma dotted_groups_rest (h : nat) :
  forall t g r,
    dotted_groups h t = (g, r) -> g <> [] ->
    match r with c :: _ => is_digit c = false | [] => True end.
Proof.
  induction h as [ | h IH]; intros t g r; cbn [dotted_groups].
  - intros [= <- <-]. congruence.
  - destruct t as [ | c t1]; [intros [= <- <-]; congruence | ].
    destruct (Ascii.eqb c "."); [ | intros [= <- <-]; congruence].
    destruct (span is_digit t1) as [[ | x d] r1] eqn:Hs;
      [intros [= <- <-]; congruence | ].
    destruct (dotted_groups h r1) as [g' r'] eqn:Hg. intros [= <- <-] _.
    destruct g' as [ | y g'].
    + assert (r' = r1).
      { pose proof (dotted_groups_app h r1 [] r' Hg) as E. exact (eq_sym E). }
      subst r'. destruct r1 as [ | z r1]; [exact I | ].
      apply (span_rest is_digit t1 (x :: d) (z :: r1) Hs z r1 eq_refl).
    + apply (IH r1 (y :: g') r' Hg). discriminate.
Qed.

(** What [first_version] finds: a number of one to four segments of
    digits, at the first digit of the input and not followed by a digit. *)
Lemma first_version_shape (t : str) :
  forall v,
    first_version t = Some v ->
    (exists pre post,
       t = pre ++ v ++ post /\
       forallb (fun c => negb (is_digit c)) pre = true /\
       match post with c :: _ => is_digit c = false | [] => True end) /\
    1 <= length (split "." v) <= 4 /\ Forall digits (split "." v).
Proof.
  induction t as [ | c t IH]; intros v; cbn [first_version]; [discriminate | ].
  destruct (is_digit c) eqn:Hc.
  - destruct (span is_digit (c :: t)) as [d r] eqn:Hs.
    destruct (dotted_groups 3 r) as [g r'] eqn:Hg. intros [= <-].
    pose proof (span_digit_nonempty c t d r Hc Hs) as Hne.
    pose proof (span_app _ _ _ _ Hs) as [Ht Hd].
    pose proof (dotted_groups_app 3 r g r' Hg) as Hr.
    destruct (dotted_groups_segments 3 r g r' Hg) as (segs & Hlen & Hall & Hgs).
    split; [ | split].
    + exists [], r'. split; [ | split; [reflexivity | ]].
      * rewrite Ht, Hr, app_assoc. reflexivity.
      * destruct g as [ | y g].
        -- assert (r' = r) by (symmetry; exact Hr). subst r'.
           destruct r as [ | z r]; [exact I | ].
           apply (span_rest is_digit (c :: t) d (z :: r) Hs z r eq_refl).
        -- apply (dotted_groups_rest 3 r (y :: g) r' Hg). discriminate.
    + rewrite Hgs, (split_segments d segs Hd Hall). simpl. lia.
    + rewrite Hgs, (split_segments d segs Hd Hall).
      constructor; [split; assumption | exact Hall].
  - intros Hv. destruct (IH v Hv) as ((pre & post & -> & Hpre & Hpost) & Hsh).
    split; [ | exact Hsh].
    exists (c :: pre), post. split; [reflexivity | ]. split; [ | exact Hpost].
    simpl. rewrite Hc, Hpre. reflexivity.
Qed.

Lemma first_version_none (t : str) :
  first_version t = None <-> forallb (fun c => negb (is_digit c)) t = true.
Proof.
  induction t as [ | c t IH]; cbn [first_version forallb]; [tauto | ].
  destruct (is_digit c); cbn [negb andb].
  - destruct (span is_digit (c :: t)) as [d r].
    destruct (dotted_groups 3 r). split; discriminate.
  - exact IH.
Qed.

Lemma first_version_nonempty (t v : str) : first_version t = Some v -> v <> [].
Proof.
  intros H. apply first_version_shape in H. destruct H as (_ & _ & Hall).
  intros ->. simpl in Hall. inversion Hall as [ | ? ? [Hne _] _]. congruence.
Qed.

Lemma version_of_first (stdout : str) :
  version_of stdout = nullish (first_version (trim stdout)) (trim stdout).
Proof. unfold version_of. rewrite match0_version. reflexivity. Qed.

(** Nothing is taken from an output that is blank, and only from such a
    one. *)
Lemma version_of_blank (stdout : str) :
  version_of stdout = [] <-> trim stdout = [].
Proof.
  rewrite version_of_first.
  destruct (first_version (trim stdout)) as [v | ] eqn:Hv; cbn [nullish].
  - pose proof (first_version_nonempty _ _ Hv) as Hne. split; [congruence | ].
    intros E. rewrite E in Hv. discriminate.
  - tauto.
Qed.

(* ================================================================== *)
(** * The attempts of [getCmdVersion] *)

Section Attempts.

Variable execFileSync : nat -> str -> list str -> option str.

(** The first of the attempts that does not throw decides. *)
Lemma try_flags_first (cmd : str) (flags : list (list str)) :
  forall n k stdout,
    (forall j, j < k -> execFileSync (n + j) cmd (nth j flags []) = None) ->
    k < length flags ->
    execFileSync (n + k) cmd (nth k flags []) = Some stdout ->
    try_flags execFileSync cmd flags n = (Some (version_of stdout), n + k + 1).
Proof.
  induction flags as [ | a flags IH]; intros n k stdout Hbefore Hk Hrun;
    [simpl in Hk; lia | ].
  cbn [try_flags]. destruct k as [ | k].
  - rewrite Nat.add_0_r in Hrun. cbn [nth] in Hrun. rewrite Hrun.
    f_equal. lia.
  - pose proof (Hbefore 0 (Nat.lt_0_succ k)) as H0.
    rewrite Nat.add_0_r in H0. cbn [nth] in H0. rewrite H0.
    rewrite (IH (S n) k stdout).
    + f_equal. lia.
    + intros j Hj. specialize (Hbefore (S j) (proj1 (Nat.succ_lt_mono j k) Hj)).
      cbn [nth] in Hbefore. rewrite <- Hbefore. f_equal. lia.
    + simpl in Hk. lia.
    + cbn [nth] in Hrun. rewrite <- Hrun. f_equal. lia.
Qed.

Lemma try_flags_none (cmd : str) (flags : list (list str)) :
  forall n,
    (forall j, j < length flags ->
               execFileSync (n + j) cmd (nth j flags []) = None) ->
    try_flags execFileSync cmd flags n = (None, n + length flags).
Proof.
  induction flags as [ | a flags IH]; intros n Hall; cbn [try_flags length].
  - f_equal. lia.
  - pose proof (Hall 0 (Nat.lt_0_succ _)) as H0.
    rewrite Nat.add_0_r in H0. cbn [nth] in H0. rewrite H0.
    rewrite IH; [f_equal; lia | ].
    intros j Hj. specialize (Hall (S j) (proj1 (Nat.succ_lt_mono _ _) Hj)).
    cbn [nth] in Hall. rewrite <- Hall. f_equal. lia.
Qed.

(** What [try_flags] yields comes from the first attempt that did not
    throw. *)
Lemma try_flags_inv (cmd : str) (flags : list (list str)) :
  forall n v n',
    try_flags execFileSync cmd flags n = (Some v, n') ->
    exists k stdout,
      k < length flags /\
      (forall j, j < k -> execFileSync (n + j) cmd (nth j flags []) = None) /\
      execFileSync (n + k) cmd (nth k flags []) = Some stdout /\
      v = version_of stdout /\ n' = n + k + 1.
Proof.
  induction flags as [ | a flags IH]; intros n v n'; cbn [try_flags];
    [discriminate | ].
  destruct (execFileSync n cmd a) as [stdout | ] eqn:Hrun.
  - intros [= <- <-]. exists 0, stdout. rewrite Nat.add_0_r. cbn [nth length].
    repeat split; [lia | intros j Hj; lia | exact Hrun | lia].
  - intros H. apply IH in H.
    destruct H as (k & stdout & Hk & Hbefore & Hk' & -> & ->).
    exists (S k), stdout. cbn [nth length]. repeat split.
    + lia.
    + intros [ | j] Hj; cbn [nth].
      * rewrite Nat.add_0_r. exact Hrun.
      * rewrite <- (Hbefore j) by lia. f_equal. lia.
    + rewrite <- Hk'. f_equal. lia.
    + lia.
Qed.

End Attempts.


(* ================================================================== *)
(** * The version taken from the output of a command *)

(** X12: What [getCmdVersion] makes of the output of a command.  The match of
    its expression is the first number of the trimmed output together with
    the groups of a dot and digits that follow it, three at most: it starts
    at the first digit, has one to four segments of digits and is not
    followed by a digit.  An output without a digit is returned whole,
    trimmed, and the result is empty only for a blank output. *)
Theorem version_of_takes_first_version (stdout : str) :
  match0 false version_re (trim stdout) = first_version (trim stdout) /\
  version_of stdout = nullish (first_version (trim stdout)) (trim stdout) /\
  (forallb (fun c => negb (is_digit c)) (trim stdout) = true ->
   version_of stdout = trim stdout) /\
  (existsb is_digit (trim stdout) = true ->
   (exists pre post,
      trim stdout = pre ++ version_of stdout ++ post /\
      forallb (fun c => negb (is_digit c)) pre = true /\
      match post with c :: _ => is_digit c = false | [] => True end) /\
   1 <= length (split "." (version_of stdout)) <= 4 /\
   Forall digits (split "." (version_of stdout))) /\
  (version_of stdout = [] <-> trim stdout = []) /\
  version_of (lit "git version 2.46.2.windows.1") = lit "2.46.2" /\
  version_of (lit "Docker version 24.0.6, build ed223bc") = lit "24.0.6" /\
  version_of (lit "v1.2.3.4.5") = lit "1.2.3.4" /\
  version_of (lit "unknown") = lit "unknown".
Proof.
  split; [apply match0_version | ].
  split; [apply version_of_first | ].
  split; [ | split; [ | split; [apply version_of_blank | ]]].
  - intros Hnone. rewrite version_of_first.
    apply first_version_none in Hnone. rewrite Hnone. reflexivity.
  - intros Hsome. rewrite version_of_first.
    destruct (first_version (trim stdout)) as [v | ] eqn:Hv.
    + cbn [nullish]. apply first_version_shape, Hv.
    + apply first_version_none in Hv. exfalso.
      apply existsb_exists in Hsome. destruct Hsome as (c & Hc & Hd).
      rewrite forallb_forall in Hv. specialize (Hv c Hc).
      rewrite Hd in Hv. discriminate.
  - repeat split; vm_compute; reflexivity.
Qed.

(* ================================================================== *)
(** * When a tool counts as found *)

Lemma getCmdVersion_flags (execFileSync : nat -> str -> list str -> option str)
    (cmd : str) (args : option (list str)) (n : nat) :
  getCmdVersion execFileSync cmd args n
  = try_flags execFileSync cmd
      [nullish args [lit "--version"]; [lit "-v"]; [lit "version"]] n.
Proof. reflexivity. Qed.

(** X13: [getCmdVersion] runs the command with the given arguments, then with
    -v, then with version, and stops at the first run that does not throw:
    its result is what [version_of] takes from the output of that run, and
    null when all three throw.  So Git counts as found exactly when the
    first run that does not throw prints something that is not blank; a run
    that prints nothing makes [checkGit] fail without the flags after it
    being tried. *)
Theorem getCmdVersion_first_run_decides
    (execFileSync : nat -> str -> list str -> option str)
    (cmd : str) (args : option (list str)) (n : nat) :
  let flags := [nullish args [lit "--version"]; [lit "-v"]; [lit "version"]] in
  (forall v n',
     getCmdVersion execFileSync cmd args n = (Some v, n') <->
     exists k stdout,
       k < 3 /\
       (forall j, j < k -> execFileSync (n + j) cmd (nth j flags []) = None) /\
       execFileSync (n + k) cmd (nth k flags []) = Some stdout /\
       v = version_of stdout /\ n' = n + k + 1) /\
  ((forall j, j < 3 -> execFileSync (n + j) cmd (nth j flags []) = None) ->
   getCmdVersion execFileSync cmd args n = (None, n + 3)) /\
  (forall req,
     ok (fst (checkGit execFileSync req n)) = true <->
     exists k stdout,
       k < 3 /\
       (forall j, j < k ->
          execFileSync (n + j) (lit "git")
            (nth j [[lit "--version"]; [lit "-v"]; [lit "version"]] []) = None) /\
       execFileSync (n + k) (lit "git")
         (nth k [[lit "--version"]; [lit "-v"]; [lit "version"]] [])
       = Some stdout /\
       trim stdout <> []) /\
  (forall req stdout,
     execFileSync n (lit "git") [lit "--version"] = Some stdout ->
     trim stdout = [] ->
     checkGit execFileSync req n = (Fail (lit "Git") NotFound req, S n)).
Proof.
  cbv zeta. rewrite getCmdVersion_flags.
  set (flags := [nullish args [lit "--version"]; [lit "-v"]; [lit "version"]]).
  split; [ | split; [ | split]].
  - intros v n'. split.
    + intros H. apply try_flags_inv in H. exact H.
    + intros (k & stdout & Hk & Hbefore & Hrun & -> & ->).
      apply try_flags_first; assumption.
  - intros Hall. apply (try_flags_none execFileSync cmd flags n Hall).
  - intros req. unfold checkGit. rewrite getCmdVersion_flags. cbn [nullish].
    set (gflags := [[lit "--version"]; [lit "-v"]; [lit "version"]]).
    destruct (try_flags execFileSync (lit "git") gflags n) as [[v | ] n'] eqn:Ht.
    + apply try_flags_inv in Ht.
      destruct Ht as (k & stdout & Hk & Hbefore & Hrun & -> & ->).
      destruct (version_of stdout) as [ | c t] eqn:Hv; cbn [fst ok].
      * apply version_of_blank in Hv. split; [discriminate | ].
        intros (k' & stdout' & Hk' & Hbefore' & Hrun' & Hne).
        exfalso. destruct (Nat.lt_trichotomy k k') as [Hlt | [-> | Hgt]].
        -- rewrite (Hbefore' k Hlt) in Hrun. discriminate.
        -- rewrite Hrun in Hrun'. injection Hrun' as <-. congruence.
        -- rewrite (Hbefore k' Hgt) in Hrun'. discriminate.
      * split; [ | reflexivity]. intros _. exists k, stdout.
        repeat split; try assumption.
        intros E. apply version_of_blank in E. congruence.
    + cbn [fst ok]. split; [discriminate | ].
      intros (k & stdout & Hk & Hbefore & Hrun & Hne). exfalso.
      rewrite (try_flags_first execFileSync (lit "git") gflags n k stdout
                 Hbefore Hk Hrun) in Ht.
      discriminate.
  - intros req stdout Hrun Hblank. unfold checkGit.
    rewrite getCmdVersion_flags. cbn [nullish try_flags]. rewrite Hrun.
    apply version_of_blank in Hblank. rewrite Hblank. reflexivity.
Qed.


(* ================================================================== *)
(** * A quantified class before the end of the input *)

(** [[...]{lo,hi}$]: the rest of the input is in the class and its length
    is within the bounds. *)
Lemma rep_class_eol (p : ascii -> bool) (t : str) :
  forall fuel lo hi i,
    lo <= hi -> lo + length t < fuel ->
    rep (one p) fuel lo (Some hi) (i, t) (fun st => m false Eol st Some)
    = if forallb p t && (lo <=? length t) && (length t <=? hi)
      then Some (i + length t, [])
      else None.
Proof.
  induction t as [ | c t IH]; intros fuel lo hi i Hlh Hf;
    (destruct fuel as [ | fuel]; [lia | ]); cbn [rep option_map].
  - destruct hi as [ | hi].
    + replace lo with 0 by lia. simpl. rewrite Nat.add_0_r. reflexivity.
    + unfold one. cbn [snd]. destruct lo; simpl;
        [rewrite Nat.add_0_r | ]; reflexivity.
  - destruct hi as [ | hi].
    + cbn [m snd forallb length]. rewrite andb_false_r. reflexivity.
    + match goal with
      | |- context [one p ?s ?f] =>
          assert (Hagain : one p s f
                           = if forallb p (c :: t) && (pred lo <=? length t)
                                && (length t <=? hi)
                             then Some (i + length (c :: t), [])
                             else None)
      end.
      { unfold one at 1. cbn [snd fst forallb]. destruct (p c); [ | reflexivity].
        unfold remaining. cbn [snd length pred].
        rewrite eqb_succ_false, andb_false_r.
        rewrite IH by (destruct lo; simpl in *; lia).
        replace (S i + length t) with (i + S (length t)) by lia. reflexivity. }
      rewrite Hagain. cbn [length]. destruct lo as [ | lo]; cbn [pred].
      * cbn [Nat.leb]. rewrite !andb_true_r.
        destruct (forallb p (c :: t) && (length t <=? hi)); reflexivity.
      * cbn [Nat.leb]. reflexivity.
Qed.

Lemma test_bol (r : regex) (s : str) :
  test false (Bol ;; r) s
  = match m false r (0, s) Some with Some _ => true | None => false end.
Proof.
  unfold test. destruct s as [ | c s]; cbn [search m fst Nat.eqb].
  - destruct (m false r _ Some); reflexivity.
  - destruct (m false r _ Some); [reflexivity | ].
    rewrite (search_bol_later r s 1) by lia. reflexivity.
Qed.

Lemma lower_alnum_class (x : ascii) :
  in_class false [("0", "9"); ("a", "z")]%char x = is_lower_alnum x.
Proof. by_cases_on x. Qed.

(** [isPoktAddress] in plain terms. *)
Lemma isPoktAddress_plain (val : str) :
  isPoktAddress val
  = match strip_prefix (lit "pokt1") (trim val) with
    | Some w => forallb is_lower_alnum w && (20 <=? length w) && (length w <=? 90)
    | None => false
    end.
Proof.
  unfold isPoktAddress, pokt_re. rewrite test_bol. cbn [m].
  rewrite m_word.
  destruct (strip_prefix (lit "pokt1") (trim val)) as [w | ]; [ | reflexivity].
  unfold lower_alnum. cbn [m].
  rewrite rep_class_eol by (unfold remaining; simpl; lia).
  rewrite (forallb_ext_eq _ is_lower_alnum w lower_alnum_class).
  destruct (forallb is_lower_alnum w && (20 <=? length w) && (length w <=? 90));
    reflexivity.
Qed.

Lemma strip_prefix_app_same (p r : str) : strip_prefix p (p ++ r) = Some r.
Proof.
  induction p as [ | c p IH]; simpl; [reflexivity | ].
  rewrite Ascii.eqb_refl. exact IH.
Qed.

Lemma isPoktAddress_iff (val : str) :
  isPoktAddress val = true <->
  exists w, trim val = lit "pokt1" ++ w /\ forallb is_lower_alnum w = true /\
            20 <= length w <= 90.
Proof.
  rewrite isPoktAddress_plain. split.
  - destruct (strip_prefix (lit "pokt1") (trim val)) as [w | ] eqn:Hs;
      [ | discriminate].
    intros H. apply andb_prop in H. destruct H as [H H3].
    apply andb_prop in H. destruct H as [H1 H2].
    apply Nat.leb_le in H2, H3. apply strip_prefix_Some in Hs.
    exists w. auto.
  - intros (w & -> & H1 & H2 & H3). rewrite strip_prefix_app_same, H1.
    apply Nat.leb_le in H2, H3. rewrite H2, H3. reflexivity.
Qed.

Lemma str_eqb_eq (a b : str) : str_eqb a b = true <-> a = b.
Proof.
  revert b. induction a as [ | x a IH]; intros [ | y b]; simpl;
    try (split; [discriminate | congruence]); [tauto | ].
  rewrite andb_true_iff, IH. split.
  - intros [Hx ->]. apply Ascii.eqb_eq in Hx. congruence.
  - intros [= -> ->]. rewrite Ascii.eqb_refl. auto.
Qed.


(* ================================================================== *)
(** * The validators of the wallet prompts *)

Lemma isPoktAddress_nonblank (v : str) : isPoktAddress v = true -> trim v <> [].
Proof.
  intros H. apply isPoktAddress_iff in H. destruct H as (w & -> & _).
  discriminate.
Qed.

Lemma isPoktAddress_trim (v : str) : isPoktAddress (trim v) = isPoktAddress v.
Proof. unfold isPoktAddress. rewrite trim_idem. reflexivity. Qed.

Lemma validate_accountName_None (message v : str) :
  validate_accountName message v = None <-> trim v <> [].
Proof.
  unfold validate_accountName. destruct (trim v); split;
    congruence || discriminate.
Qed.

Lemma validate_gatewayAddress_None (v : str) :
  validate_gatewayAddress v = None <-> isPoktAddress v = true.
Proof.
  unfold validate_gatewayAddress. split.
  - destruct (trim v); [discriminate | ].
    destruct (isPoktAddress v); [reflexivity | discriminate].
  - intros H. pose proof (isPoktAddress_nonblank v H) as Hne.
    destruct (trim v); [congruence | ]. rewrite H. reflexivity.
Qed.

Lemma validate_applicationAddress_None (gatewayAddress v : str) :
  validate_applicationAddress gatewayAddress v = None <->
  isPoktAddress v = true /\ trim v <> trim gatewayAddress.
Proof.
  unfold validate_applicationAddress. split.
  - destruct (trim v) as [ | c t] eqn:Ht; [discriminate | ].
    destruct (isPoktAddress v); [ | discriminate].
    destruct (str_eqb (c :: t) (trim gatewayAddress)) eqn:E; [discriminate | ].
    intros _. split; [reflexivity | ]. intros Heq.
    apply str_eqb_eq in Heq. congruence.
  - intros [H Hne]. pose proof (isPoktAddress_nonblank v H) as Hnb.
    destruct (trim v) as [ | c t] eqn:Ht; [congruence | ]. rewrite H.
    destruct (str_eqb (c :: t) (trim gatewayAddress)) eqn:E; [ | reflexivity].
    apply str_eqb_eq in E. congruence.
Qed.

(* ================================================================== *)
(** * The run of [runWalletSetup] *)

Section WalletFacts.

Variable network : Network.
Variable SHELL : option str.
Variable now : str.
Variable written : bool.

Lemma runWalletSetup_snoc (ins : list Input) (i : Input) :
  runWalletSetup network SHELL now written (ins ++ [i])
  = walletStep network SHELL now written
      (runWalletSetup network SHELL now written ins) i.
Proof. unfold runWalletSetup. rewrite fold_left_app. reflexivity. Qed.

Lemma gate_ok (here next : WalletState) (r : Reply bool) :
  wallet_state_ok network now here -> wallet_state_ok network now next ->
  wallet_state_ok network now (gate here r next).
Proof. intros Hh Hn. destruct r as [[ | ] | | | ]; simpl; auto. Qed.

Lemma offer_ok (here next : WalletState) (r : Reply bool) :
  wallet_state_ok network now here -> wallet_state_ok network now next ->
  wallet_state_ok network now (offer here r next).
Proof. intros Hh Hn. destruct r; simpl; auto. Qed.

Lemma finish_ok (w : Wallets) :
  wallets_ok w -> wallet_state_ok network now (finish network now written w).
Proof.
  intros Hw. unfold finish. destruct written; simpl; [ | exact I].
  exists w. auto.
Qed.

Lemma walletStep_ok (s : WalletState) (i : Input) :
  wallet_state_ok network now s ->
  wallet_state_ok network now (walletStep network SHELL now written s i).
Proof.
  destruct s as [ | gn | gn ga | gn ga an | q w | r]; cbn [walletStep];
    intros Hs.
  - unfold answered. destruct (text _ i) as [v | | | ] eqn:Ht; simpl; auto.
    apply text_answer in Ht. destruct Ht as [_ Hv].
    apply (validate_accountName_None msg_gateway_name v), Hv.
  - unfold answered. destruct (text _ i) as [v | | | ] eqn:Ht; simpl; auto.
    apply text_answer in Ht. destruct Ht as [_ Hv].
    split; [exact Hs | apply validate_gatewayAddress_None, Hv].
  - unfold answered. destruct (text _ i) as [v | | | ] eqn:Ht; simpl; auto.
    apply text_answer in Ht. destruct Ht as [_ Hv]. destruct Hs as [H1 H2].
    repeat split; auto.
    apply (validate_accountName_None msg_application_name v), Hv.
  - unfold answered. destruct (text _ i) as [v | | | ] eqn:Ht; simpl; auto.
    apply text_answer in Ht. destruct Ht as [_ Hv].
    apply validate_applicationAddress_None in Hv.
    destruct Hs as (H1 & H2 & H3), Hv as [H4 H5].
    unfold wallets_ok. simpl. auto.
  - destruct q;
      try (apply gate_ok; [exact Hs | first [apply finish_ok | idtac]; exact Hs]);
      try (apply offer_ok; exact Hs).
    unfold answered. destruct (select _ i); simpl; auto.
  - exact Hs.
Qed.

Lemma runWalletSetup_ok (ins : list Input) :
  wallet_state_ok network now (runWalletSetup network SHELL now written ins).
Proof.
  induction ins as [ | i ins IH] using rev_ind; [exact I | ].
  rewrite runWalletSetup_snoc. apply walletStep_ok, IH.
Qed.

(** A question that must be answered with yes gets behind the run only by
    such an answer. *)
Lemma behind_crossed (q : Question) (s : WalletState) (i : Input) :
  must_be_yes q = true ->
  behind q (walletStep network SHELL now written s i) ->
  behind q s \/
  exists w k, s = Asking q w /\ i = Choose k /\ Nat.even k = true.
Proof.
  intros Hq. destruct s as [ | gn | gn ga | gn ga an | q' w | r];
    cbn [walletStep].
  - unfold answered. destruct (text _ i); simpl; tauto.
  - unfold answered. destruct (text _ i); simpl; tauto.
  - unfold answered. destruct (text _ i); simpl; tauto.
  - unfold answered. destruct (text _ i); simpl; try tauto. lia.
  - destruct i as [ | v | k | ks];
      try (destruct q'; simpl; tauto).
    + destruct q'; simpl; try tauto; destruct q; simpl in *;
        try discriminate; try lia; auto.
    + destruct (Nat.even k) eqn:Hk.
      * destruct q'; cbn [confirmPrompt gate offer answered select]; rewrite ?Hk;
          cbn [gate offer negb behind]; unfold finish;
          destruct q; cbn [place must_be_yes] in *; try discriminate;
          try (destruct written); cbn [behind];
          try (left; lia); try (intros _; left; lia);
          try (intros _; right; eauto); try lia; try tauto.
      * destruct q'; cbn [confirmPrompt gate offer answered select]; rewrite ?Hk;
          cbn [gate offer negb behind];
          destruct q; cbn [place must_be_yes] in *; try discriminate;
          try (left; lia); try (intros _; left; lia); try lia; try tauto.
  - auto.
Qed.

Lemma behind_answered (q : Question) (ins : list Input) :
  must_be_yes q = true ->
  behind q (runWalletSetup network SHELL now written ins) ->
  exists ins1 k ins2 w,
    ins = ins1 ++ Choose k :: ins2 /\
    runWalletSetup network SHELL now written ins1 = Asking q w /\
    Nat.even k = true.
Proof.
  intros Hq. induction ins as [ | i ins IH] using rev_ind; [intros [] | ].
  rewrite runWalletSetup_snoc. intros Hb.
  apply (behind_crossed q _ i Hq) in Hb.
  destruct Hb as [Hb | (w & k & Hs & -> & Hk)].
  - destruct (IH Hb) as (ins1 & k & ins2 & w & -> & Hrun & Hk).
    exists ins1, k, (ins2 ++ [i]), w. rewrite <- app_assoc. auto.
  - exists ins, k, [], w. auto.
Qed.

End WalletFacts.


(* ================================================================== *)
(** * The addresses *)

(** X15: [isPoktAddress] accepts exactly the strings that, once trimmed, are
    pokt1 followed by 20 to 90 digits and lower case letters a to z: so
    between 25 and 95 characters, none in upper case; white space around
    the address does not count. *)
Theorem isPoktAddress_exact (val : str) :
  (isPoktAddress val = true <->
   exists w, trim val = lit "pokt1" ++ w /\ forallb is_lower_alnum w = true /\
             20 <= length w <= 90) /\
  isPoktAddress val
  = match strip_prefix (lit "pokt1") (trim val) with
    | Some w => forallb is_lower_alnum w && (20 <=? length w) && (length w <=? 90)
    | None => false
    end /\
  (isPoktAddress val = true -> 25 <= length (trim val) <= 95) /\
  isPoktAddress (trim val) = isPoktAddress val /\
  isPoktAddress (lit "  pokt1qwertyuiopasdfghjklzxcvbnm0123456789  ") = true /\
  isPoktAddress (lit "pokt1QWERTYUIOPASDFGHJKLZXCVBNM0123456789") = false /\
  isPoktAddress (lit "pokt1tooshort") = false.
Proof.
  split; [apply isPoktAddress_iff | ].
  split; [apply isPoktAddress_plain | ].
  split; [ | split; [apply isPoktAddress_trim | ]].
  - intros H. apply isPoktAddress_iff in H. destruct H as (w & -> & _ & Hlen).
    rewrite length_app. simpl. lia.
  - repeat split; vm_compute; reflexivity.
Qed.

(* ================================================================== *)
(** * The result of the wallet setup *)

(** X16: Whatever is typed, a result that [runWalletSetup] returns holds the
    network it was called with, two account names that are not blank, and
    two addresses that are trimmed, have the shape [isPoktAddress] asks
    for and differ from each other; it is marked as funded and names the
    export path .tmp/keys.json. *)
Theorem wallet_result_well_formed (network : Network) (SHELL : option str)
    (now : str) (written : bool) (ins : list Input)
    (payload : WalletSetupResult) :
  runWalletSetup network SHELL now written ins = WEnded (WPayload payload) ->
  ws_network payload = network /\
  exportPath payload = lit ".tmp/keys.json" /\
  funded payload = true /\ fundedAtIso payload = now /\
  trim (acc_name (ws_gateway payload)) <> [] /\
  trim (acc_name (ws_application payload)) <> [] /\
  isPoktAddress (acc_address (ws_gateway payload)) = true /\
  isPoktAddress (acc_address (ws_application payload)) = true /\
  trim (acc_address (ws_gateway payload)) = acc_address (ws_gateway payload) /\
  trim (acc_address (ws_application payload))
  = acc_address (ws_application payload) /\
  acc_address (ws_application payload) <> acc_address (ws_gateway payload).
Proof.
  intros Hrun.
  pose proof (runWalletSetup_ok network SHELL now written ins) as Hok.
  rewrite Hrun in Hok. cbn [wallet_state_ok] in Hok.
  destruct Hok as (w & (H1 & H2 & H3 & H4 & H5) & ->).
  cbn [payload_of ws_network exportPath funded fundedAtIso ws_gateway
       ws_application acc_name acc_address].
  rewrite !isPoktAddress_trim, !trim_idem. repeat split; assumption.
Qed.

(** X17: [runWalletSetup] returns a result, or gets as far as writing the file,
    only after each of the six questions about funding, balances, config
    files, the two stakes and the delegation was answered with yes: the
    inputs then contain, for each of them, an answer yes given while that
    question was open.  No or Esc at one of them ends the setup with null,
    whereas Esc at one of the offers to copy goes on to the next
    question. *)
Theorem wallet_setup_needs_every_yes (network : Network) (SHELL : option str)
    (now : str) (written : bool) :
  (forall ins r q,
     runWalletSetup network SHELL now written ins = WEnded r -> r <> WNull ->
     must_be_yes q = true ->
     exists ins1 k ins2 w,
       ins = ins1 ++ Choose k :: ins2 /\
       runWalletSetup network SHELL now written ins1 = Asking q w /\
       Nat.even k = true) /\
  (forall q w i,
     must_be_yes q = true ->
     i = Esc \/ (exists k, i = Choose k /\ Nat.even k = false) ->
     walletStep network SHELL now written (Asking q w) i = WEnded WNull) /\
  (forall q w,
     must_be_yes q = false -> q <> q_choice ->
     exists q',
       place q' = S (place q) /\
       walletStep network SHELL now written (Asking q w) Esc = Asking q' w).
Proof.
  split; [ | split].
  - intros ins r q Hrun Hr Hq.
    apply (behind_answered network SHELL now written q ins Hq).
    rewrite Hrun. destruct r; [congruence | exact I | exact I].
  - intros q w i Hq [-> | (k & -> & Hk)];
      destruct q; try discriminate; cbn [walletStep confirmPrompt];
      rewrite ?Hk; reflexivity.
  - intros q w Hq Hc.
    destruct q; try discriminate; try congruence; cbn [walletStep confirmPrompt offer];
      eexists; (split; [ | reflexivity]); reflexivity.
Qed.


(* ================================================================== *)
(** * The matcher finds the matches there are

    The converse of [m_sound], for the expressions whose quantifiers have
    bodies that take at least one character: where the expression matches
    and the continuation accepts the position after the match, the matcher
    yields a result. *)

Lemma step_char_remaining (p : ascii -> bool) (st st' : mstate) :
  step_char p st st' -> remaining st' < remaining st.
Proof.
  intros (x & t & Hs & _ & ->). unfold remaining. rewrite Hs. simpl. lia.
Qed.

Lemma iter_remaining (R : mstate -> mstate -> Prop) :
  (forall a b, R a b -> remaining b <= remaining a) ->
  forall n a b, iter R n a b -> remaining b <= remaining a.
Proof.
  intros HR n. induction n as [ | n IH]; intros a b; simpl.
  - intros ->. lia.
  - intros (mid & H1 & H2). apply HR in H1. apply IH in H2. lia.
Qed.

Lemma den_remaining (ic : bool) (r : regex) :
  forall a b, den ic r a b -> remaining b <= remaining a.
Proof.
  induction r as [ | c | rs | | r1 IH1 r2 IH2 | r1 IH1 r2 IH2 | r IH lo hi
                 | | | r IH]; intros a b; cbn [den].
  - intros ->. lia.
  - intros H. apply step_char_remaining in H. lia.
  - intros H. apply step_char_remaining in H. lia.
  - intros H. apply step_char_remaining in H. lia.
  - intros (mid & H1 & H2). apply IH1 in H1. apply IH2 in H2. lia.
  - intros [H | H]; [apply IH1 in H | apply IH2 in H]; lia.
  - intros (n & _ & Hit). apply (iter_remaining _ IH n a b Hit).
  - intros [_ ->]. lia.
  - intros [_ ->]. lia.
  - intros [_ ->]. lia.
Qed.

Lemma den_consuming (ic : bool) (r : regex) :
  consuming r = true ->
  forall a b, den ic r a b -> remaining b < remaining a.
Proof.
  induction r as [ | c | rs | | r1 IH1 r2 IH2 | r1 IH1 r2 IH2 | r IH lo hi
                 | | | r IH]; cbn [consuming]; intros Hc a b; cbn [den];
    try discriminate.
  - apply step_char_remaining.
  - apply step_char_remaining.
  - apply step_char_remaining.
  - intros (mid & H1 & H2). apply orb_prop in Hc.
    pose proof (den_remaining ic r1 a mid H1).
    pose proof (den_remaining ic r2 mid b H2).
    destruct Hc as [Hc | Hc];
      [specialize (IH1 Hc a mid H1) | specialize (IH2 Hc mid b H2)]; lia.
  - apply andb_prop in Hc. destruct Hc as [Hc1 Hc2].
    intros [H | H]; [apply (IH1 Hc1) | apply (IH2 Hc2)]; exact H.
  - apply andb_prop in Hc. destruct Hc as [Hc Hhi].
    apply andb_prop in Hc. destruct Hc as [Hlo Hc]. apply Nat.ltb_lt in Hlo.
    intros (n & Hn & Hit).
    destruct n as [ | n].
    + exfalso. unfold within in Hn. destruct hi as [h | ]; [ | lia].
      apply Nat.leb_le in Hhi. lia.
    + simpl in Hit. destruct Hit as (mid & H1 & H2).
      specialize (IH Hc a mid H1).
      pose proof (iter_remaining _ (den_remaining ic r) n mid b H2). lia.
Qed.

Section RepComplete.

Variable ma : mstate -> (mstate -> option mstate) -> option mstate.
Variable R : mstate -> mstate -> Prop.
Hypothesis ma_complete : forall st st' k,
  R st st' -> k st' <> None -> ma st k <> None.
Hypothesis R_progress : forall st st', R st st' -> remaining st' < remaining st.

Lemma rep_complete (n : nat) :
  forall fuel lo hi st st' k,
    within n lo hi -> iter R n st st' -> k st' <> None ->
    lo + remaining st < fuel ->
    rep ma fuel lo hi st k <> None.
Proof.
  induction n as [ | n IH]; intros fuel lo hi st st' k Hn Hit Hk Hf;
    (destruct fuel as [ | fuel]; [lia | ]); cbn [rep]; simpl in Hit.
  - subst st'. destruct hi as [[ | h] | ]; [exact Hk | | ].
    + assert (lo = 0) by (unfold within in Hn; lia). subst lo.
      destruct (ma st _); [discriminate | exact Hk].
    + assert (lo = 0) by (unfold within in Hn; lia). subst lo.
      destruct (ma st _); [discriminate | exact Hk].
  - destruct Hit as (mid & H1 & Hit).
    pose proof (R_progress st mid H1) as Hprog.
    assert (Hagain :
      ma st (fun st1 =>
        if (lo =? 0) && (remaining st1 =? remaining st) then None
        else rep ma fuel (pred lo) (option_map pred hi) st1 k) <> None).
    { apply (ma_complete st mid); [exact H1 | ].
      replace (remaining mid =? remaining st) with false
        by (symmetry; apply Nat.eqb_neq; lia).
      rewrite andb_false_r.
      apply (IH fuel (pred lo) (option_map pred hi) mid st' k);
        [ | exact Hit | exact Hk | lia].
      unfold within in *. destruct hi as [h | ]; simpl; lia. }
    destruct hi as [[ | h] | ].
    + unfold within in Hn. lia.
    + destruct lo; [ | exact Hagain].
      destruct (ma st _); [discriminate | congruence].
    + destruct lo; [ | exact Hagain].
      destruct (ma st _); [discriminate | congruence].
Qed.

End RepComplete.

Lemma one_complete (p : ascii -> bool) (st st' : mstate)
    (k : mstate -> option mstate) :
  step_char p st st' -> k st' <> None -> one p st k <> None.
Proof.
  intros (x & t & Hs & Hp & ->) Hk. unfold one. rewrite Hs, Hp. exact Hk.
Qed.

Lemma m_complete (ic : bool) (r : regex) :
  tame r = true ->
  forall st st' k,
    den ic r st st' -> k st' <> None -> m ic r st k <> None.
Proof.
  induction r as [ | c | rs | | r1 IH1 r2 IH2 | r1 IH1 r2 IH2 | r IH lo hi
                 | | | r IH]; cbn [tame]; intros Ht st st' k; cbn [m den].
  - intros ->. auto.
  - apply one_complete.
  - apply one_complete.
  - apply one_complete.
  - apply andb_prop in Ht. destruct Ht as [Ht1 Ht2].
    intros (mid & H1 & H2) Hk.
    apply (IH1 Ht1 st mid); [exact H1 | ]. apply (IH2 Ht2 mid st'); assumption.
  - apply andb_prop in Ht. destruct Ht as [Ht1 Ht2].
    intros [H | H] Hk.
    + pose proof (IH1 Ht1 st st' k H Hk). destruct (m ic r1 st k); congruence.
    + destruct (m ic r1 st k); [discriminate | ]. apply (IH2 Ht2 st st'); assumption.
  - apply andb_prop in Ht. destruct Ht as [Ht Hc].
    intros (n & Hn & Hit) Hk.
    apply (rep_complete (m ic r) (den ic r) (IH Ht) (den_consuming ic r Hc)
             n _ lo hi st st' k Hn Hit Hk). lia.
  - intros [H0 ->] Hk. rewrite H0. exact Hk.
  - intros [H0 ->] Hk. rewrite H0. exact Hk.
  - intros [H0 ->] Hk. rewrite H0. exact Hk.
Qed.

(** An expression anchored at the start matches the whole of what the
    denotation relates the start to. *)
Lemma test_bol_complete (ic : bool) (r : regex) (s : str) (e : mstate) :
  tame r = true -> den ic r (0, s) e -> test ic (Bol ;; r) s = true.
Proof.
  intros Ht Hd. unfold test.
  assert (Hm : m ic (Bol ;; r) (0, s) Some <> None).
  { cbn [m fst Nat.eqb]. apply (m_complete ic r Ht _ e); [exact Hd | discriminate]. }
  destruct s as [ | c s]; cbn [search];
    destruct (m ic (Bol ;; r) _ Some); congruence.
Qed.

(* ================================================================== *)
(** * From the plain description of a domain to a match *)

Lemma iter_step_char_intro (p : ascii -> bool) (w : str) :
  forall i t,
    forallb p w = true ->
    exists j, iter (step_char p) (length w) (i, w ++ t) (j, t).
Proof.
  induction w as [ | x w IH]; intros i t Hw; simpl.
  - exists i. reflexivity.
  - simpl in Hw. apply andb_prop in Hw. destruct Hw as [Hx Hw].
    destruct (IH (S i) t Hw) as (j & Hit).
    exists j, (S i, w ++ t). split; [ | exact Hit].
    exists x, (w ++ t). auto.
Qed.

Lemma den_word_intro (ic : bool) (w u : str) :
  Forall2 (fun c x => char_eq ic c x = true) w u ->
  forall i t, exists j, den ic (Word w) (i, u ++ t) (j, t).
Proof.
  induction 1 as [ | c x w u Hc Hall IH]; intros i t.
  - exists i. reflexivity.
  - destruct w as [ | c' w].
    + inversion Hall. subst. exists (S i). simpl. exists x, t. auto.
    + change (Word (c :: c' :: w)) with (Seq (Chr c) (Word (c' :: w))).
      destruct (IH (S i) t) as (j & Hd). exists j. cbn [den].
      exists (S i, u ++ t). split; [ | exact Hd].
      exists x, (u ++ t). auto.
Qed.

Lemma alnum_class (x : ascii) :
  in_class true [("a", "z"); ("0", "9")]%char x = is_alnum x.
Proof. apply class_alnum. Qed.

Lemma den_label_intro (l : str) :
  strict_label l ->
  forall i t, exists j, den true label_re (i, l ++ "."%char :: t) (j, t).
Proof.
  intros (x & Hx & [-> | (mid & y & -> & Hmid & Hlen & Hy)]) i t;
    unfold label_re, alnum, alnum_hyphen, Opt; cbn [den].
  - exists (S (S i)), (S i, "."%char :: t). split.
    + exists x, ("."%char :: t). rewrite alnum_class. auto.
    + exists (S i, "."%char :: t). split.
      * exists 0. split; [simpl; lia | reflexivity].
      * exists "."%char, t. auto.
  - rewrite <- (forallb_ext_eq _ _ mid class_alnum_hyphen) in Hmid.
    destruct (iter_step_char_intro _ mid (S i) (y :: "."%char :: t) Hmid)
      as (j & Hit).
    exists (S (S j)), (S i, mid ++ y :: "."%char :: t). split.
    + exists x, (mid ++ y :: "."%char :: t). rewrite alnum_class.
      simpl. rewrite <- app_assoc. auto.
    + exists (S j, "."%char :: t). split.
      * exists 1. split; [simpl; lia | ]. simpl.
        exists (S j, "."%char :: t). split; [ | reflexivity].
        exists (j, y :: "."%char :: t). split.
        -- exists (length mid). split; [simpl; lia | exact Hit].
        -- exists y, ("."%char :: t). rewrite alnum_class. auto.
      * exists "."%char, t. auto.
Qed.

Lemma iter_labels_intro (labels : list str) :
  Forall strict_label labels ->
  forall i t,
    exists j,
      iter (den true label_re) (length labels) (i, dotted labels ++ t) (j, t).
Proof.
  induction 1 as [ | l labels Hl _ IH]; intros i t.
  - exists i. reflexivity.
  - unfold dotted. cbn [map concat length iter]. fold (dotted labels).
    rewrite <- !app_assoc. cbn [app].
    destruct (den_label_intro l Hl i (dotted labels ++ t)) as (j1 & H1).
    destruct (IH j1 t) as (j & Hit).
    exists j, (j1, dotted labels ++ t). auto.
Qed.

Lemma alnum_not_hyphen_ci (x : ascii) :
  is_alnum x = true -> char_eq true "-" x = false.
Proof. by_cases_on x. Qed.

Lemma strict_label_head (l : str) :
  strict_label l -> exists x t, l = x :: t /\ is_alnum x = true.
Proof.
  intros (x & Hx & [-> | (mid & y & -> & _)]); eauto.
Qed.

Lemma fqdn_complete (s : str) : strict_fqdn s -> test true fqdn_re s = true.
Proof.
  intros (labels & top & Hne & Hall & [Hlen Htop] & ->).
  destruct (iter_labels_intro labels Hall 0 top) as (j1 & Hlabels).
  rewrite <- (forallb_ext_eq _ _ top class_alpha) in Htop.
  destruct (iter_step_char_intro _ top j1 [] Htop) as (j2 & Htops).
  rewrite app_nil_r in Htops.
  unfold fqdn_re. apply (test_bol_complete true _ _ (j2, [])); [reflexivity | ].
  unfold Plus, alpha. cbn [den].
  exists (0, dotted labels ++ top). split.
  - split; [ | reflexivity].
    destruct labels as [ | l labels]; [congruence | ].
    apply Forall_inv in Hall. apply strict_label_head in Hall.
    destruct Hall as (x & t & -> & Hx). unfold dotted.
    cbn [m map concat app]. unfold one. cbn [snd].
    rewrite (alnum_not_hyphen_ci x Hx). reflexivity.
  - exists (j1, top). split.
    + exists (length labels). split; [ | exact Hlabels].
      destruct labels; [congruence | simpl; lia].
    + exists (j2, []). split.
      * exists (length top). split; [simpl; lia | exact Htops].
      * split; reflexivity.
Qed.

Lemma lower_ci (c x : ascii) :
  In c (lit "localhost:") -> lower_char x = c -> char_eq true c x = true.
Proof.
  intros Hin. simpl in Hin.
  repeat (destruct Hin as [<- | Hin]; [by_cases_on x | ]). destruct Hin.
Qed.

Lemma lower_forall2 (u : str) :
  forall w,
    (forall c, In c w -> In c (lit "localhost:")) -> toLowerCase u = w ->
    Forall2 (fun c x => char_eq true c x = true) w u.
Proof.
  induction u as [ | x u IH]; intros w Hin Hw; simpl in Hw; subst w;
    constructor.
  - apply lower_ci; [apply Hin; left | ]; reflexivity.
  - apply IH; [ | reflexivity]. intros c Hc. apply Hin. right. exact Hc.
Qed.

Lemma lower_digit (x : ascii) : is_digit (lower_char x) = true -> is_digit x = true.
Proof. by_cases_on x. Qed.

Lemma lower_digits (u : str) :
  forallb is_digit (toLowerCase u) = true -> forallb is_digit u = true.
Proof.
  induction u as [ | x u IH]; simpl; [reflexivity | ].
  intros H. apply andb_prop in H. destruct H as [Hx Hu].
  rewrite (lower_digit x Hx), (IH Hu). reflexivity.
Qed.

Lemma localhost_complete (s : str) :
  spec_localhost s -> test true localhostRe s = true.
Proof.
  intros [Hs | (ds & Hlen & Hds & Hs)].
  - assert (Hall : Forall2 (fun c x => char_eq true c x = true)
                     (lit "localhost") s).
    { apply lower_forall2; [ | exact Hs]. intros c Hc. simpl in *. tauto. }
    destruct (den_word_intro true _ _ Hall 0 []) as (j & Hd).
    rewrite app_nil_r in Hd.
    unfold localhostRe. apply (test_bol_complete true _ _ (j, []));
      [reflexivity | ].
    cbn [den]. exists (j, []). split; [left; exact Hd | split; reflexivity].
  - unfold toLowerCase in Hs. apply map_eq_app in Hs.
    destruct Hs as (u & ds' & -> & Hu & Hds').
    assert (Hall : Forall2 (fun c x => char_eq true c x = true)
                     (lit "localhost:") u).
    { apply lower_forall2; [ | exact Hu]. intros c Hc. exact Hc. }
    assert (Hdig : forallb is_digit ds' = true).
    { apply lower_digits. unfold toLowerCase. rewrite Hds'. exact Hds. }
    assert (Hl : length ds' = length ds).
    { rewrite <- Hds'. symmetry. apply length_map. }
    destruct (den_word_intro true _ _ Hall 0 ds') as (j1 & Hd).
    rewrite <- (forallb_ext_eq _ _ ds' class_digit) in Hdig.
    destruct (iter_step_char_intro _ ds' j1 [] Hdig) as (j2 & Hit).
    rewrite app_nil_r in Hit.
    unfold localhostRe. apply (test_bol_complete true _ _ (j2, []));
      [reflexivity | ].
    unfold Digit. cbn [den]. exists (j2, []). split; [ | split; reflexivity].
    right. exists (j1, ds'). split; [exact Hd | ].
    exists (length ds'). split; [simpl; lia | exact Hit].
Qed.

(* ================================================================== *)
(** * From a match to the plain description *)

Lemma den_label_strict (st st' : mstate) :
  den true label_re st st' ->
  exists l, snd st = l ++ "."%char :: snd st' /\ strict_label l.
Proof.
  unfold label_re, alnum, alnum_hyphen, Opt. cbn [den].
  intros (m1 & Hx & m2 & (n & Hn & Hit) & Hdot).
  apply step_char_inv in Hx. destruct Hx as (x & Hs & Hx & _).
  rewrite alnum_class in Hx.
  apply step_char_inv in Hdot. destruct Hdot as (c & Hs2 & Hc & _).
  apply dot_only in Hc. subst c.
  unfold within in Hn.
  destruct n as [ | [ | n]]; [ | | lia].
  - simpl in Hit. subst m2. exists [x]. rewrite Hs, Hs2.
    split; [reflexivity | ]. exists x. auto.
  - simpl in Hit. destruct Hit as (mid & (m3 & (k & Hk & Hw) & Hy) & ->).
    apply iter_step_char_snd in Hw. destruct Hw as (w & Hs3 & Hlen & Hall).
    apply step_char_inv in Hy. destruct Hy as (y & Hs4 & Hy & _).
    rewrite alnum_class in Hy.
    rewrite (forallb_ext_eq _ _ w class_alnum_hyphen) in Hall.
    exists (x :: w ++ [y]). split.
    + rewrite Hs, Hs3, Hs4, Hs2. simpl. rewrite <- app_assoc. reflexivity.
    + exists x. split; [exact Hx | ]. right. exists w, y.
      unfold within in Hk. repeat split; auto. lia.
Qed.

Lemma iter_labels_strict (n : nat) :
  forall st st',
    iter (den true label_re) n st st' ->
    exists labels, length labels = n /\ Forall strict_label labels /\
                   snd st = dotted labels ++ snd st'.
Proof.
  induction n as [ | n IH]; intros st st'; simpl.
  - intros ->. exists []. auto.
  - intros (mid & Hl & Hit). apply den_label_strict in Hl.
    destruct Hl as (l & Hs & Hl).
    apply IH in Hit. destruct Hit as (labels & Hlen & Hall & Hs').
    exists (l :: labels). split; [simpl; congruence | ]. split; [auto | ].
    rewrite Hs, Hs'. unfold dotted. simpl. rewrite <- !app_assoc. reflexivity.
Qed.

Lemma fqdn_sound_strict (s : str) : test true fqdn_re s = true -> strict_fqdn s.
Proof.
  intros Ht. apply test_bol_sound in Ht. destruct Ht as (e & Hd).
  unfold Plus, alpha in Hd. cbn [den] in Hd.
  destruct Hd as (m1 & [_ ->] & m2 & (n & Hn & Hit) & m3 & (k & Hk & Htop) & Hend & ->).
  apply iter_labels_strict in Hit. destruct Hit as (labels & Hlen & Hall & Hs).
  apply iter_step_char_snd in Htop. destruct Htop as (top & Hs2 & Hlen2 & Htop).
  rewrite Hend, app_nil_r in Hs2. simpl in Hs.
  exists labels, top. unfold within in Hn, Hk. repeat split.
  - intros ->. simpl in Hlen. lia.
  - exact Hall.
  - lia.
  - rewrite <- (forallb_ext_eq _ _ top class_alpha). exact Htop.
  - rewrite Hs, Hs2. reflexivity.
Qed.

(** A strict label is a label of the grammar of the specification, and has
    at most 63 characters. *)
Lemma strict_label_spec (l : str) :
  strict_label l -> spec_label l /\ 1 <= length l <= 63.
Proof.
  intros (x & Hx & [-> | (mid & y & -> & Hmid & Hlen & Hy)]).
  - split; [ | simpl; lia]. split; [discriminate | ]. split.
    + simpl. rewrite (alnum_label_char x Hx). reflexivity.
    + simpl. intros [= E]. revert E. apply alnum_not_hyphen, Hx.
  - split.
    + split; [discriminate | ]. split.
      * simpl. rewrite (alnum_label_char x Hx), forallb_app, Hmid. simpl.
        rewrite (alnum_label_char y Hy). reflexivity.
      * simpl. intros [= E]. revert E. apply alnum_not_hyphen, Hx.
    + simpl. rewrite length_app. simpl. lia.
Qed.


(* ================================================================== *)
(** * The validator of the domain, exactly *)

Lemma strict_fqdn_spec (s : str) : strict_fqdn s -> spec_fqdn s.
Proof.
  intros (labels & top & Hne & Hall & Htop & ->).
  exists labels, top. repeat split; try assumption.
  - apply Forall_forall. intros l Hl. rewrite Forall_forall in Hall.
    apply strict_label_spec, Hall, Hl.
  - apply Htop.
  - apply Htop.
Qed.

Lemma domainLooksValid_iff (s : str) :
  domainLooksValid s = true <-> strict_fqdn s \/ spec_localhost s.
Proof.
  unfold domainLooksValid. rewrite orb_true_iff. split.
  - intros [H | H]; [left; apply fqdn_sound_strict | right; apply localhost_sound];
      exact H.
  - intros [H | H]; [left; apply fqdn_complete | right; apply localhost_complete];
      exact H.
Qed.

(** X2: [domainLooksValid] accepts exactly two kinds of strings: one or more
    labels, each followed by a dot, and then two or more letters, where a
    label is one letter or digit or up to 63 letters, digits and hyphens
    that begin and end with a letter or digit; and localhost in any case,
    alone or followed by a colon and one to five digits.  So the validator
    of the domain prompt lets an input through exactly when its normalized
    form is empty or of one of these kinds.  The domain of every object of
    a run is in lower case and is of one of these kinds, or it is the string
    "canceled" that a dismissed domain prompt of a pass leaves, which is of
    neither kind.  The port is not checked against 65535, and a label may
    not end in a hyphen. *)
Theorem domainLooksValid_exact (od : OnDismiss) (clock : nat -> str) :
  (forall s, domainLooksValid s = true <-> strict_fqdn s \/ spec_localhost s) /\
  (forall s, strict_fqdn s -> spec_fqdn s) /\
  (forall v,
     validate_domain v = None <->
     normalizeDomain (Some v) = None \/
     exists d, normalizeDomain (Some v) = Some d /\
               (strict_fqdn d \/ spec_localhost d)) /\
  (forall ins meta d,
     held (collectProjectMetadata od clock ins) = Some meta ->
     domain meta = Some d ->
     toLowerCase d = d /\
     (strict_fqdn d \/ spec_localhost d \/ od = GoOn /\ d = lit "canceled")) /\
  (domainLooksValid (lit "canceled") = false /\
   collectProjectMetadata GoOn clock
     [Line (lit "gw"); Choose 0; Choose 0; Choose 0; Esc; Check []]
   = InEditLoop 1
       (Review (mkMeta (lit "gw") (Value testnet) (Value vps) (Value same_vps)
                  (Some (lit "canceled")) (Value []) (clock 0)))) /\
  domainLooksValid (lit "localhost:99999") = true /\
  domainLooksValid (lit "LocalHost") = true /\
  domainLooksValid (lit "localhost:123456") = false /\
  domainLooksValid (lit "a-.com") = false /\
  domainLooksValid (lit "a-b.example.co") = true /\
  domainLooksValid (lit "example.c0m") = false /\
  domainLooksValid (lit "example") = false.
Proof.
  split; [apply domainLooksValid_iff | ].
  split; [apply strict_fqdn_spec | ].
  split; [ | split; [ | split]].
  - intros v. unfold validate_domain.
    destruct (normalizeDomain (Some v)) as [d | ] eqn:Hn.
    + destruct (domainLooksValid d) eqn:Hd.
      * split; [ | reflexivity]. intros _. right. exists d.
        split; [reflexivity | apply domainLooksValid_iff, Hd].
      * split; [discriminate | ].
        intros [H | (d' & [= <-] & H)]; [discriminate | ].
        apply domainLooksValid_iff in H. congruence.
    + split; auto.
  - intros ins meta d Hh Hd. apply rules_collect in Hh.
    destruct Hh as (_ & _ & Hs). unfold domain_settled in Hs.
    rewrite Hd in Hs. destruct Hs as [[Hn Hv] | [Hod ->]].
    + split; [apply (normalized_lowered d d Hn) | ].
      apply domainLooksValid_iff in Hv. tauto.
    + split; [reflexivity | auto].
  - split; vm_compute; reflexivity.
  - repeat split; vm_compute; reflexivity.
Qed.

(* ================================================================== *)
(** * The form of a normalized domain *)

Lemma drop_slashes_head (l : str) (c : ascii) (t : str) :
  drop_slashes l = c :: t -> c <> "/"%char.
Proof.
  induction l as [ | x l IH]; simpl; [discriminate | ].
  destruct (Ascii.eqb_spec x "/") as [-> | Hx]; [exact IH | ].
  intros [= <- <-]. exact Hx.
Qed.

(** X1: Whatever the input, what [normalizeDomain] returns is null or a
    string that is not empty, is in lower case and does not end in a slash;
    it returns null for null and for the empty string.  White space inside
    the input stays: after a scheme or before a final slash it ends up at an
    end of the result. *)
Theorem normalizeDomain_output_form :
  (forall v d,
     normalizeDomain (Some v) = Some d ->
     d <> [] /\ toLowerCase d = d /\ last d "a"%char <> "/"%char) /\
  normalizeDomain None = None /\
  normalizeDomain (Some []) = None /\
  normalizeDomain (Some (lit "http:// a.com")) = Some (lit " a.com") /\
  normalizeDomain (Some (lit "a.com /")) = Some (lit "a.com ").
Proof.
  split; [ | repeat split; vm_compute; reflexivity].
  intros v d Hn. pose proof (normalized_lowered v d Hn) as Hlow.
  apply normalized_nonempty in Hn. destruct Hn as [Hne Hd].
  split; [exact Hne | ]. split; [exact Hlow | ].
  unfold spec_strip_trailing_slashes in Hd.
  destruct (drop_slashes (rev (spec_strip_scheme (toLowerCase (trim v)))))
    as [ | c u] eqn:Hu; [simpl in Hd; congruence | ].
  rewrite Hd, last_rev_cons. apply (drop_slashes_head _ c u Hu).
Qed.


(* ================================================================== *)
(** * How a run of the wizard ends *)

(** X18: A configuration is returned by [collectProjectMetadata] only when
    this very configuration was shown at the review prompt and the operator
    chose to confirm it there.  With the group of the library, null is
    returned only when the operator dismissed the review prompt or chose to
    cancel there: no input during a pass makes the function return.  The
    function ends by a TypeError only when the integrations prompt of a pass
    was dismissed: the object on which the summary throws is made of the
    results of that pass, with the string 'canceled' for the integrations.
    A run ends in no other way. *)
Theorem returned_was_confirmed (od : OnDismiss) (clock : nat -> str) :
  (forall ins meta,
     collectProjectMetadata od clock ins = Returned (Some meta) ->
     exists ins1 k ins2 reads,
       ins = ins1 ++ Choose k :: ins2 /\
       collectProjectMetadata od clock ins1 = InEditLoop reads (Review meta) /\
       highlighted review_prompt k = c_confirm) /\
  (forall ins,
     collectProjectMetadata GoOn clock ins = Returned None ->
     exists ins1 i ins2 reads meta,
       ins = ins1 ++ i :: ins2 /\
       collectProjectMetadata GoOn clock ins1 = InEditLoop reads (Review meta) /\
       (i = Esc \/
        exists k, i = Choose k /\ highlighted review_prompt k = c_cancel)) /\
  (forall ins meta,
     collectProjectMetadata od clock ins = Threw meta ->
     exists ins1 ins2 reads n nw d f dm,
       ins = ins1 ++ Esc :: ins2 /\
       collectProjectMetadata od clock ins1
       = InAskAll reads (AtIntegrations n nw d f dm) /\
       od = GoOn /\
       meta = mkMeta (trim n) nw d f (normalizeDomain (Some dm)) Canceled
                (clock reads)) /\
  (forall ins,
     match collectProjectMetadata od clock ins with
     | InAskAll _ _ | InEditLoop _ _ | Returned _ | Threw _ => True
     | OffTheMap => False
     end).
Proof.
  split; [ | split; [ | split]].
  - apply returned_some_trace.
  - apply returned_none_trace.
  - intros ins meta Hrun. pose proof (rules_collect od clock ins meta) as Hr.
    rewrite Hrun in Hr. destruct (Hr eq_refl) as (Hh & _).
    apply threw_trace in Hrun.
    destruct Hrun as (ins1 & ins2 & reads & n & nw & d & f & dm & Hi & Hp & Hod & Hm).
    exists ins1, ins2, reads, n, nw, d, f, dm.
    split; [exact Hi | ]. split; [exact Hp | ]. split; [exact Hod | ].
    rewrite Hm. apply normalize_fixes.
    pose proof (pass_consistent_collect od clock ins1) as Hc.
    rewrite Hp in Hc. exact Hc.
  - intros ins. pose proof (collect_never_unreached od clock ins) as H.
    destruct (collectProjectMetadata od clock ins); auto.
Qed.


(* ================================================================== *)
(** * The further theorems at sample inputs *)

(** The domain of scenario A. *)
Lemma normalizeDomain_fixes_accepted_witness :
  normalizeDomain (Some (lit "api.example.com")) = Some (lit "api.example.com") /\
  validate_domain (lit "api.example.com") = None.
Proof.
  apply (proj1 normalizeDomain_fixes_accepted (lit "HTTPS://API.Example.com/"));
    vm_compute; reflexivity.
Defined.

(** Scenario A with the network prompt dismissed, at the review prompt: the
    re-prompt of the domain taken as it opens stores the domain as it was,
    that of the network stores mainnet in the place of the string. *)
Lemma accept_initial_changes_nothing_witness :
  collectProjectMetadata GoOn sample_clock
    [Line (lit "My Gw"); Esc; Choose 0; Choose 0;
     Line (lit "HTTPS://API.Example.com/"); Check [0]]
  = InEditLoop 1
      (Review (mkMeta (lit "My Gw") Canceled (Value vps) (Value same_vps)
                 (Some (lit "api.example.com")) (Value [stripe])
                 (sample_clock 0))) /\
  edit_field f_domain
    (mkMeta (lit "My Gw") Canceled (Value vps) (Value same_vps)
       (Some (lit "api.example.com")) (Value [stripe]) (sample_clock 0))
    (Line (lit "api.example.com"))
  = Awaits (Review (mkMeta (lit "My Gw") Canceled (Value vps) (Value same_vps)
                      (Some (lit "api.example.com")) (Value [stripe])
                      (sample_clock 0))) /\
  edit_field f_network
    (mkMeta (lit "My Gw") Canceled (Value vps) (Value same_vps)
       (Some (lit "api.example.com")) (Value [stripe]) (sample_clock 0))
    (Choose 0)
  = Awaits (Review (mkMeta (lit "My Gw") (Value mainnet) (Value vps)
                      (Value same_vps) (Some (lit "api.example.com"))
                      (Value [stripe]) (sample_clock 0))).
Proof.
  assert (H : collectProjectMetadata GoOn sample_clock
                [Line (lit "My Gw"); Esc; Choose 0; Choose 0;
                 Line (lit "HTTPS://API.Example.com/"); Check [0]]
              = InEditLoop 1
                  (Review (mkMeta (lit "My Gw") Canceled (Value vps)
                             (Value same_vps) (Some (lit "api.example.com"))
                             (Value [stripe]) (sample_clock 0))))
    by (vm_compute; reflexivity).
  split; [exact H | ].
  pose proof (accept_initial_changes_nothing GoOn sample_clock _ _ _ H) as W.
  cbv zeta in W. split.
  - apply (proj1 W f_domain). cbn [holds_canceled meta_of domain].
    intros E. vm_compute in E. discriminate.
  - exact (proj1 (proj2 W) eq_refl).
Defined.

(** The deployment type of a vps configuration with same_vps edited to
    local. *)
Lemma edit_touches_one_field_witness :
  edit_field f_deploymentType
    (mkMeta (lit "gw") (Value testnet) (Value vps) (Value same_vps) None
       (Value [stripe]) (sample_clock 0))
    (Choose 1)
  = Awaits (Review (mkMeta (lit "gw") (Value testnet) (Value local)
                      (Value vercel) None (Value [stripe]) (sample_clock 0))) /\
  (f_deploymentType <> f_integrations -> Value [stripe] = Value [stripe]).
Proof.
  assert (H : edit_field f_deploymentType
                (mkMeta (lit "gw") (Value testnet) (Value vps) (Value same_vps)
                   None (Value [stripe]) (sample_clock 0)) (Choose 1)
              = Awaits (Review (mkMeta (lit "gw") (Value testnet) (Value local)
                                  (Value vercel) None (Value [stripe])
                                  (sample_clock 0))))
    by (vm_compute; reflexivity).
  split; [exact H | ].
  refine (proj1 (proj2 (proj2 (proj2 (proj2 (proj2 (proj2
            (edit_touches_one_field f_deploymentType
               (mkMeta (lit "gw") (Value testnet) (Value vps) (Value same_vps)
                  None (Value [stripe]) (sample_clock 0))
               (mkMeta (lit "gw") (Value testnet) (Value local) (Value vercel)
                  None (Value [stripe]) (sample_clock 0))
               (Choose 1) _)))))))).
  rewrite H. reflexivity.
Defined.

(** Both integrations toggled, the first twice; and the configuration of
    scenario B. *)
Lemma integrations_never_repeat_witness :
  (multiselect (prompts_integrations (Some [stripe])) (Check [0; 1; 0])
   = Answer [auth; stripe] /\
   NoDup [auth; stripe]) /\
  NoDup (@nil Integration) /\ length (@nil Integration) <= 2.
Proof.
  assert (H : multiselect (prompts_integrations (Some [stripe])) (Check [0; 1; 0])
              = Answer [auth; stripe])
    by (vm_compute; reflexivity).
  split; [split; [exact H | ] | ].
  - apply (proj1 (integrations_never_repeat GoOn sample_clock)
             (prompts_integrations (Some [stripe])) (Check [0; 1; 0]));
      [ | exact H].
    repeat constructor. simpl. tauto.
  - apply (proj1 (proj2 (integrations_never_repeat GoOn sample_clock))
             scenario_B
             (mkMeta (lit "gw") (Value testnet) (Value local) (Value vercel)
                None (Value []) (sample_clock 0))).
    vm_compute. reflexivity.
Defined.

(** The pass of scenario B before its last answer. *)
Lemma hosting_provisions_idle_witness :
  mkMeta (lit "gw") (Value testnet) (Value vps) (Value same_vps) None
    (Value []) (sample_clock 0)
  = mkMeta (trim (lit "gw")) (Value testnet) (Value vps) (Value same_vps)
      (normalizeDomain (Some [])) (Value []) (sample_clock 0).
Proof.
  apply (proj1 (hosting_provisions_idle GoOn sample_clock)
           [Line (lit "gw"); Choose 0; Choose 0; Choose 0; Line []]
           0
           (AtIntegrations (lit "gw") (Value testnet) (Value vps)
              (Value same_vps) [])
           (Check [])
           (mkResults (lit "gw") (Value testnet) (Value vps) (Value same_vps)
              [] (Value [])));
    vm_compute; reflexivity.
Defined.

(** Node.js 16.20.1 against 18.0.0, with the sample Number values. *)
Lemma compareSemver_antisymmetric_witness :
  compareSemver (option N) sample_Number (Some 0%N) sample_lt sample_gt
    (lit "18.0.0") (lit "16.20.1")
  = (- compareSemver (option N) sample_Number (Some 0%N) sample_lt sample_gt
         (lit "16.20.1") (lit "18.0.0"))%Z.
Proof.
  exact (proj1 (compareSemver_antisymmetric (option N) sample_Number (Some 0%N)
                  sample_lt sample_gt sample_gt_lt sample_lt_asym
                  (lit "16.20.1") (lit "18.0.0"))).
Defined.

Lemma compareSemver_missing_segment_is_zero_witness :
  compareSemver (option N) sample_Number (Some 0%N) sample_lt sample_gt
    (lit "18" ++ lit ".0") (lit "18.0.0")
  = compareSemver (option N) sample_Number (Some 0%N) sample_lt sample_gt
      (lit "18") (lit "18.0.0").
Proof.
  exact (proj1 (compareSemver_missing_segment_is_zero (option N) sample_Number
                  (Some 0%N) sample_lt sample_gt sample_gt_lt sample_lt_asym
                  eq_refl (lit "18") (lit "18.0.0"))).
Defined.

Lemma compareSemver_orders_versions_witness :
  compareSemver (option N) sample_Number (Some 0%N) sample_lt sample_gt
    (lit "20.11") (lit "20.9.1")
  = sign (version_order (values (lit "20.11")) (values (lit "20.9.1"))).
Proof.
  exact (compareSemver_orders_versions (option N) sample_Number (Some 0%N)
           sample_lt sample_gt Some sample_gt_lt eq_refl sample_Number_numeric
           sample_lt_of (lit "20.11") (lit "20.9.1") eq_refl eq_refl).
Defined.

Lemma checkNode_wants_major_18_witness :
  checkNode (option N) sample_Number (Some 0%N) sample_lt sample_gt
    (lit "16.20.1") true
  = Fail (lit "Node.js") (Detected (lit "16.20.1") (lit "18.0.0")) true /\
  checkNode (option N) sample_Number (Some 0%N) sample_lt sample_gt
    (lit "18.0.0") true
  = Ok (lit "Node.js") (lit "18.0.0") true.
Proof.
  split.
  - exact (checkNode_wants_major_18 (option N) sample_Number (Some 0%N)
             sample_lt sample_gt Some sample_gt_lt eq_refl sample_Number_numeric
             sample_lt_of (lit "16.20.1") true eq_refl).
  - exact (checkNode_wants_major_18 (option N) sample_Number (Some 0%N)
             sample_lt sample_gt Some sample_gt_lt eq_refl sample_Number_numeric
             sample_lt_of (lit "18.0.0") true eq_refl).
Defined.

(** Git found at the second flag. *)
Lemma getCmdVersion_first_run_decides_witness :
  getCmdVersion sample_exec (lit "git") None 0 = (Some (lit "2.46.2"), 2).
Proof.
  apply (proj1 (getCmdVersion_first_run_decides sample_exec (lit "git") None 0)
           (lit "2.46.2") 2).
  exists 1, (lit "git version 2.46.2.windows.1").
  repeat split; try (vm_compute; reflexivity); try lia.
  intros [ | j] Hj; [reflexivity | lia].
Defined.

(** The sample run of the wallet setup. *)
Lemma wallet_result_well_formed_witness :
  runWalletSetup testnet None sample_clock_0 true sample_wallet_run
  = WEnded (WPayload
      (mkWalletSetupResult testnet
         (mkAccount (lit "my-gateway")
            (lit "pokt1qwertyuiopasdfghjklzxcvbnm0123456789"))
         (mkAccount (lit "my-app")
            (lit "pokt1mnbvcxzlkjhgfdsapoiuytrewq9876543210"))
         (lit ".tmp/keys.json") true sample_clock_0)) /\
  lit "pokt1mnbvcxzlkjhgfdsapoiuytrewq9876543210"
  <> lit "pokt1qwertyuiopasdfghjklzxcvbnm0123456789".
Proof.
  assert (H : runWalletSetup testnet None sample_clock_0 true sample_wallet_run
              = WEnded (WPayload
                  (mkWalletSetupResult testnet
                     (mkAccount (lit "my-gateway")
                        (lit "pokt1qwertyuiopasdfghjklzxcvbnm0123456789"))
                     (mkAccount (lit "my-app")
                        (lit "pokt1mnbvcxzlkjhgfdsapoiuytrewq9876543210"))
                     (lit ".tmp/keys.json") true sample_clock_0)))
    by (vm_compute; reflexivity).
  split; [exact H | ].
  exact (proj2 (proj2 (proj2 (proj2 (proj2 (proj2 (proj2 (proj2 (proj2 (proj2
           (wallet_result_well_formed testnet None sample_clock_0 true
              sample_wallet_run _ H))))))))))).
Defined.

(** In the sample run the question about the delegation is answered with
    yes while it is open. *)
Lemma wallet_setup_needs_every_yes_witness :
  exists ins1 k ins2 w,
    sample_wallet_run = ins1 ++ Choose k :: ins2 /\
    runWalletSetup testnet None sample_clock_0 true ins1 = Asking q_proceed w /\
    Nat.even k = true.
Proof.
  apply (proj1 (wallet_setup_needs_every_yes testnet None sample_clock_0 true)
           sample_wallet_run
           (WPayload
              (mkWalletSetupResult testnet
                 (mkAccount (lit "my-gateway")
                    (lit "pokt1qwertyuiopasdfghjklzxcvbnm0123456789"))
                 (mkAccount (lit "my-app")
                    (lit "pokt1mnbvcxzlkjhgfdsapoiuytrewq9876543210"))
                 (lit ".tmp/keys.json") true sample_clock_0))
           q_proceed).
  - vm_compute. reflexivity.
  - discriminate.
  - reflexivity.
Defined.

(** Node.js 20.11.0 on a machine without Git, Docker and pocketd: the
    answer yes does not help. *)
Lemma preflight_waives_docker_only_witness :
  runPreflightOrExit (option N) sample_Number (Some 0%N) sample_lt sample_gt
    (lit "20.11.0") sample_no_exec sample_no_spawn (Got true)
  = Exits 1.
Proof.
  apply (proj2 (proj2 (proj2
           (preflight_waives_docker_only (option N) sample_Number (Some 0%N)
              sample_lt sample_gt (lit "20.11.0") sample_no_exec
              sample_no_spawn)))
           (Fail (lit "Git") NotFound true)).
  - vm_compute. right. left. reflexivity.
  - reflexivity.
  - reflexivity.
Defined.

(** The output of Git for Windows. *)
Lemma version_of_takes_first_version_witness :
  1 <= length (split "." (version_of (lit "git version 2.46.2.windows.1"))) <= 4 /\
  Forall digits (split "." (version_of (lit "git version 2.46.2.windows.1"))).
Proof.
  apply (proj1 (proj2 (proj2 (proj2
           (version_of_takes_first_version (lit "git version 2.46.2.windows.1")))))).
  vm_compute. reflexivity.
Defined.

Lemma isPoktAddress_exact_witness :
  25 <= length (trim (lit "  pokt1qwertyuiopasdfghjklzxcvbnm0123456789  ")) <= 95.
Proof.
  apply (proj1 (proj2 (proj2
           (isPoktAddress_exact
              (lit "  pokt1qwertyuiopasdfghjklzxcvbnm0123456789  "))))).
  vm_compute. reflexivity.
Defined.

(** The domain of scenario A. *)
Lemma domainLooksValid_exact_witness :
  toLowerCase (lit "api.example.com") = lit "api.example.com" /\
  (strict_fqdn (lit "api.example.com") \/ spec_localhost (lit "api.example.com") \/
   GoOn = GoOn /\ lit "api.example.com" = lit "canceled").
Proof.
  apply (proj1 (proj2 (proj2 (proj2 (domainLooksValid_exact GoOn sample_clock))))
           scenario_A
           (mkMeta (lit "My Gw") (Value testnet) (Value vps) (Value same_vps)
              (Some (lit "api.example.com")) (Value []) (sample_clock 0)));
    vm_compute; reflexivity.
Defined.

Lemma normalizeDomain_output_form_witness :
  lit "api.example.com" <> [] /\
  toLowerCase (lit "api.example.com") = lit "api.example.com" /\
  last (lit "api.example.com") "a"%char <> "/"%char.
Proof.
  apply (proj1 normalizeDomain_output_form (lit "HTTPS://API.Example.com/")).
  vm_compute. reflexivity.
Defined.

(** Scenario A ends with the confirmation of the configuration shown. *)
Lemma returned_was_confirmed_witness :
  exists ins1 k ins2 reads,
    scenario_A = ins1 ++ Choose k :: ins2 /\
    collectProjectMetadata GoOn sample_clock ins1
    = InEditLoop reads
        (Review (mkMeta (lit "My Gw") (Value testnet) (Value vps)
                   (Value same_vps) (Some (lit "api.example.com")) (Value [])
                   (sample_clock 0))) /\
    highlighted review_prompt k = c_confirm.
Proof.
  apply (proj1 (returned_was_confirmed GoOn sample_clock) scenario_A).
  vm_compute. reflexivity.
Defined.
